(** * A shallow embedding of [examples/transformer.py]

    The file builds a sequence-to-sequence Transformer out of small
    modules ([LayerNorm], [FeedForward], [ResidualBlock], [Attention],
    [MultiHead], encoder and decoder layers and stacks) on top of PyTorch
    and the matchbox batching library.

    Modelling choices, fixed once for the whole development:
    - a tensor is its [size] (a list of extents, outermost first, as
      [Tensor.size()] returns it) and a function from multi-indices to
      entries; entries of floating-point tensors are real numbers, so the
      theorems speak about exact arithmetic;
    - the one non-finite value the program writes itself, the minus
      infinity of the causal mask, is kept as a separate constructor of
      [xreal];
    - a Python exception is the [Raise] branch of [result];
    - random draws (initial weights, dropout masks) come from oracles that
      are threaded explicitly;
    - dense tensors only: for them matchbox's [maxsize] is [size];
    - [Transformer.__init__] creates the output projections by visiting a
      set of fields, in an order Python does not fix: [Transformer_init]
      takes the order as a parameter. *)

From Stdlib Require Import List Arith ZArith Bool Lia Reals Lra.
Import ListNotations.

Set Implicit Arguments.

(** ** Exceptions *)

Inductive error : Type :=
| RuntimeError   (* torch: sizes that do not fit *)
| IndexError     (* an index or a dimension out of range *)
| ValueError     (* an argument outside its domain *)
| TypeError      (* a call with the wrong number of arguments *)
| UnboundLocalError.  (* a local variable read before any assignment *)

Inductive result (A : Type) : Type :=
| Ok (a : A)
| Raise (e : error).

Arguments Ok {A} a.
Arguments Raise {A} e.

Definition bind {A B : Type} (c : result A) (k : A -> result B) : result B :=
  match c with
  | Ok a => k a
  | Raise e => Raise e
  end.

Notation "x <- c ;; k" := (bind c (fun x => k))
  (at level 61, c at next level, right associativity).

(** ** Finite sums of reals *)

Fixpoint rsum (n : nat) (f : nat -> R) : R :=
  match n with
  | O => 0%R
  | S k => (rsum k f + f k)%R
  end.

(** ** Tensors *)

Record Tensor (A : Type) : Type := mkTensor {
  size : list nat;
  data : list nat -> A
}.

Definition dim {A} (x : Tensor A) : nat := length (size x).

Definition tmap {A B} (f : A -> B) (x : Tensor A) : Tensor B :=
  mkTensor (size x) (fun i => f (data x i)).

(** An index is inside a size when it has the same rank and every
    coordinate is below its extent. *)
Definition inb (idx sz : list nat) : Prop := Forall2 lt idx sz.

Fixpoint prod (l : list nat) : nat :=
  match l with
  | [] => 1
  | d :: r => d * prod r
  end.

(** All indices of a size, in row-major order. *)
Fixpoint all_indices (sz : list nat) : list (list nat) :=
  match sz with
  | [] => [[]]
  | d :: r => flat_map (fun i => map (cons i) (all_indices r)) (seq 0 d)
  end.

(** A Python dimension argument: negative values count from the end. *)
Definition norm_dim (rank : nat) (d : Z) : result nat :=
  let d' := if (d <? 0)%Z then (d + Z.of_nat rank)%Z else d in
  if ((0 <=? d') && (d' <? Z.of_nat rank))%Z then Ok (Z.to_nat d')
  else Raise IndexError.

Definition insert_at {A} (n : nat) (v : A) (l : list A) : list A :=
  firstn n l ++ v :: skipn n l.

Definition remove_at {A} (n : nat) (l : list A) : list A :=
  firstn n l ++ skipn (S n) l.

Definition replace_at {A} (n : nat) (v : A) (l : list A) : list A :=
  firstn n l ++ v :: skipn (S n) l.

Definition swap_at (i j : nat) (l : list nat) : list nat :=
  map (fun k => nth (if k =? i then j else if k =? j then i else k) l 0)
      (seq 0 (length l)).

(** *** Broadcasting *)

(** Sizes are aligned at the last axis; two extents fit when they are
    equal or one of them is 1. *)
Fixpoint broadcast_rev (a b : list nat) : result (list nat) :=
  match a, b with
  | [], _ => Ok b
  | _, [] => Ok a
  | x :: a', y :: b' =>
      r <- broadcast_rev a' b' ;;
      if x =? y then Ok (x :: r)
      else if x =? 1 then Ok (y :: r)
      else if y =? 1 then Ok (x :: r)
      else Raise RuntimeError
  end.

Definition broadcast_shapes (a b : list nat) : result (list nat) :=
  r <- broadcast_rev (rev a) (rev b) ;; Ok (rev r).

(** The index at which an operand of size [sz] is read when the result is
    read at [idx]: the trailing coordinates, with 0 on axes of extent 1. *)
Definition bindex (sz idx : list nat) : list nat :=
  map (fun di => if fst di =? 1 then 0 else snd di)
      (combine sz (skipn (length idx - length sz) idx)).

Definition map2 {A B C} (f : A -> B -> C) (a : Tensor A) (b : Tensor B)
  : result (Tensor C) :=
  sz <- broadcast_shapes (size a) (size b) ;;
  Ok (mkTensor sz (fun i => f (data a (bindex (size a) i))
                               (data b (bindex (size b) i)))).

Definition add := map2 Rplus.
Definition sub := map2 Rminus.
Definition mul := map2 Rmult.
Definition div := map2 Rdiv.

(** [x += y]: the sum must fit in [x]. *)
Definition iadd (x y : Tensor R) : result (Tensor R) :=
  s <- add x y ;;
  if list_eq_dec Nat.eq_dec (size s) (size x) then Ok s
  else Raise RuntimeError.

(** [x.expand(target)] *)
Fixpoint expandable_rev (s t : list nat) : bool :=
  match s, t with
  | [], _ => true
  | _ :: _, [] => false
  | x :: s', y :: t' => ((x =? y) || (x =? 1)) && expandable_rev s' t'
  end.

Definition expand {A} (x : Tensor A) (target : list nat) : result (Tensor A) :=
  if expandable_rev (rev (size x)) (rev target)
  then Ok (mkTensor target (fun i => data x (bindex (size x) i)))
  else Raise RuntimeError.

(** *** Moving axes *)

(** [x.unsqueeze(d)] *)
Definition unsqueeze {A} (d : Z) (x : Tensor A) : result (Tensor A) :=
  k <- norm_dim (S (dim x)) d ;;
  Ok (mkTensor (insert_at k 1 (size x)) (fun i => data x (remove_at k i))).

(** [x.transpose(d0, d1)] *)
Definition transpose {A} (d0 d1 : Z) (x : Tensor A) : result (Tensor A) :=
  i <- norm_dim (dim x) d0 ;;
  j <- norm_dim (dim x) d1 ;;
  Ok (mkTensor (swap_at i j (size x)) (fun idx => data x (swap_at i j idx))).

(** [torch.stack((a, b), -1)] *)
Definition stack_last {A} (a b : Tensor A) : result (Tensor A) :=
  if list_eq_dec Nat.eq_dec (size a) (size b)
  then Ok (mkTensor (size a ++ [2])
             (fun i => if last i 0 =? 0 then data a (removelast i)
                       else data b (removelast i)))
  else Raise RuntimeError.

(** [x.contiguous().view( *x.size()[:-2], -1)]: the last two axes become
    one, in row-major order.  With fewer than two axes everything is
    flattened; torch refuses to infer the [-1] when the kept extents
    multiply to 0. *)
Definition view_merge_last2 {A} (x : Tensor A) : result (Tensor A) :=
  match rev (size x) with
  | b :: a :: l =>
      if prod l =? 0 then Raise RuntimeError
      else Ok (mkTensor (rev l ++ [a * b])
                 (fun i => data x (removelast i ++ [last i 0 / b; last i 0 mod b])))
  | [n] => Ok (mkTensor [n] (data x))
  | [] => Ok (mkTensor [1] (fun _ => data x []))
  end.

(** [torch.arange(start, stop, step)] as a float tensor *)
Definition arange (start stop step : nat) : Tensor R :=
  mkTensor [(stop - start + step - 1) / step]
           (fun i => INR (start + nth 0 i 0 * step)).

(** *** Reductions over the last axis *)

Definition last_extent (sz : list nat) : nat := last sz 1.

Definition row {A} (x : Tensor A) (i : list nat) (j : nat) : A :=
  data x (removelast i ++ [j]).

Definition keepdim (sz : list nat) : list nat :=
  match sz with
  | [] => []
  | _ => removelast sz ++ [1]
  end.

(** [x.mean(-1, keepdim=True)], in exact arithmetic.  torch rounds, and
    for entries that are large against their spread the rounded mean and
    standard deviation differ from the exact ones by amounts of the size
    of the spread: what is proved about the values [LayerNorm] returns is
    therefore stated for arbitrary statistics ([LayerNorm.forward_from]). *)
Definition mean_last (x : Tensor R) : Tensor R :=
  let D := last_extent (size x) in
  mkTensor (keepdim (size x)) (fun i => (rsum D (row x i) / INR D)%R).

(** [x.std(-1, keepdim=True)]: the unbiased estimator, with [D - 1] in
    the denominator.  For [D <= 1] torch yields NaN; here the quotient
    follows the convention of [Rdiv], and the theorems below ask for
    [2 <= D]. *)
Definition std_last (x : Tensor R) : Tensor R :=
  let D := last_extent (size x) in
  mkTensor (keepdim (size x))
    (fun i =>
       let mu := (rsum D (row x i) / INR D)%R in
       sqrt (rsum D (fun j => Rsqr (row x i j - mu)) / INR (D - 1)))%R.

(** *** Matrix product *)

(** [a @ b] for operands of rank at least 2: the last two axes are
    multiplied, the leading (batch) axes broadcast. *)
Definition bmm (a b : Tensor R) : result (Tensor R) :=
  match rev (size a), rev (size b) with
  | m :: n :: ba, p :: m' :: bb =>
      if m =? m' then
        bs <- broadcast_rev ba bb ;;
        Ok (mkTensor (rev bs ++ [n; p])
              (fun idx =>
                 let j := last idx 0 in
                 let i := last (removelast idx) 0 in
                 let bi := removelast (removelast idx) in
                 rsum m (fun c =>
                   data a (bindex (rev ba) bi ++ [i; c]) *
                   data b (bindex (rev bb) bi ++ [c; j]))%R))
      else Raise RuntimeError
  | _, _ => Raise RuntimeError
  end.

(** [torch.matmul]: a rank-1 left operand is used as a row and a rank-1
    right operand as a column, the added axis being removed afterwards;
    rank 0 is refused. *)
Definition matmul (a b : Tensor R) : result (Tensor R) :=
  match dim a, dim b with
  | 0, _ | _, 0 => Raise RuntimeError
  | 1, 1 =>
      a' <- unsqueeze 0 a ;; b' <- unsqueeze (-1) b ;; r <- bmm a' b' ;;
      Ok (mkTensor [] (fun _ => data r [0; 0]))
  | 1, _ =>
      a' <- unsqueeze 0 a ;; r <- bmm a' b ;;
      Ok (mkTensor (remove_at (dim r - 2) (size r))
            (fun i => data r (insert_at (dim r - 2) 0 i)))
  | _, 1 =>
      b' <- unsqueeze (-1) b ;; r <- bmm a b' ;;
      Ok (mkTensor (removelast (size r)) (fun i => data r (i ++ [0])))
  | _, _ => bmm a b
  end.

(** *** Extended reals for masked scores *)

Inductive xreal : Type :=
| Finite (r : R)
| NegInf.

Definition xdiv (x : xreal) (s : R) : xreal :=
  match x with
  | Finite r => Finite (r / s)
  | NegInf => NegInf
  end.

Definition xexp (x : xreal) : R :=
  match x with
  | Finite r => exp r
  | NegInf => 0%R
  end.

(** ** Library functions on tensors *)

Definition split_last (sz : list nat) : option (list nat * nat) :=
  match rev sz with
  | [] => None
  | d :: l => Some (rev l, d)
  end.

(** Modelled from the spec: matchbox's [softmax] method is not part of
    this unit.  "Softmax normalizes over the key axis", the last one; an
    entry at minus infinity gets weight 0. *)
Definition softmax (x : Tensor xreal) : Tensor R :=
  let D := last_extent (size x) in
  mkTensor (size x)
    (fun i => (xexp (data x i) / rsum D (fun j => xexp (row x i j)))%R).

(** Modelled from the spec: matchbox's [F.relu] is not part of this unit;
    it is the "nonlinearity" of the feed-forward block, [max(0, x)] entry
    by entry. *)
Definition relu (x : Tensor R) : Tensor R := tmap (Rmax 0) x.

(** Modelled from the spec: matchbox's [F.embedding] is not part of this
    unit.  It is the "embedding lookup": row [x[i]] of the table [w] for
    every entry of the integer tensor [x], an entry outside the table
    being an error. *)
Definition embedding (x : Tensor nat) (w : Tensor R) : result (Tensor R) :=
  match size w with
  | [V; d] =>
      if forallb (fun i => data x i <? V) (all_indices (size x))
      then Ok (mkTensor (size x ++ [d])
                 (fun i => data w [data x (removelast i); last i 0]))
      else Raise IndexError
  | _ => Raise RuntimeError
  end.

(** Modelled from the spec: matchbox's [maxsize] method is not part of
    this unit.  It gives the extents "(sequence length T, feature width
    D)" of the input; for a dense tensor these are its [size]. *)
Definition maxsize {A} (x : Tensor A) (d : Z) : result nat :=
  k <- norm_dim (dim x) d ;; Ok (nth k (size x) 0).

(** Modelled from the spec: matchbox's [causal_mask] is not part of this
    unit.  The spec has it "mask out dot-product entries where the key
    position exceeds the query position (set to minus infinity prior to
    softmax)"; [in_dim] is the key axis and [out_dim] the query axis. *)
Definition causal_mask (x : Tensor R) (in_dim out_dim : Z)
  : result (Tensor xreal) :=
  i <- norm_dim (dim x) in_dim ;;
  o <- norm_dim (dim x) out_dim ;;
  Ok (mkTensor (size x)
        (fun idx => if nth o idx 0 <? nth i idx 0 then NegInf
                    else Finite (data x idx))).

(** Modelled from the spec: matchbox's [split_dim] is not part of this
    unit.  It "splits the feature dimension into n_heads equal groups";
    the source's own comments give the sizes, [B x T x D -> B x T x (D/N)
    x N] and [(B*N) x T x (D/N) -> B x N x T x (D/N)]: axis [d] of extent
    [s] becomes two axes of extents [s / n] and [n], read in row-major
    order.  An extent that [n] does not divide cannot be viewed so: the
    spec has the failure as "undefined/error" and names no exception, so
    [RuntimeError] only stands for "an error", and what is stated about
    [MultiHead] and the layers concludes no more than that the call
    raises. *)
Definition split_dim {A} (d : Z) (n : nat) (x : Tensor A) : result (Tensor A) :=
  k <- norm_dim (dim x) d ;;
  let s := nth k (size x) 0 in
  if (n =? 0) || negb (s mod n =? 0) then Raise RuntimeError
  else Ok (mkTensor (firstn k (size x) ++ [s / n; n] ++ skipn (S k) (size x))
             (fun i => data x (firstn k i ++ [nth k i 0 * n + nth (S k) i 0]
                               ++ skipn (S (S k)) i))).

(** Modelled from the spec: matchbox's [combine_dims] is not part of this
    unit.  It "folds the head dimension into the batch dimension" and
    later "un-folds and concatenates head outputs back along the feature
    axis"; the source's comments give the sizes, [B x T x (D/N) x N ->
    (B*N) x T x (D/N)] and [B x N x T x (D/N) -> B x T x D]: axis [b] is
    removed and axis [a] takes the product of both extents, the removed
    axis varying fastest. *)
Definition combine_dims {A} (a b : Z) (x : Tensor A) : result (Tensor A) :=
  ka <- norm_dim (dim x) a ;;
  kb <- norm_dim (dim x) b ;;
  if ka =? kb then Raise RuntimeError
  else
    let sb := nth kb (size x) 0 in
    let ka' := if kb <? ka then ka - 1 else ka in
    Ok (mkTensor (remove_at kb (replace_at ka (nth ka (size x) 0 * sb) (size x)))
          (fun i => data x (insert_at kb (nth ka' i 0 mod sb)
                              (replace_at ka' (nth ka' i 0 / sb) i)))).

(** ** Construction: the initialiser's random stream *)

(** [randn k] is the [k]-th tensor the initialiser draws, [bern k] the
    keep-mask of the [k]-th dropout module. *)
Record Rng : Type := {
  randn : nat -> list nat -> R;
  bern : nat -> list nat -> bool
}.

Definition Init (A : Type) : Type := nat -> result (A * nat).

Definition iret {A} (a : A) : Init A := fun k => Ok (a, k).

Definition ibind {A B} (c : Init A) (f : A -> Init B) : Init B :=
  fun k => match c k with
           | Ok (a, k') => f a k'
           | Raise e => Raise e
           end.

Notation "x <~ c ;; k" := (ibind c (fun x => k))
  (at level 61, c at next level, right associativity).

Definition fresh_tensor (rng : Rng) (sz : list nat) : Init (Tensor R) :=
  fun k => Ok (mkTensor sz (randn rng k), S k).

(** The interface of [nn.Module]: a module is called on its positional
    arguments. *)
Class Module (M : Type) : Type :=
  call : M -> list (Tensor R) -> result (Tensor R).

(** ** [positional_encodings_like] *)

Definition positional_encodings_like {A} (x : Tensor A) (t : option (Tensor R))
  : result (Tensor R) :=
  T <- maxsize x (-2) ;;
  D <- maxsize x (-1) ;;
  let positions := match t with None => arange 0 T 1 | Some t' => t' end in
  let channels := tmap (fun c => (c / INR D)%R) (arange 0 D 2) in
  let channels := tmap (fun c => (1 / Rpower 10000 c)%R) channels in
  p <- unsqueeze (-1) positions ;;
  c <- unsqueeze 0 channels ;;
  encodings <- matmul p c ;;
  encodings <- stack_last (tmap sin encodings) (tmap cos encodings) ;;
  encodings <- view_merge_last2 encodings ;;
  if dim encodings =? 2 then
    e <- unsqueeze 0 encodings ;; expand e (size x)
  else Ok encodings.

(** ** [nn.Dropout] *)

Module Dropout.

Record t : Type := {
  p : R;
  training : bool;
  keep : list nat -> bool
}.

Definition init (rng : Rng) (p : R) : Init t :=
  fun k =>
    if Rle_dec 0 p then
      if Rle_dec p 1 then
        Ok ({| p := p; training := true; keep := bern rng k |}, S k)
      else Raise ValueError
    else Raise ValueError.

(** In training mode the kept entries are rescaled by [1 / (1 - p)] and
    the others zeroed; in evaluation mode the input is returned. *)
Definition forward (self : t) (x : Tensor R) : Tensor R :=
  if training self then
    mkTensor (size x)
      (fun i => if keep self i then (data x i / (1 - p self))%R else 0%R)
  else x.

End Dropout.

(** ** [nn.Linear] *)

Module Linear.

Record t : Type := {
  in_features : nat;
  out_features : nat;
  weight : Tensor R;   (* [out_features; in_features] *)
  bias : Tensor R      (* [out_features] *)
}.

Definition init (rng : Rng) (inf outf : nat) : Init t :=
  w <~ fresh_tensor rng [outf; inf] ;;
  b <~ fresh_tensor rng [outf] ;;
  iret {| in_features := inf; out_features := outf; weight := w; bias := b |}.

Definition forward (self : t) (x : Tensor R) : result (Tensor R) :=
  match split_last (size x) with
  | Some (l, d) =>
      if d =? in_features self then
        Ok (mkTensor (l ++ [out_features self])
              (fun i =>
                 let o := last i 0 in
                 (rsum (in_features self)
                    (fun c => row x i c * data (weight self) [o; c])
                  + data (bias self) [o])%R))
      else Raise RuntimeError
  | None => Raise RuntimeError
  end.

End Linear.

(** ** [LayerNorm] *)

Module LayerNorm.

Record t : Type := {
  gamma : Tensor R;
  beta : Tensor R;
  eps : R
}.

Definition init (d_model : nat) (eps : R) : t :=
  {| gamma := mkTensor [d_model] (fun _ => 1%R);
     beta := mkTensor [d_model] (fun _ => 0%R);
     eps := eps |}.

Definition default_eps : R := (1 / 1000000)%R.

(** The return expression of [forward],
    [self.gamma * (x - mean) / (std + self.eps) + self.beta] with Python's
    left-to-right grouping, as a function of the two tensors that
    [forward] binds before it. *)
Definition forward_from (mean std : Tensor R) (self : t) (x : Tensor R)
  : result (Tensor R) :=
  c <- sub x mean ;;
  g <- mul (gamma self) c ;;
  q <- div g (tmap (fun s => (s + eps self)%R) std) ;;
  add q (beta self).

(** [mean = x.mean(-1, keepdim=True)], [std = x.std(-1, keepdim=True)],
    then the expression above. *)
Definition forward (self : t) (x : Tensor R) : result (Tensor R) :=
  let mean := mean_last x in
  let std := std_last x in
  forward_from mean std self x.

End LayerNorm.

(** ** [FeedForward] *)

Module FeedForward.

Record t : Type := {
  linear1 : Linear.t;
  linear2 : Linear.t;
  dropout : Dropout.t
}.

Definition init (rng : Rng) (d_model d_hidden : nat) (drop_ratio : R) : Init t :=
  l1 <~ Linear.init rng d_model d_hidden ;;
  l2 <~ Linear.init rng d_hidden d_model ;;
  d <~ Dropout.init rng drop_ratio ;;
  iret {| linear1 := l1; linear2 := l2; dropout := d |}.

Definition forward (self : t) (x : Tensor R) : result (Tensor R) :=
  h <- Linear.forward (linear1 self) x ;;
  Linear.forward (linear2 self) (Dropout.forward (dropout self) (relu h)).

#[global] Instance module : Module t :=
  fun self args =>
    match args with
    | [x] => forward self x
    | _ => Raise TypeError
    end.

End FeedForward.

(** ** [ResidualBlock] *)

Module ResidualBlock.

Record t (L : Type) : Type := {
  layer : L;
  dropout : Dropout.t;
  norm : LayerNorm.t
}.

Definition init {L} (rng : Rng) (layer : L) (d_model : nat) (drop_ratio : R)
  : Init (t L) :=
  d <~ Dropout.init rng drop_ratio ;;
  iret {| layer := layer; dropout := d;
          norm := LayerNorm.init d_model LayerNorm.default_eps |}.

(** [x[0] + self.dropout(self.norm(self.layer( *x)))] *)
Definition forward {L} `{Module L} (self : t L) (x : list (Tensor R))
  : result (Tensor R) :=
  match x with
  | [] => Raise IndexError
  | x0 :: _ =>
      y <- call (layer self) x ;;
      n <- LayerNorm.forward (norm self) y ;;
      add x0 (Dropout.forward (dropout self) n)
  end.

End ResidualBlock.

(** ** [Attention] *)

Module Attention.

Record t : Type := {
  scale : R;
  dropout : Dropout.t;
  causal : bool
}.

Definition init (rng : Rng) (d_key : nat) (drop_ratio : R) (causal : bool)
  : Init t :=
  d <~ Dropout.init rng drop_ratio ;;
  iret {| scale := sqrt (INR d_key); dropout := d; causal := causal |}.

(** The scores handed to the softmax: the dot products, masked when the
    module is causal and the query has rank 3, divided by [scale]. *)
Definition scores (self : t) (query key : Tensor R) : result (Tensor xreal) :=
  kt <- transpose 1 2 key ;;
  dot_products <- matmul query kt ;;
  dot_products <-
    (if causal self && (dim query =? 3)
     then causal_mask dot_products 2 1
     else Ok (tmap Finite dot_products)) ;;
  Ok (tmap (fun s => xdiv s (scale self)) dot_products).

Definition forward (self : t) (query key value : Tensor R)
  : result (Tensor R) :=
  s <- scores self query key ;;
  matmul (Dropout.forward (dropout self) (softmax s)) value.

End Attention.

(** ** [MultiHead] *)

Module MultiHead.

Record t : Type := {
  attention : Attention.t;
  wq : Linear.t;
  wk : Linear.t;
  wv : Linear.t;
  wo : Linear.t;
  n_heads : nat
}.

Definition init (rng : Rng) (attention : Attention.t)
  (d_key d_value n_heads : nat) : Init t :=
  q <~ Linear.init rng d_key d_key ;;
  k <~ Linear.init rng d_key d_key ;;
  v <~ Linear.init rng d_value d_value ;;
  o <~ Linear.init rng d_value d_key ;;
  iret {| attention := attention; wq := q; wk := k; wv := v; wo := o;
          n_heads := n_heads |}.

(** [x.split_dim(-1, n_heads).combine_dims(0, -1)] *)
Definition fold_heads (n : nat) (x : Tensor R) : result (Tensor R) :=
  s <- split_dim (-1) n x ;; combine_dims 0 (-1) s.

(** The per-head operands on which the attention module is run. *)
Definition heads (self : t) (query key value : Tensor R)
  : result (Tensor R * Tensor R * Tensor R) :=
  query <- Linear.forward (wq self) query ;;
  key <- Linear.forward (wk self) key ;;
  value <- Linear.forward (wv self) value ;;
  query <- fold_heads (n_heads self) query ;;
  key <- fold_heads (n_heads self) key ;;
  value <- fold_heads (n_heads self) value ;;
  Ok (query, key, value).

Definition forward (self : t) (query key value : Tensor R)
  : result (Tensor R) :=
  qkv <- heads self query key value ;;
  let '(query, key, value) := qkv in
  outputs <- Attention.forward (attention self) query key value ;;
  outputs <- split_dim 0 (n_heads self) outputs ;;
  outputs <- combine_dims (-1) 1 outputs ;;
  Linear.forward (wo self) outputs.

#[global] Instance module : Module t :=
  fun self args =>
    match args with
    | [q; k; v] => forward self q k v
    | _ => Raise TypeError
    end.

End MultiHead.

(** ** Hyper-parameters ([args]) *)

Module Args.

Record t : Type := {
  d_model : nat;
  d_hidden : nat;
  n_heads : nat;
  n_layers : nat;
  drop_ratio : R;
  length_ratio : R
}.

End Args.

(** ** [EncoderLayer] *)

Module EncoderLayer.

Record t : Type := {
  selfattn : ResidualBlock.t MultiHead.t;
  feedforward : ResidualBlock.t FeedForward.t
}.

Definition init (rng : Rng) (args : Args.t) : Init t :=
  let d := Args.d_model args in
  let p := Args.drop_ratio args in
  a <~ Attention.init rng d p false ;;
  m <~ MultiHead.init rng a d d (Args.n_heads args) ;;
  sa <~ ResidualBlock.init rng m d p ;;
  f <~ FeedForward.init rng d (Args.d_hidden args) p ;;
  ff <~ ResidualBlock.init rng f d p ;;
  iret {| selfattn := sa; feedforward := ff |}.

Definition forward (self : t) (x : Tensor R) : result (Tensor R) :=
  x <- ResidualBlock.forward (selfattn self) [x; x; x] ;;
  ResidualBlock.forward (feedforward self) [x].

End EncoderLayer.

(** ** [DecoderLayer] *)

Module DecoderLayer.

Record t : Type := {
  selfattn : ResidualBlock.t MultiHead.t;
  attention : ResidualBlock.t MultiHead.t;
  feedforward : ResidualBlock.t FeedForward.t
}.

Definition init (rng : Rng) (args : Args.t) : Init t :=
  let d := Args.d_model args in
  let p := Args.drop_ratio args in
  a1 <~ Attention.init rng d p true ;;
  m1 <~ MultiHead.init rng a1 d d (Args.n_heads args) ;;
  sa <~ ResidualBlock.init rng m1 d p ;;
  a2 <~ Attention.init rng d p false ;;
  m2 <~ MultiHead.init rng a2 d d (Args.n_heads args) ;;
  at2 <~ ResidualBlock.init rng m2 d p ;;
  f <~ FeedForward.init rng d (Args.d_hidden args) p ;;
  ff <~ ResidualBlock.init rng f d p ;;
  iret {| selfattn := sa; attention := at2; feedforward := ff |}.

Definition forward (self : t) (x encoding : Tensor R) : result (Tensor R) :=
  x <- ResidualBlock.forward (selfattn self) [x; x; x] ;;
  x <- ResidualBlock.forward (attention self) [x; encoding; encoding] ;;
  ResidualBlock.forward (feedforward self) [x].

End DecoderLayer.

(** [[f(args) for i in range(n)]] for a constructor [f] *)
Fixpoint replicate_init {A} (n : nat) (c : Init A) : Init (list A) :=
  match n with
  | O => iret []
  | S n' => a <~ c ;; l <~ replicate_init n' c ;; iret (a :: l)
  end.

(** The common input stage of [Encoder.forward] and [Decoder.forward]:
    embedding with the tied projection weights scaled by [sqrt d_model],
    positional encodings added in place, dropout. *)
Definition embed_input (out : Linear.t) (d_model : nat) (dropout : Dropout.t)
  (x : Tensor nat) : result (Tensor R) :=
  x <- embedding x (tmap (fun w => (w * sqrt (INR d_model))%R) (Linear.weight out)) ;;
  pe <- positional_encodings_like x None ;;
  x <- iadd x pe ;;
  Ok (Dropout.forward dropout x).

(** ** [Encoder] *)

Module Encoder.

Record t : Type := {
  out : Linear.t;
  layers : list EncoderLayer.t;
  dropout : Dropout.t;
  d_model : nat
}.

Definition init (rng : Rng) (field_out : Linear.t) (args : Args.t) : Init t :=
  ls <~ replicate_init (Args.n_layers args) (EncoderLayer.init rng args) ;;
  d <~ Dropout.init rng (Args.drop_ratio args) ;;
  iret {| out := field_out; layers := ls; dropout := d;
          d_model := Args.d_model args |}.

(** [for layer in self.layers: x = layer(x); encoding.append(x)] *)
Fixpoint loop (ls : list EncoderLayer.t) (x : Tensor R)
  (encoding : list (Tensor R)) : result (list (Tensor R)) :=
  match ls with
  | [] => Ok encoding
  | layer :: ls' =>
      x <- EncoderLayer.forward layer x ;;
      loop ls' x (encoding ++ [x])
  end.

Definition forward (self : t) (x : Tensor nat) : result (list (Tensor R)) :=
  x <- embed_input (out self) (d_model self) (dropout self) x ;;
  loop (layers self) x [].

End Encoder.

(** ** [Decoder] *)

Module Decoder.

(** [greedy] and [beam_search] are called by [Transformer.forward] but
    defined outside this unit; they are carried as fields. *)
Record t : Type := {
  out : Linear.t;
  layers : list DecoderLayer.t;
  dropout : Dropout.t;
  d_model : nat;
  length_ratio : R;
  greedy : list (Tensor R) -> result (Tensor nat);
  beam_search : list (Tensor R) -> Z -> R -> result (Tensor nat)
}.

Definition init (rng : Rng) (field_out : Linear.t) (args : Args.t)
  (greedy : list (Tensor R) -> result (Tensor nat))
  (beam_search : list (Tensor R) -> Z -> R -> result (Tensor nat)) : Init t :=
  ls <~ replicate_init (Args.n_layers args) (DecoderLayer.init rng args) ;;
  d <~ Dropout.init rng (Args.drop_ratio args) ;;
  iret {| out := field_out; layers := ls; dropout := d;
          d_model := Args.d_model args;
          length_ratio := Args.length_ratio args;
          greedy := greedy; beam_search := beam_search |}.

(** [for l, (layer, enc) in enumerate(zip(self.layers, encoding)):
       x = layer(x, enc)] *)
Fixpoint loop (pairs : list (DecoderLayer.t * Tensor R)) (x : Tensor R)
  : result (Tensor R) :=
  match pairs with
  | [] => Ok x
  | (layer, enc) :: rest =>
      x <- DecoderLayer.forward layer x enc ;;
      loop rest x
  end.

Definition forward (self : t) (x : Tensor nat) (encoding : list (Tensor R))
  : result (Tensor R) :=
  x <- embed_input (out self) (d_model self) (dropout self) x ;;
  loop (combine (layers self) encoding) x.

End Decoder.

(** ** [Transformer] *)

Module Transformer.

Record t : Type := {
  encoder : Encoder.t;
  decoder : Decoder.t
}.

(** What [forward] hands back: the decoder output alone, with the
    probabilities, or the decoded tokens, alone or with both. *)
Inductive returned : Type :=
| Out (out : Tensor R)
| OutProbs (out probs : Tensor R)
| Decoded (output : Tensor nat)
| DecodedProbs (output : Tensor nat) (out probs : Tensor R).

(** The sub-modules [forward] invokes, in order. *)
Inductive invoked : Type :=
| InvEncoder (inputs : Tensor nat)
| InvDecoder (inputs : Tensor nat) (encoding : list (Tensor R))
| InvGreedy (encoding : list (Tensor R))
| InvBeamSearch (encoding : list (Tensor R)) (beam : Z) (alpha : R)
| InvOut (out : Tensor R).

(** A computation that logs the sub-modules it invokes; the log is kept
    when an exception stops the computation. *)
Definition Run (A : Type) : Type := (list invoked * result A)%type.

Definition rret {A} (a : A) : Run A := ([], Ok a).

Definition rbind {A B} (c : Run A) (f : A -> Run B) : Run B :=
  match c with
  | (l, Ok a) => let '(l', r) := f a in (l ++ l', r)
  | (l, Raise e) => (l, Raise e)
  end.

Definition invoke {A} (i : invoked) (r : result A) : Run A := ([i], r).

(** [self.decoder.out(out).softmax()] and [F.softmax(self.decoder.out(out))] *)
Definition probs (self : t) (out : Tensor R) : Run (Tensor R) :=
  rbind (invoke (InvOut out) (Linear.forward (Decoder.out (decoder self)) out))
        (fun l => rret (softmax (tmap Finite l))).

(** Reading [out] on a path that did not assign it. *)
Definition unbound {A} : Run A := ([], Raise UnboundLocalError).

Definition forward (self : t) (encoder_inputs decoder_inputs : Tensor nat)
  (decoding : bool) (beam : Z) (alpha : R) (return_probs : bool)
  : Run returned :=
  rbind (invoke (InvEncoder encoder_inputs)
           (Encoder.forward (encoder self) encoder_inputs))
  (fun encoding =>
  rbind (if (return_probs && decoding) || negb decoding
         then rbind (invoke (InvDecoder decoder_inputs encoding)
                       (Decoder.forward (decoder self) decoder_inputs encoding))
                    (fun o => rret (Some o))
         else rret None)
  (fun out =>
  if decoding then
    rbind (if (beam =? 1)%Z
           then invoke (InvGreedy encoding)
                  (Decoder.greedy (decoder self) encoding)
           else invoke (InvBeamSearch encoding beam alpha)
                  (Decoder.beam_search (decoder self) encoding beam alpha))
    (fun output =>
    if return_probs then
      match out with
      | Some o => rbind (probs self o) (fun pr => rret (DecodedProbs output o pr))
      | None => unbound
      end
    else rret (Decoded output))
  else if return_probs then
    match out with
    | Some o => rbind (probs self o) (fun pr => rret (OutProbs o pr))
    | None => unbound
    end
  else
    match out with
    | Some o => rret (Out o)
    | None => unbound
    end)).

End Transformer.

(** ** Statistics of a row, as the theorems state them *)

(** Mean and unbiased standard deviation of the row of [x] selected by the
    leading index [I], the last axis having extent [D]. *)
Definition row_mean (x : Tensor R) (D : nat) (I : list nat) : R :=
  (rsum D (fun j => data x (I ++ [j])) / INR D)%R.

Definition row_std (x : Tensor R) (D : nat) (I : list nat) : R :=
  sqrt (rsum D (fun j => Rsqr (data x (I ++ [j]) - row_mean x D I))
        / INR (D - 1))%R.

(** The same statistics for a sample [f 0, ..., f (D - 1)]. *)
Definition sample_mean (D : nat) (f : nat -> R) : R := (rsum D f / INR D)%R.

Definition sample_std (D : nat) (f : nat -> R) : R :=
  sqrt (rsum D (fun j => Rsqr (f j - sample_mean D f)) / INR (D - 1))%R.

(** A row of two equal entries, and a row with entries 0 and 1. *)
Definition ones2 : Tensor R := mkTensor [2] (fun _ => 1%R).
Definition ramp2 : Tensor R := mkTensor [2] (fun i => INR (nth 0 i 0)).

(** Row statistics of one entry: the value 1. *)
Definition ones1 : Tensor R := mkTensor [1] (fun _ => 1%R).

(** ** Concrete modules and inputs for the examples *)

Definition zeros (sz : list nat) : Tensor R := mkTensor sz (fun _ => 0%R).

(** A dropout module in evaluation mode. *)
Definition eval_dropout : Dropout.t :=
  {| Dropout.p := 0%R; Dropout.training := false; Dropout.keep := fun _ => true |}.

Definition linear0 (inf outf : nat) : Linear.t :=
  {| Linear.in_features := inf; Linear.out_features := outf;
     Linear.weight := zeros [outf; inf]; Linear.bias := zeros [outf] |}.

Definition feedforward_ex (d_model d_hidden : nat) : FeedForward.t :=
  {| FeedForward.linear1 := linear0 d_model d_hidden;
     FeedForward.linear2 := linear0 d_hidden d_model;
     FeedForward.dropout := eval_dropout |}.

Definition attention_ex (d_key : nat) (causal : bool) : Attention.t :=
  {| Attention.scale := sqrt (INR d_key); Attention.dropout := eval_dropout;
     Attention.causal := causal |}.

(** [MultiHead(Attention(d_key, 0), d_key, d_value, n_heads)] in
    evaluation mode, all weights 0. *)
Definition multihead_ex (d_key d_value n_heads : nat) : MultiHead.t :=
  {| MultiHead.attention := attention_ex d_key false;
     MultiHead.wq := linear0 d_key d_key;
     MultiHead.wk := linear0 d_key d_key;
     MultiHead.wv := linear0 d_value d_value;
     MultiHead.wo := linear0 d_value d_key;
     MultiHead.n_heads := n_heads |}.

(** A projection that returns the ramp [0, 1, ...] whatever its input,
    and a [MultiHead] that ends in it. *)
Definition linear_ramp (inf outf : nat) : Linear.t :=
  {| Linear.in_features := inf; Linear.out_features := outf;
     Linear.weight := zeros [outf; inf];
     Linear.bias := mkTensor [outf] (fun i => INR (nth 0 i 0)) |}.

Definition multihead_ramp (d_model n_heads : nat) : MultiHead.t :=
  {| MultiHead.attention := attention_ex d_model false;
     MultiHead.wq := linear0 d_model d_model;
     MultiHead.wk := linear0 d_model d_model;
     MultiHead.wv := linear0 d_model d_model;
     MultiHead.wo := linear_ramp d_model d_model;
     MultiHead.n_heads := n_heads |}.

Definition residual_ex {L} (layer : L) (d_model : nat) : ResidualBlock.t L :=
  {| ResidualBlock.layer := layer; ResidualBlock.dropout := eval_dropout;
     ResidualBlock.norm := LayerNorm.init d_model LayerNorm.default_eps |}.


(** The extents [MultiHead.__init__] gives to the four projections. *)
Definition built_as (m : MultiHead.t) (d_key d_value n_heads : nat) : Prop :=
  Linear.in_features (MultiHead.wq m) = d_key /\
  Linear.out_features (MultiHead.wq m) = d_key /\
  Linear.in_features (MultiHead.wk m) = d_key /\
  Linear.out_features (MultiHead.wk m) = d_key /\
  Linear.in_features (MultiHead.wv m) = d_value /\
  Linear.out_features (MultiHead.wv m) = d_value /\
  Linear.in_features (MultiHead.wo m) = d_value /\
  Linear.out_features (MultiHead.wo m) = d_key /\
  MultiHead.n_heads m = n_heads.


(** ** Attention, entry by entry *)

(** Dot product of query row [i] and key row [j] of batch entry [b],
    over a feature axis of extent [D]. *)
Definition dot (q k : Tensor R) (D b i j : nat) : R :=
  rsum D (fun c => data q [b; i; c] * data k [b; j; c])%R.

(** What [Dropout.forward] does to the entry at index [idx]. *)
Definition dropout_entry (d : Dropout.t) (idx : list nat) (v : R) : R :=
  if Dropout.training d then
    if Dropout.keep d idx then (v / (1 - Dropout.p d))%R else 0%R
  else v.

(** The attention weight of key position [j] for query position [i]:
    softmax over the key axis of extent [Tk], then dropout. *)
Definition attention_weight (att : Attention.t) (s : Tensor xreal)
  (Tk b i j : nat) : R :=
  dropout_entry (Attention.dropout att) [b; i; j]
    (xexp (data s [b; i; j]) / rsum Tk (fun j' => xexp (data s [b; i; j'])))%R.


(** A [1 x 2 x 2] tensor whose entries at position [t] of the middle axis
    are all [t]: it agrees with [zeros [1; 2; 2]] at position 0 only. *)
Definition ramp122 : Tensor R := mkTensor [1; 2; 2] (fun idx => INR (nth 1 idx 0)).


(** An initialiser that draws zeros and a dropout sampler that keeps
    everything. *)
Definition rng0 : Rng :=
  {| randn := fun _ _ => 0%R; bern := fun _ _ => true |}.


(** [MultiHead.forward] of [m] runs the attention module on per-head
    operands of width [d_model / n_heads]: every score that is not masked
    is the dot product over that width divided by [sqrt d_model]; the
    output of the attention module is the mean of the per-head values
    weighted by the softmax of these scores; and the result of
    [MultiHead.forward] is the projection [wo] of the head outputs put
    back side by side. *)
Definition per_head_scores_scaled_by_full_width
  (m : MultiHead.t) (d_model n_heads : nat) : Prop :=
  forall query key value B Tq Tk,
    size query = [B; Tq; d_model] -> size key = [B; Tk; d_model] ->
    size value = [B; Tk; d_model] ->
    exists qh kh vh s oh out,
      MultiHead.heads m query key value = Ok (qh, kh, vh) /\
      size qh = [B * n_heads; Tq; d_model / n_heads] /\
      size kh = [B * n_heads; Tk; d_model / n_heads] /\
      size vh = [B * n_heads; Tk; d_model / n_heads] /\
      Attention.scores (MultiHead.attention m) qh kh = Ok s /\
      (forall b i j, b < B * n_heads ->
         (Attention.causal (MultiHead.attention m) = true -> j <= i) ->
         data s [b; i; j]
         = Finite (dot qh kh (d_model / n_heads) b i j / sqrt (INR d_model))) /\
      Attention.forward (MultiHead.attention m) qh kh vh = Ok oh /\
      size oh = [B * n_heads; Tq; d_model / n_heads] /\
      (forall b i c, b < B * n_heads ->
         data oh [b; i; c]
         = rsum Tk (fun j => attention_weight (MultiHead.attention m) s Tk b i j
                             * data vh [b; j; c])%R) /\
      MultiHead.forward m query key value = Ok out /\
      size out = [B; Tq; d_model] /\
      forall b t o,
        data out [b; t; o]
        = (rsum d_model
             (fun c => data oh [(b * n_heads + c mod n_heads)%nat; t; (c / n_heads)%nat]
                       * data (Linear.weight (MultiHead.wo m)) [o; c])
           + data (Linear.bias (MultiHead.wo m)) [o])%R.

Definition args_ex : Args.t :=
  {| Args.d_model := 8; Args.d_hidden := 16; Args.n_heads := 2;
     Args.n_layers := 1; Args.drop_ratio := 0%R; Args.length_ratio := 2%R |}.


(** ** The stacks, layer by layer *)

(** The encoder layers [ls] applied one after the other. *)
Fixpoint through (ls : list EncoderLayer.t) (x : Tensor R) : result (Tensor R) :=
  match ls with
  | [] => Ok x
  | l :: ls' => y <- EncoderLayer.forward l x ;; through ls' y
  end.

(** The decoder state after the first [n] layers, layer [i] being given
    element [i] of the encoding. *)
Fixpoint paired_upto (ls : list DecoderLayer.t) (encoding : list (Tensor R))
  (x : Tensor R) (n : nat) : result (Tensor R) :=
  match n with
  | O => Ok x
  | S n' =>
      y <- paired_upto ls encoding x n' ;;
      match nth_error ls n', nth_error encoding n' with
      | Some l, Some e => DecoderLayer.forward l y e
      | _, _ => Raise IndexError
      end
  end.

Definition decoder_layer_ex (d_model d_hidden n_heads : nat) : DecoderLayer.t :=
  {| DecoderLayer.selfattn :=
       residual_ex
         {| MultiHead.attention := attention_ex d_model true;
            MultiHead.wq := linear0 d_model d_model;
            MultiHead.wk := linear0 d_model d_model;
            MultiHead.wv := linear0 d_model d_model;
            MultiHead.wo := linear0 d_model d_model;
            MultiHead.n_heads := n_heads |} d_model;
     DecoderLayer.attention :=
       residual_ex (multihead_ex d_model d_model n_heads) d_model;
     DecoderLayer.feedforward :=
       residual_ex (feedforward_ex d_model d_hidden) d_model |}.

(** A decoder with one layer, [d_model = 2] and a vocabulary of three
    tokens, in evaluation mode; its search routines are not used. *)
Definition decoder_ex : Decoder.t :=
  {| Decoder.out := linear0 2 3;
     Decoder.layers := [decoder_layer_ex 2 4 1];
     Decoder.dropout := eval_dropout;
     Decoder.d_model := 2;
     Decoder.length_ratio := 2%R;
     Decoder.greedy := fun _ => Raise RuntimeError;
     Decoder.beam_search := fun _ _ _ => Raise RuntimeError |}.

(** One sentence of one token, the token 0. *)
Definition tokens_ex : Tensor nat := mkTensor [1; 1] (fun _ => 0).


(** ** The search routine [Transformer.forward] delegates to *)

Definition search_invoked (beam : Z) (alpha : R) (encoding : list (Tensor R))
  : Transformer.invoked :=
  if (beam =? 1)%Z then Transformer.InvGreedy encoding
  else Transformer.InvBeamSearch encoding beam alpha.

Definition search_result (dec : Decoder.t) (beam : Z) (alpha : R)
  (encoding : list (Tensor R)) : result (Tensor nat) :=
  if (beam =? 1)%Z then Decoder.greedy dec encoding
  else Decoder.beam_search dec encoding beam alpha.


(** An encoder and a decoder without layers ([n_layers = 0]) over the
    same vocabulary, and the transformer made of them. *)
Definition encoder_ex : Encoder.t :=
  {| Encoder.out := linear0 2 3;
     Encoder.layers := [];
     Encoder.dropout := eval_dropout;
     Encoder.d_model := 2 |}.

Definition decoder0_ex : Decoder.t :=
  {| Decoder.out := linear0 2 3;
     Decoder.layers := [];
     Decoder.dropout := eval_dropout;
     Decoder.d_model := 2;
     Decoder.length_ratio := 2%R;
     Decoder.greedy := fun _ => Raise RuntimeError;
     Decoder.beam_search := fun _ _ _ => Raise RuntimeError |}.

Definition transformer_ex : Transformer.t :=
  {| Transformer.encoder := encoder_ex; Transformer.decoder := decoder0_ex |}.


(** ** Rows of rank-3 tensors, and the extents the constructors give *)

(** [x] and [x'], of size [[B; T; D]], have the same entries in every row
    (batch entry [b], position [t] along the middle axis) that satisfies
    [P]. *)
Definition agree_rows (P : nat -> nat -> Prop) (B T D : nat) (x x' : Tensor R) : Prop :=
  forall b t c, b < B -> t < T -> P b t -> c < D ->
    data x [b; t; c] = data x' [b; t; c].

(** The width [ResidualBlock.__init__] gives to the parameters of its
    norm. *)
Definition norm_width {L} (rb : ResidualBlock.t L) (d : nat) : Prop :=
  size (LayerNorm.gamma (ResidualBlock.norm rb)) = [d] /\
  size (LayerNorm.beta (ResidualBlock.norm rb)) = [d].

(** The extents [FeedForward.__init__] gives to its two layers. *)
Definition feedforward_built_as (f : FeedForward.t) (d_model d_hidden : nat) : Prop :=
  Linear.in_features (FeedForward.linear1 f) = d_model /\
  Linear.out_features (FeedForward.linear1 f) = d_hidden /\
  Linear.in_features (FeedForward.linear2 f) = d_hidden /\
  Linear.out_features (FeedForward.linear2 f) = d_model.

(** What [EncoderLayer.__init__] and [DecoderLayer.__init__] build from
    [d_model], [d_hidden] and [n_heads]. *)
Definition encoder_layer_built_as (l : EncoderLayer.t)
  (d_model d_hidden n_heads : nat) : Prop :=
  built_as (ResidualBlock.layer (EncoderLayer.selfattn l)) d_model d_model n_heads /\
  Attention.causal
    (MultiHead.attention (ResidualBlock.layer (EncoderLayer.selfattn l))) = false /\
  norm_width (EncoderLayer.selfattn l) d_model /\
  feedforward_built_as (ResidualBlock.layer (EncoderLayer.feedforward l))
    d_model d_hidden /\
  norm_width (EncoderLayer.feedforward l) d_model.

Definition decoder_layer_built_as (l : DecoderLayer.t)
  (d_model d_hidden n_heads : nat) : Prop :=
  built_as (ResidualBlock.layer (DecoderLayer.selfattn l)) d_model d_model n_heads /\
  Attention.causal
    (MultiHead.attention (ResidualBlock.layer (DecoderLayer.selfattn l))) = true /\
  norm_width (DecoderLayer.selfattn l) d_model /\
  built_as (ResidualBlock.layer (DecoderLayer.attention l)) d_model d_model n_heads /\
  Attention.causal
    (MultiHead.attention (ResidualBlock.layer (DecoderLayer.attention l))) = false /\
  norm_width (DecoderLayer.attention l) d_model /\
  feedforward_built_as (ResidualBlock.layer (DecoderLayer.feedforward l))
    d_model d_hidden /\
  norm_width (DecoderLayer.feedforward l) d_model.

(** ** The stacks *)

(** The entry that the input stage of [Encoder.forward] and
    [Decoder.forward] computes, before dropout, for the token [tok] at
    position [t], channel [c]: the row of the projection's weights scaled
    by [sqrt d_model], plus the positional encoding over the width [D]. *)
Definition embedded_entry (out : Linear.t) (d_model D tok t c : nat) : R :=
  (data (Linear.weight out) [tok; c] * sqrt (INR d_model)
   + (if c mod 2 =? 0 then sin else cos)
       (INR t / Rpower 10000 (INR (c / 2 * 2) / INR D)))%R.

(** A [B x T] tensor of tokens of a vocabulary of [V] words. *)
Definition tokens_in (x : Tensor nat) (B T V : nat) : Prop :=
  size x = [B; T] /\ forall b t, b < B -> t < T -> data x [b; t] < V.

(** Two token tensors whose sentence [b] is the same at the positions up
    to [i], and whose sentence [b] is the same throughout. *)
Definition same_prefix (i b T : nat) (x x' : Tensor nat) : Prop :=
  forall t, t < T -> t <= i -> data x [b; t] = data x' [b; t].

Definition same_sentence (b T : nat) (x x' : Tensor nat) : Prop :=
  forall t, t < T -> data x [b; t] = data x' [b; t].

(** A stack over a [V x D] projection whose layers are all built from
    [D], [h] and [N]. *)
Definition encoder_built_as (e : Encoder.t) (V D h N : nat) : Prop :=
  size (Linear.weight (Encoder.out e)) = [V; D] /\
  Forall (fun l => encoder_layer_built_as l D h N) (Encoder.layers e).

Definition decoder_built_as (d : Decoder.t) (V D h N : nat) : Prop :=
  size (Linear.weight (Decoder.out d)) = [V; D] /\
  Forall (fun l => decoder_layer_built_as l D h N) (Decoder.layers d).

(** A list of encodings of a batch of [B] sequences, of width [D]. *)
Definition encodings_of (B D : nat) (encoding : list (Tensor R)) : Prop :=
  Forall (fun e => exists Tk, size e = [B; Tk; D]) encoding.

(** An encoder layer in evaluation mode, all weights 0, and an encoder
    with this one layer over a vocabulary of three tokens. *)
Definition encoder_layer_ex (d_model d_hidden n_heads : nat) : EncoderLayer.t :=
  {| EncoderLayer.selfattn :=
       residual_ex (multihead_ex d_model d_model n_heads) d_model;
     EncoderLayer.feedforward :=
       residual_ex (feedforward_ex d_model d_hidden) d_model |}.

Definition encoder1_ex : Encoder.t :=
  {| Encoder.out := linear0 2 3;
     Encoder.layers := [encoder_layer_ex 2 4 1];
     Encoder.dropout := eval_dropout;
     Encoder.d_model := 2 |}.

(** Two sentences of two tokens with the same first token: [0 1] and
    [0 2]. *)
Definition tokens_01 : Tensor nat := mkTensor [1; 2] (fun idx => nth 1 idx 0).
Definition tokens_02 : Tensor nat := mkTensor [1; 2] (fun idx => 2 * nth 1 idx 0).

(** A sentence whose second token, 3, is outside a vocabulary of three
    tokens. *)
Definition tokens_03 : Tensor nat := mkTensor [1; 2] (fun idx => 3 * nth 1 idx 0).

(** Positions for a batch of four sequences of five steps, sequence [b]
    starting at position [b]. *)
Definition positions_ex : Tensor R :=
  mkTensor [4; 5] (fun idx => INR (nth 0 idx 0 + nth 1 idx 0)).

(** Two batches of two sentences of two tokens with the same first
    sentence [0 0]; the second sentence is [0 1] in one and [2 2] in the
    other. *)
Definition batch_a : Tensor nat :=
  mkTensor [2; 2] (fun idx => nth 0 idx 0 * nth 1 idx 0).
Definition batch_b : Tensor nat := mkTensor [2; 2] (fun idx => 2 * nth 0 idx 0).

(** The vector [ramp2] with 5 added to every entry. *)
Definition ramp2_up : Tensor R :=
  mkTensor [2] (fun i => (INR (nth 0 i 0%nat) + 5)%R).

(** ** [Transformer.__init__] *)

(** [for field in set((src, trg)): field.out = nn.Linear(args.d_model,
    len(field.vocab))], then the two stacks, each reading the projection
    of its field.  [shared] tells whether [src] and [trg] are the same
    field: the set then has one element and both stacks hold the same
    projection.  The order in which a set of two fields is visited is not
    fixed; [src_first] stands for it. *)
Definition Transformer_init (rng : Rng) (shared src_first : bool)
  (v_src v_trg : nat) (args : Args.t)
  (greedy : list (Tensor R) -> result (Tensor nat))
  (beam_search : list (Tensor R) -> Z -> R -> result (Tensor nat))
  : Init Transformer.t :=
  outs <~ (if shared then
             o <~ Linear.init rng (Args.d_model args) v_src ;; iret (o, o)
           else if src_first then
             s <~ Linear.init rng (Args.d_model args) v_src ;;
             t <~ Linear.init rng (Args.d_model args) v_trg ;; iret (s, t)
           else
             t <~ Linear.init rng (Args.d_model args) v_trg ;;
             s <~ Linear.init rng (Args.d_model args) v_src ;; iret (s, t)) ;;
  e <~ Encoder.init rng (fst outs) args ;;
  d <~ Decoder.init rng (snd outs) args greedy beam_search ;;
  iret {| Transformer.encoder := e; Transformer.decoder := d |}.


(** * Theorems *)

Unset Implicit Arguments.

(** ** Sums *)

Section Sums.
Local Open Scope R_scope.

Lemma rsum_ext (n : nat) (f g : nat -> R) :
  (forall j, (j < n)%nat -> f j = g j) -> rsum n f = rsum n g.
Proof.
  induction n as [|n IH]; intros H; simpl; [reflexivity|].
  rewrite IH by (intros; apply H; lia).
  rewrite H by lia. reflexivity.
Qed.

Lemma rsum_plus (n : nat) (f g : nat -> R) :
  rsum n (fun j => f j + g j) = rsum n f + rsum n g.
Proof. induction n as [|n IH]; simpl; [lra | rewrite IH; lra]. Qed.

Lemma rsum_scal (n : nat) (c : R) (f : nat -> R) :
  rsum n (fun j => f j * c) = rsum n f * c.
Proof. induction n as [|n IH]; simpl; [lra | rewrite IH; lra]. Qed.

Lemma rsum_const (n : nat) (c : R) : rsum n (fun _ => c) = INR n * c.
Proof.
  induction n as [|n IH]; [simpl; lra|].
  rewrite S_INR. simpl. rewrite IH. lra.
Qed.

Lemma rsum_nonneg (n : nat) (f : nat -> R) :
  (forall j, (j < n)%nat -> 0 <= f j) -> 0 <= rsum n f.
Proof.
  induction n as [|n IH]; intros H; simpl; [lra|].
  assert (0 <= rsum n f) by (apply IH; intros; apply H; lia).
  assert (0 <= f n) by (apply H; lia). lra.
Qed.

(** The first two moments of a sample that is shifted by [m] and divided
    by [c]. *)
Variable D : nat.
Variable f : nat -> R.
Variable eps : R.
Hypothesis Heps : 0 < eps.

Lemma sample_std_nonneg : 0 <= sample_std D f.
Proof. apply sqrt_pos. Qed.

Lemma rescaled_mean (m c : R) :
  (0 < D)%nat -> c <> 0 ->
  sample_mean D (fun j => (f j - m) / c) = (sample_mean D f - m) / c.
Proof.
  intros HD Hc. unfold sample_mean, Rdiv.
  rewrite (rsum_scal D (/ c) (fun j => f j - m)).
  replace (fun j => f j - m) with (fun j => f j + (- m)) by reflexivity.
  rewrite rsum_plus, rsum_const.
  assert (INR D <> 0) by (apply not_0_INR; lia).
  field. split; assumption.
Qed.

Lemma rescaled_std (m c : R) :
  (2 <= D)%nat -> 0 < c ->
  sample_std D (fun j => (f j - m) / c) = sample_std D f / c.
Proof.
  intros HD Hc.
  assert (HD1 : 0 < INR (D - 1)) by (apply lt_0_INR; lia).
  unfold sample_std at 1. rewrite rescaled_mean by (lia || lra).
  rewrite (rsum_ext D _ (fun j => Rsqr (f j - sample_mean D f) * / Rsqr c)).
  2:{ intros j _. unfold Rsqr. field. lra. }
  rewrite rsum_scal.
  set (V := rsum D (fun j => Rsqr (f j - sample_mean D f))).
  replace (V * / Rsqr c / INR (D - 1)) with ((V / INR (D - 1)) / Rsqr c).
  2:{ unfold Rsqr. field. split; lra. }
  rewrite sqrt_div_alt by (apply Rlt_0_sqr; lra).
  rewrite sqrt_Rsqr by lra. reflexivity.
Qed.

Lemma normalized_std_bounds :
  0 <= sample_std D f / (sample_std D f + eps) < 1 /\
  1 - sample_std D f / (sample_std D f + eps) = eps / (sample_std D f + eps).
Proof.
  pose proof sample_std_nonneg as Hs.
  set (s := sample_std D f) in *.
  assert (Hse : 0 < s + eps) by lra.
  repeat split.
  - apply Rmult_le_pos; [lra|]. left. apply Rinv_0_lt_compat. lra.
  - apply (Rmult_lt_reg_r (s + eps)); [lra|].
    unfold Rdiv. rewrite Rmult_assoc, Rinv_l by lra. lra.
  - field. lra.
Qed.

End Sums.

(** ** Sizes, indices and broadcasting *)

Lemma inb_length (idx sz : list nat) : inb idx sz -> length idx = length sz.
Proof. apply Forall2_length. Qed.

Lemma inb_app (I L : list nat) (j D : nat) :
  inb I L -> j < D -> inb (I ++ [j]) (L ++ [D]).
Proof.
  intros HI Hj. apply Forall2_app; [exact HI|]. constructor; [exact Hj|constructor].
Qed.

Lemma split_last_app (L : list nat) (D : nat) :
  split_last (L ++ [D]) = Some (L, D).
Proof. unfold split_last. rewrite rev_unit, rev_involutive. reflexivity. Qed.

Lemma last_extent_app (L : list nat) (D : nat) : last_extent (L ++ [D]) = D.
Proof. unfold last_extent. apply last_last. Qed.

Lemma keepdim_app (L : list nat) (D : nat) : keepdim (L ++ [D]) = L ++ [1].
Proof.
  unfold keepdim. rewrite removelast_last.
  destruct (L ++ [D]) eqn:E; [destruct L; discriminate|reflexivity].
Qed.

Lemma row_app {A} (x : Tensor A) (I : list nat) (k j : nat) :
  row x (I ++ [k]) j = data x (I ++ [j]).
Proof. unfold row. rewrite removelast_last. reflexivity. Qed.

Lemma broadcast_rev_refl (l : list nat) : broadcast_rev l l = Ok l.
Proof.
  induction l as [|x l IH]; [reflexivity|].
  simpl. rewrite IH. simpl. rewrite Nat.eqb_refl. reflexivity.
Qed.

Lemma broadcast_shapes_refl (l : list nat) : broadcast_shapes l l = Ok l.
Proof.
  unfold broadcast_shapes. rewrite broadcast_rev_refl. simpl.
  rewrite rev_involutive. reflexivity.
Qed.

Lemma broadcast_shapes_keepdim (L : list nat) (D : nat) :
  broadcast_shapes (L ++ [D]) (L ++ [1]) = Ok (L ++ [D]).
Proof.
  unfold broadcast_shapes. rewrite !rev_unit. simpl.
  rewrite broadcast_rev_refl. simpl.
  destruct (D =? 1) eqn:E; simpl; rewrite rev_involutive; reflexivity.
Qed.

Lemma combine_app_same {A B} (a c : list A) (b d : list B) :
  length a = length b ->
  combine (a ++ c) (b ++ d) = combine a b ++ combine c d.
Proof.
  revert b. induction a as [|x a IH]; intros [|y b] E; try discriminate.
  - reflexivity.
  - simpl. f_equal. apply IH. simpl in E. lia.
Qed.

Lemma clamp_inb (I L : list nat) :
  inb I L ->
  map (fun di => if fst di =? 1 then 0 else snd di) (combine L I) = I.
Proof.
  induction 1 as [|i d I L Hi _ IH]; [reflexivity|].
  simpl. rewrite IH. f_equal.
  destruct (Nat.eqb_spec d 1); lia.
Qed.

Lemma bindex_full (sz idx : list nat) : inb idx sz -> bindex sz idx = idx.
Proof.
  intros H. unfold bindex. rewrite (inb_length _ _ H), Nat.sub_diag. simpl.
  apply clamp_inb, H.
Qed.

Lemma bindex_keepdim (L I : list nat) (j : nat) :
  inb I L -> bindex (L ++ [1]) (I ++ [j]) = I ++ [0].
Proof.
  intros H. unfold bindex. pose proof (inb_length _ _ H) as E.
  rewrite !length_app, E, Nat.sub_diag. simpl.
  rewrite combine_app_same by (symmetry; exact E).
  rewrite map_app, (clamp_inb _ _ H). reflexivity.
Qed.

(** Reading a tensor of size [[D]] (a parameter vector) at an index of a
    tensor whose last extent is [D]. *)
Lemma bindex_vector (D : nat) (I : list nat) (j : nat) :
  j < D -> bindex [D] (I ++ [j]) = [j].
Proof.
  intros H. unfold bindex. rewrite length_app. simpl.
  replace (length I + 1 - 1) with (length I) by lia.
  rewrite skipn_app, skipn_all, Nat.sub_diag. simpl.
  destruct (Nat.eqb_spec D 1); [f_equal; lia|reflexivity].
Qed.


Lemma broadcast_shapes_vector_l (L : list nat) (D : nat) :
  broadcast_shapes [D] (L ++ [D]) = Ok (L ++ [D]).
Proof.
  unfold broadcast_shapes. rewrite rev_unit.
  rewrite <- (rev_involutive L) at 2.
  destruct (rev L); simpl; rewrite Nat.eqb_refl; reflexivity.
Qed.

Lemma broadcast_shapes_vector_r (L : list nat) (D : nat) :
  broadcast_shapes (L ++ [D]) [D] = Ok (L ++ [D]).
Proof.
  unfold broadcast_shapes. rewrite rev_unit.
  rewrite <- (rev_involutive L) at 2.
  destruct (rev L); simpl; rewrite Nat.eqb_refl; reflexivity.
Qed.

(** ** [LayerNorm] *)

Section LayerNormFacts.
Local Open Scope R_scope.

Variable x : Tensor R.
Variable L : list nat.
Variable D : nat.
Hypothesis Hsize : size x = L ++ [D].

Lemma mean_last_at (I : list nat) (k : nat) :
  data (mean_last x) (I ++ [k]) = row_mean x D I.
Proof.
  unfold mean_last, row_mean. simpl. rewrite Hsize, last_extent_app.
  f_equal. apply rsum_ext. intros j _. apply row_app.
Qed.

Lemma std_last_at (I : list nat) (k : nat) :
  data (std_last x) (I ++ [k]) = row_std x D I.
Proof.
  unfold std_last, row_std, row_mean. simpl. rewrite Hsize, last_extent_app.
  f_equal. f_equal.
  rewrite (rsum_ext D (row x (I ++ [k])) (fun j => data x (I ++ [j])))
    by (intros; apply row_app).
  apply rsum_ext. intros j _. rewrite row_app. reflexivity.
Qed.

Lemma mean_last_size : size (mean_last x) = L ++ [1%nat].
Proof. unfold mean_last. cbn [size]. rewrite Hsize. apply keepdim_app. Qed.

Lemma std_last_size : size (std_last x) = L ++ [1%nat].
Proof. unfold std_last. cbn [size]. rewrite Hsize. apply keepdim_app. Qed.

(** The return expression of [forward] on statistics of one entry per
    row, with parameter vectors of the width of the last axis: the row's
    statistics and the parameters are broadcast along the row. *)
Lemma LayerNorm_forward_from_at (ln : LayerNorm.t) (mean std : Tensor R) :
  size mean = L ++ [1%nat] -> size std = L ++ [1%nat] ->
  size (LayerNorm.gamma ln) = [D] -> size (LayerNorm.beta ln) = [D] ->
  exists y, LayerNorm.forward_from mean std ln x = Ok y /\ size y = L ++ [D] /\
    forall I j, inb I L -> (j < D)%nat ->
      data y (I ++ [j])
      = data (LayerNorm.gamma ln) [j]
        * (data x (I ++ [j]) - data mean (I ++ [0%nat]))
        / (data std (I ++ [0%nat]) + LayerNorm.eps ln)
        + data (LayerNorm.beta ln) [j].
Proof.
  intros Hm Hs Hg Hb.
  unfold LayerNorm.forward_from, sub, mul, div, add, map2. cbn [size tmap].
  rewrite Hsize, Hm, Hs, Hg, Hb, broadcast_shapes_keepdim. cbn [bind size].
  rewrite broadcast_shapes_vector_l. cbn [bind size].
  rewrite broadcast_shapes_keepdim. cbn [bind size].
  rewrite broadcast_shapes_vector_r. cbn [bind].
  eexists. split; [reflexivity|]. split; [reflexivity|].
  intros I j HI Hj. cbn [data tmap].
  rewrite !(bindex_full (L ++ [D]) (I ++ [j])) by (apply inb_app; assumption).
  rewrite (bindex_keepdim L I j HI), !(bindex_vector D I j Hj).
  reflexivity.
Qed.

End LayerNormFacts.

Section LayerNormMoments.
Local Open Scope R_scope.

(** [forward] itself, with the statistics it computes. *)
Lemma LayerNorm_forward_row (ln : LayerNorm.t) (x : Tensor R) (L : list nat) (D : nat) :
  size x = L ++ [D] ->
  size (LayerNorm.gamma ln) = [D] -> size (LayerNorm.beta ln) = [D] ->
  exists y, LayerNorm.forward ln x = Ok y /\ size y = L ++ [D] /\
    forall I j, inb I L -> (j < D)%nat ->
      data y (I ++ [j])
      = data (LayerNorm.gamma ln) [j]
        * ((data x (I ++ [j]) - row_mean x D I) / (row_std x D I + LayerNorm.eps ln))
        + data (LayerNorm.beta ln) [j].
Proof.
  intros Hx Hg Hb.
  destruct (LayerNorm_forward_from_at x L D Hx ln (mean_last x) (std_last x)
              (mean_last_size x L D Hx) (std_last_size x L D Hx) Hg Hb)
    as (y & Ey & Sy & Dy).
  exists y. split; [exact Ey|]. split; [exact Sy|].
  intros I j HI Hj. rewrite (Dy I j HI Hj).
  rewrite (mean_last_at x L D Hx), (std_last_at x L D Hx). unfold Rdiv. ring.
Qed.

(** A module as constructed (gain 1, shift 0) on statistics [mean] and
    [std]: the entries of a row, its mean and its standard deviation. *)
Lemma fresh_forward_from_moments (x mean std : Tensor R) (L : list nat) (D : nat)
  (eps : R) :
  size x = L ++ [D] -> size mean = L ++ [1%nat] -> size std = L ++ [1%nat] ->
  (2 <= D)%nat ->
  exists y, LayerNorm.forward_from mean std (LayerNorm.init D eps) x = Ok y /\
    size y = size x /\
    forall I, inb I L -> 0 < data std (I ++ [0%nat]) + eps ->
      (forall j, (j < D)%nat ->
         data y (I ++ [j])
         = (data x (I ++ [j]) - data mean (I ++ [0%nat]))
           / (data std (I ++ [0%nat]) + eps)) /\
      row_mean y D I
      = (row_mean x D I - data mean (I ++ [0%nat])) / (data std (I ++ [0%nat]) + eps) /\
      row_std y D I = row_std x D I / (data std (I ++ [0%nat]) + eps).
Proof.
  intros Hx Hm Hs HD.
  destruct (LayerNorm_forward_from_at x L D Hx (LayerNorm.init D eps) mean std
              Hm Hs eq_refl eq_refl) as (y & Ey & Sy & Dy).
  exists y. split; [exact Ey|]. split; [congruence|].
  intros I HI Hc.
  set (m := data mean (I ++ [0%nat])) in *.
  set (c := data std (I ++ [0%nat]) + eps) in *.
  pose (f := fun j => data x (I ++ [j])).
  assert (Hy : forall j, (j < D)%nat -> data y (I ++ [j]) = (f j - m) / c).
  { intros j Hj. rewrite (Dy I j HI Hj). cbn. fold m. unfold f, c, Rdiv. ring. }
  assert (Hmean : row_mean y D I = (row_mean x D I - m) / c).
  { unfold row_mean at 1.
    rewrite (rsum_ext D _ (fun j => (f j - m) / c)) by exact Hy.
    apply (rescaled_mean D f m c); [lia|lra]. }
  split; [exact Hy|]. split; [exact Hmean|].
  unfold row_std at 1.
  rewrite (rsum_ext D _
    (fun j => Rsqr ((f j - m) / c - sample_mean D (fun j => (f j - m) / c)))).
  - exact (rescaled_std D f m c HD Hc).
  - intros j Hj. rewrite (Hy j Hj). f_equal. f_equal.
    rewrite Hmean. symmetry. apply (rescaled_mean D f m c); [lia|lra].
Qed.

(** With the statistics [forward] computes in exact arithmetic. *)
Lemma fresh_forward_moments (x : Tensor R) (L : list nat) (D : nat) (eps : R) :
  size x = L ++ [D] -> (2 <= D)%nat -> 0 < eps ->
  exists y, LayerNorm.forward (LayerNorm.init D eps) x = Ok y /\ size y = size x /\
    forall I, inb I L ->
      (forall j, (j < D)%nat ->
         data y (I ++ [j])
         = (data x (I ++ [j]) - row_mean x D I) / (row_std x D I + eps)) /\
      row_mean y D I = 0 /\
      row_std y D I = row_std x D I / (row_std x D I + eps).
Proof.
  intros Hx HD Heps.
  destruct (fresh_forward_from_moments x (mean_last x) (std_last x) L D eps Hx
              (mean_last_size x L D Hx) (std_last_size x L D Hx) HD)
    as (y & Ey & Sy & Hy).
  exists y. split; [exact Ey|]. split; [exact Sy|].
  intros I HI.
  pose proof (sample_std_nonneg D (fun j => data x (I ++ [j]))) as Hs.
  change (sample_std D (fun j => data x (I ++ [j]))) with (row_std x D I) in Hs.
  specialize (Hy I HI).
  rewrite (mean_last_at x L D Hx), (std_last_at x L D Hx) in Hy.
  destruct (Hy ltac:(lra)) as (H1 & H2 & H3).
  split; [exact H1|]. split; [|exact H3].
  rewrite H2. unfold Rdiv. ring.
Qed.

End LayerNormMoments.

Section LayerNormClaims.
Local Open Scope R_scope.

(** C7 (amended): [LayerNorm.forward] evaluates
    [gamma * (x - mean) / (std + eps) + beta] on the two tensors that
    [x.mean(-1, keepdim=True)] and [x.std(-1, keepdim=True)] return.  For
    a module as constructed (gain 1, shift 0: the normalized part), an
    input whose last axis has extent [D >= 2] and statistics [m] and [s]
    of a row with [s + eps > 0], the row of the result is
    [(x - m) / (s + eps)]; its mean is [(mean_x - m) / (s + eps)] and its
    (unbiased) standard deviation is [std_x / (s + eps)], [mean_x] and
    [std_x] being the exact statistics of the input row.  So the mean is 0
    when [m] is the exact row mean, and when [s] is the exact standard
    deviation the result has standard deviation [s / (s + eps)]: a value
    in [[0, 1)] that falls short of 1 by [eps / (s + eps)] (and is 0 for
    a constant row). *)
Theorem layernorm_normalized_moments
  (x mean std : Tensor R) (L : list nat) (D : nat) (eps : R) :
  size x = L ++ [D] -> size mean = L ++ [1%nat] -> size std = L ++ [1%nat] ->
  (2 <= D)%nat ->
  LayerNorm.forward (LayerNorm.init D eps) x
  = LayerNorm.forward_from (mean_last x) (std_last x) (LayerNorm.init D eps) x /\
  size (mean_last x) = L ++ [1%nat] /\ size (std_last x) = L ++ [1%nat] /\
  exists y, LayerNorm.forward_from mean std (LayerNorm.init D eps) x = Ok y /\
    size y = size x /\
    forall I, inb I L ->
      let m := data mean (I ++ [0%nat]) in
      let s := data std (I ++ [0%nat]) in
      0 < s + eps ->
      (forall j, (j < D)%nat ->
         data y (I ++ [j]) = (data x (I ++ [j]) - m) / (s + eps)) /\
      row_mean y D I = (row_mean x D I - m) / (s + eps) /\
      row_std y D I = row_std x D I / (s + eps) /\
      (m = row_mean x D I -> row_mean y D I = 0) /\
      (s = row_std x D I -> 0 < eps ->
         row_std y D I = s / (s + eps) /\
         0 <= s / (s + eps) < 1 /\
         1 - s / (s + eps) = eps / (s + eps)).
Proof.
  intros Hx Hm Hs HD.
  split; [reflexivity|].
  split; [exact (mean_last_size x L D Hx)|].
  split; [exact (std_last_size x L D Hx)|].
  destruct (fresh_forward_from_moments x mean std L D eps Hx Hm Hs HD)
    as (y & Ey & Sy & Hy).
  exists y. split; [exact Ey|]. split; [exact Sy|].
  intros I HI m s Hc. subst m s.
  destruct (Hy I HI Hc) as (H1 & H2 & H3).
  split; [exact H1|]. split; [exact H2|]. split; [exact H3|].
  split.
  - intros E. rewrite H2, E. unfold Rdiv. ring.
  - intros E Heps. rewrite H3, E. split; [reflexivity|].
    exact (normalized_std_bounds D (fun j => data x (I ++ [j])) eps Heps).
Qed.

(** Statistics that are off, as rounded ones can be: for the row [[0; 1]]
    with [m = 0] (the exact mean is 1/2) and [s = 1], the result is
    [[0; 1/2]], of mean [1/4]. *)
Lemma layernorm_normalized_moments_witness :
  exists y, LayerNorm.forward_from (zeros [1%nat]) ones1 (LayerNorm.init 2 1) ramp2
            = Ok y /\
    size y = size ramp2 /\
    data y [0%nat] = 0 /\ data y [1%nat] = 1 / 2 /\ row_mean y 2 [] = 1 / 4.
Proof.
  destruct (layernorm_normalized_moments ramp2 (zeros [1%nat]) ones1 [] 2 1
              eq_refl eq_refl eq_refl (le_n 2))
    as (_ & _ & _ & y & Ey & Sy & Hy).
  exists y. split; [exact Ey|]. split; [exact Sy|].
  pose proof (Hy [] (Forall2_nil _)) as Hy0. cbv zeta in Hy0.
  destruct Hy0 as (H1 & H2 & _); [cbn; lra|].
  pose proof (H1 0%nat ltac:(lia)) as E0. pose proof (H1 1%nat ltac:(lia)) as E1.
  cbn [app] in E0, E1, H2.
  split; [|split].
  - rewrite E0. cbn. lra.
  - rewrite E1. cbn. lra.
  - rewrite H2. unfold row_mean. cbn. lra.
Defined.

(** C7, as stated, fails on a constant row: for [[1; 1]] a module as
    constructed returns [[0; 0]], whose variance is 0 and not within
    [eps] of 1. *)
Lemma layernorm_constant_row_variance :
  exists y,
    LayerNorm.forward (LayerNorm.init 2 LayerNorm.default_eps) ones2 = Ok y /\
    data y [0%nat] = 0 /\ data y [1%nat] = 0 /\
    data (std_last y) [0%nat] = 0 /\
    ~ Rabs (Rsqr (data (std_last y) [0%nat]) - 1) <= LayerNorm.default_eps.
Proof.
  assert (Heps : 0 < LayerNorm.default_eps) by (unfold LayerNorm.default_eps; lra).
  destruct (fresh_forward_moments ones2 [] 2 LayerNorm.default_eps eq_refl (le_n 2) Heps)
    as (y & Ey & Sy & Hy).
  exists y. split; [exact Ey|].
  assert (Sy' : size y = [] ++ [2%nat]) by exact Sy.
  destruct (Hy [] (Forall2_nil _)) as (H1 & _ & H3).
  assert (Hm : row_mean ones2 2 [] = 1).
  { unfold row_mean, ones2. simpl. field. }
  assert (Hs : row_std ones2 2 [] = 0).
  { unfold row_std. rewrite Hm. unfold ones2. simpl.
    replace ((0 + (1 - 1)² + (1 - 1)²) / 1) with 0 by (unfold Rsqr; field).
    apply sqrt_0. }
  assert (Hstd : data (std_last y) [0%nat] = 0).
  { change (data (std_last y) [0%nat]) with (data (std_last y) ([] ++ [0%nat])).
    rewrite (std_last_at y [] 2 Sy' [] 0), H3, Hs. unfold Rdiv. ring. }
  pose proof (H1 0%nat ltac:(lia)) as E0. pose proof (H1 1%nat ltac:(lia)) as E1.
  rewrite Hm in E0, E1. cbn [app] in E0, E1.
  split; [|split; [|split; [exact Hstd|]]].
  - rewrite E0. cbn. unfold Rdiv. ring.
  - rewrite E1. cbn. unfold Rdiv. ring.
  - rewrite Hstd. unfold Rsqr, LayerNorm.default_eps.
    replace (0 * 0 - 1) with (- (1)) by ring.
    rewrite Rabs_Ropp, Rabs_R1. lra.
Qed.

End LayerNormClaims.

(** ** Element-wise operations on operands of one size *)

Lemma map2_same_size {A B C} (f : A -> B -> C) (a : Tensor A) (b : Tensor B) :
  size a = size b ->
  exists s, map2 f a b = Ok s /\ size s = size a /\
    forall idx, inb idx (size a) -> data s idx = f (data a idx) (data b idx).
Proof.
  intros E. unfold map2. rewrite <- E, broadcast_shapes_refl. cbn [bind].
  eexists. split; [reflexivity|]. split; [reflexivity|].
  intros idx Hidx. cbn [data]. rewrite (bindex_full _ _ Hidx). reflexivity.
Qed.

Lemma Dropout_forward_size (d : Dropout.t) (x : Tensor R) :
  size (Dropout.forward d x) = size x.
Proof. unfold Dropout.forward. destruct (Dropout.training d); reflexivity. Qed.

(** ** [ResidualBlock] *)

(** In general the size of the block's output is the broadcast of the
    size of [x0] with the size of the normalized output of the layer. *)
Lemma residual_block_output_size {Lyr : Type} `{Module Lyr}
  (rb : ResidualBlock.t Lyr) (x0 : Tensor R) (rest : list (Tensor R))
  (out : Tensor R) :
  ResidualBlock.forward rb (x0 :: rest) = Ok out ->
  exists y n,
    call (ResidualBlock.layer rb) (x0 :: rest) = Ok y /\
    LayerNorm.forward (ResidualBlock.norm rb) y = Ok n /\
    broadcast_shapes (size x0) (size n) = Ok (size out).
Proof.
  unfold ResidualBlock.forward. intros Hout.
  destruct (call (ResidualBlock.layer rb) (x0 :: rest)) as [y|]; [|discriminate].
  cbn [bind] in Hout.
  destruct (LayerNorm.forward (ResidualBlock.norm rb) y) as [n|] eqn:En;
    [|discriminate].
  cbn [bind] in Hout. exists y, n. split; [reflexivity|]. split; [exact En|].
  unfold add, map2 in Hout. rewrite Dropout_forward_size in Hout.
  destruct (broadcast_shapes (size x0) (size n)) as [sz|]; [|discriminate].
  cbn [bind] in Hout. inversion Hout. reflexivity.
Qed.

Section ResidualBlockClaims.
Local Open Scope R_scope.

Context {Lyr : Type} `{Module Lyr}.

(** C6 (amended): without an argument [ResidualBlock.forward] raises an
    [IndexError].  For every non-empty argument tuple it raises what the
    wrapped layer [L], called on all the arguments, or the norm raises,
    and is otherwise [x0 + dropout(LayerNorm(L(x0, ..., xn)))] with the
    broadcasting sum: the size of the result is the broadcast of the size
    of [x0] and the size of the normalized output of [L] (an error when
    they do not fit), and every entry is the sum of the two broadcast
    entries.  When the normalized output of [L] has the size of [x0], so
    has the result, and its entry at every index is the entry of [x0]
    plus the entry of [dropout(LayerNorm(L(x0, ..., xn)))]. *)
Theorem residual_block_forward (rb : ResidualBlock.t Lyr) :
  ResidualBlock.forward rb [] = Raise IndexError /\
  forall (x0 : Tensor R) (rest : list (Tensor R)),
    (forall e, call (ResidualBlock.layer rb) (x0 :: rest) = Raise e ->
       ResidualBlock.forward rb (x0 :: rest) = Raise e) /\
    forall y, call (ResidualBlock.layer rb) (x0 :: rest) = Ok y ->
      (forall e, LayerNorm.forward (ResidualBlock.norm rb) y = Raise e ->
         ResidualBlock.forward rb (x0 :: rest) = Raise e) /\
      forall n, LayerNorm.forward (ResidualBlock.norm rb) y = Ok n ->
        ResidualBlock.forward rb (x0 :: rest)
        = add x0 (Dropout.forward (ResidualBlock.dropout rb) n) /\
        (forall e, broadcast_shapes (size x0) (size n) = Raise e ->
           ResidualBlock.forward rb (x0 :: rest) = Raise e) /\
        (forall sz, broadcast_shapes (size x0) (size n) = Ok sz ->
           exists out, ResidualBlock.forward rb (x0 :: rest) = Ok out /\
             size out = sz /\
             forall idx,
               data out idx
               = data x0 (bindex (size x0) idx)
                 + data (Dropout.forward (ResidualBlock.dropout rb) n)
                     (bindex (size n) idx)) /\
        (size n = size x0 ->
           exists out, ResidualBlock.forward rb (x0 :: rest) = Ok out /\
             size out = size x0 /\
             forall idx, inb idx (size x0) ->
               data out idx
               = data x0 idx
                 + data (Dropout.forward (ResidualBlock.dropout rb) n) idx).
Proof.
  split; [reflexivity|].
  intros x0 rest. split.
  { intros e He. unfold ResidualBlock.forward. rewrite He. reflexivity. }
  intros y Hy. split.
  { intros e He. unfold ResidualBlock.forward. rewrite Hy. cbn [bind].
    rewrite He. reflexivity. }
  intros n Hn.
  set (r := Dropout.forward (ResidualBlock.dropout rb) n).
  assert (Hfw : ResidualBlock.forward rb (x0 :: rest) = add x0 r).
  { unfold ResidualBlock.forward. rewrite Hy. cbn [bind]. rewrite Hn. reflexivity. }
  assert (Hr : size r = size n) by apply Dropout_forward_size.
  split; [exact Hfw|]. split; [|split].
  - intros e He. rewrite Hfw. unfold add, map2. rewrite Hr, He. reflexivity.
  - intros sz Hsz. rewrite Hfw. unfold add, map2. rewrite Hr, Hsz. cbn [bind].
    eexists. split; [reflexivity|]. split; [reflexivity|].
    intros idx. reflexivity.
  - intros Hsame.
    assert (Hd : size x0 = size r) by congruence.
    destruct (map2_same_size Rplus x0 r Hd) as (out & Hout & Hosz & Hodata).
    exists out. rewrite Hfw. split; [exact Hout|]. split; [exact Hosz|].
    exact Hodata.
Qed.

End ResidualBlockClaims.

(** C6, as stated, fails on its last part: torch's [+] broadcasts, so a
    wrapped layer whose output is larger than [x0] enlarges the result.
    With one head, a query of batch size 1 and keys and values of batch
    size 2, the block's output has size [[2; 1; 2]] while [x0] has size
    [[1; 1; 2]]. *)
Lemma residual_block_output_size_differs :
  exists out,
    ResidualBlock.forward (residual_ex (multihead_ex 2 2 1) 2)
      [zeros [1; 1; 2]; zeros [2; 1; 2]; zeros [2; 1; 2]] = Ok out /\
    size out = [2; 1; 2] /\
    size out <> size (zeros [1; 1; 2]).
Proof.
  eexists. split; [vm_compute; reflexivity|].
  split; [vm_compute; reflexivity|]. vm_compute. discriminate.
Qed.

(** ** Sizes through [MultiHead.forward] *)

Lemma Linear_forward_size (l : Linear.t) (x : Tensor R) (L : list nat) (D : nat) :
  size x = L ++ [D] -> Linear.in_features l = D ->
  exists y, Linear.forward l x = Ok y /\ size y = L ++ [Linear.out_features l].
Proof.
  intros Hx Hin. unfold Linear.forward.
  rewrite Hx, split_last_app, Hin, Nat.eqb_refl.
  eexists. split; reflexivity.
Qed.

Lemma split_guard_ok (s n : nat) :
  0 < n -> Nat.divide n s -> (n =? 0) || negb (s mod n =? 0) = false.
Proof.
  intros Hn [q ->].
  destruct (Nat.eqb_spec n 0); [lia|].
  rewrite Nat.Div0.mod_mul. reflexivity.
Qed.

Lemma split_guard_fail (s n : nat) :
  ~ Nat.divide n s -> (n =? 0) || negb (s mod n =? 0) = true.
Proof.
  intros Hnd. destruct (Nat.eqb_spec n 0); [reflexivity|]. simpl.
  destruct (Nat.eqb_spec (s mod n) 0) as [E|]; [|reflexivity].
  exfalso. apply Hnd. apply Nat.Lcm0.mod_divide. exact E.
Qed.

(** Evaluating dimension arguments once the rank is known. *)
Ltac norm_dims :=
  cbn [dim size length];
  repeat match goal with
  | |- context [norm_dim ?r ?d] =>
      let v := eval vm_compute in (norm_dim r d) in
      change (norm_dim r d) with v
  end;
  cbn [bind].

Ltac shape_step := cbn -[Nat.div Nat.modulo Nat.mul rsum norm_dim].

Lemma fold_heads_size (N : nat) (x : Tensor R) (B T D : nat) :
  size x = [B; T; D] -> 0 < N -> Nat.divide N D ->
  exists y, MultiHead.fold_heads N x = Ok y /\ size y = [B * N; T; D / N].
Proof.
  intros Hx HN Hdiv. destruct x as [sz dat]. simpl in Hx. subst sz.
  unfold MultiHead.fold_heads, split_dim. norm_dims. shape_step.
  rewrite (split_guard_ok D N HN Hdiv). shape_step.
  unfold combine_dims. norm_dims. shape_step.
  eexists. split; reflexivity.
Qed.

Lemma fold_heads_fail (N : nat) (x : Tensor R) (L : list nat) (D : nat) :
  size x = L ++ [D] -> ~ Nat.divide N D ->
  MultiHead.fold_heads N x = Raise RuntimeError.
Proof.
  intros Hx Hnd. unfold MultiHead.fold_heads, split_dim, norm_dim, dim.
  rewrite Hx, length_app. cbn [length].
  replace ((-1 <? 0)%Z) with true by reflexivity.
  replace ((0 <=? -1 + Z.of_nat (length L + 1))%Z) with true by (symmetry; apply Z.leb_le; lia).
  replace ((-1 + Z.of_nat (length L + 1) <? Z.of_nat (length L + 1))%Z) with true
    by (symmetry; apply Z.ltb_lt; lia).
  cbn [andb bind].
  replace (Z.to_nat (-1 + Z.of_nat (length L + 1))) with (length L) by lia.
  rewrite nth_middle, (split_guard_fail D N Hnd). reflexivity.
Qed.

Lemma unfold_heads_size (N : nat) (x : Tensor R) (B T Dh : nat) :
  size x = [B * N; T; Dh] -> 0 < N ->
  exists s y, split_dim 0 N x = Ok s /\ combine_dims (-1) 1 s = Ok y /\
    size y = [B; T; Dh * N].
Proof.
  intros Hx HN. destruct x as [sz dat]. simpl in Hx. subst sz.
  unfold split_dim. norm_dims. shape_step.
  rewrite (split_guard_ok (B * N) N HN) by (exists B; reflexivity).
  eexists. eexists. split; [reflexivity|].
  unfold combine_dims. norm_dims. shape_step.
  split; [reflexivity|]. rewrite Nat.div_mul by lia. reflexivity.
Qed.

(** ** The two reshapes of [MultiHead.forward], entry by entry *)

Lemma fold_heads_at (N : nat) (x : Tensor R) (B T D : nat) :
  size x = [B; T; D] -> 0 < N -> Nat.divide N D ->
  exists y, MultiHead.fold_heads N x = Ok y /\ size y = [B * N; T; D / N] /\
    forall b t c, data y [b; t; c] = data x [b / N; t; c * N + b mod N].
Proof.
  intros Hx HN Hdiv. destruct x as [sz dat]. simpl in Hx. subst sz.
  unfold MultiHead.fold_heads, split_dim. norm_dims. shape_step.
  rewrite (split_guard_ok D N HN Hdiv). shape_step.
  unfold combine_dims. norm_dims. shape_step.
  eexists. split; [reflexivity|]. split; reflexivity.
Qed.

Lemma unfold_heads_at (N : nat) (x : Tensor R) (B T Dh : nat) :
  size x = [B * N; T; Dh] -> 0 < N ->
  exists s y, split_dim 0 N x = Ok s /\ combine_dims (-1) 1 s = Ok y /\
    size y = [B; T; Dh * N] /\
    forall b t c, data y [b; t; c] = data x [b * N + c mod N; t; c / N].
Proof.
  intros Hx HN. destruct x as [sz dat]. simpl in Hx. subst sz.
  unfold split_dim. norm_dims. shape_step.
  rewrite (split_guard_ok (B * N) N HN) by (exists B; reflexivity).
  eexists. eexists. split; [reflexivity|].
  unfold combine_dims. norm_dims. shape_step.
  split; [reflexivity|]. split; [rewrite Nat.div_mul by lia; reflexivity|].
  intros b t c. reflexivity.
Qed.

(** Folding the heads into the batch axis and unfolding them again gives
    back the tensor: the two reshapes agree on which entry belongs to
    which head. *)
Lemma fold_unfold_heads (N : nat) (x : Tensor R) (B T D : nat) :
  size x = [B; T; D] -> 0 < N -> Nat.divide N D ->
  exists y s u,
    MultiHead.fold_heads N x = Ok y /\
    split_dim 0 N y = Ok s /\ combine_dims (-1) 1 s = Ok u /\
    size u = [B; T; D] /\
    forall b t c, data u [b; t; c] = data x [b; t; c].
Proof.
  intros Hx HN Hdiv.
  destruct (fold_heads_at N x B T D Hx HN Hdiv) as (y & Ey & Sy & Dy).
  destruct (unfold_heads_at N y B T (D / N) Sy HN) as (s & u & Es & Eu & Su & Du).
  exists y, s, u. repeat (split; [assumption|]). split.
  - rewrite Su. destruct Hdiv as [z ->]. rewrite Nat.div_mul by lia. reflexivity.
  - intros b t c. rewrite Du, Dy. f_equal.
    assert (HN0 : N <> 0) by lia.
    pose proof (Nat.div_mod_eq c N) as Hc.
    pose proof (Nat.mod_upper_bound c N HN0) as Hm.
    assert (H1 : (b * N + c mod N) / N = b).
    { rewrite Nat.add_comm, Nat.div_add by exact HN0.
      rewrite (Nat.div_small _ _ Hm). reflexivity. }
    assert (H2 : (b * N + c mod N) mod N = c mod N).
    { rewrite Nat.add_comm, Nat.Div0.mod_add. apply Nat.mod_small, Hm. }
    rewrite H1, H2, (Nat.mul_comm (c / N) N), <- Hc. reflexivity.
Qed.

(** ** Rank-3 operands: transposition, matrix product, softmax *)

Lemma clamp_lt (B b : nat) : b < B -> (if B =? 1 then 0 else b) = b.
Proof. intros H. destruct (Nat.eqb_spec B 1); lia. Qed.

Lemma transpose12_spec {A} (k : Tensor A) (B T D : nat) :
  size k = [B; T; D] ->
  exists kt, transpose 1 2 k = Ok kt /\ size kt = [B; D; T] /\
    forall b c j, data kt [b; c; j] = data k [b; j; c].
Proof.
  intros Hk. destruct k as [sk dk]. simpl in Hk. subst sk.
  unfold transpose. norm_dims.
  eexists. split; [reflexivity|]. split; reflexivity.
Qed.

Lemma matmul3_spec (a b : Tensor R) (B n m p : nat) :
  size a = [B; n; m] -> size b = [B; m; p] ->
  exists r, matmul a b = Ok r /\ size r = [B; n; p] /\
    forall i j k, i < B ->
      data r [i; j; k]
      = rsum m (fun c => data a [i; j; c] * data b [i; c; k])%R.
Proof.
  intros Ha Hb. destruct a as [sa da], b as [sb db]. simpl in Ha, Hb. subst.
  unfold matmul, bmm. shape_step. rewrite !Nat.eqb_refl. shape_step.
  eexists. split; [reflexivity|]. split; [reflexivity|].
  intros i j k Hi. shape_step. rewrite (clamp_lt B i Hi). reflexivity.
Qed.

Lemma softmax_spec (x : Tensor xreal) (L : list nat) (D : nat) :
  size x = L ++ [D] ->
  size (softmax x) = L ++ [D] /\
  forall I j,
    data (softmax x) (I ++ [j])
    = (xexp (data x (I ++ [j])) / rsum D (fun j' => xexp (data x (I ++ [j']))))%R.
Proof.
  intros Hx. split; [exact Hx|].
  intros I j. unfold softmax. cbn [data]. rewrite Hx, last_extent_app.
  f_equal. apply rsum_ext. intros j' _. rewrite row_app. reflexivity.
Qed.

(** ** [Attention] *)

Lemma Dropout_forward_at (d : Dropout.t) (x : Tensor R) (idx : list nat) :
  data (Dropout.forward d x) idx = dropout_entry d idx (data x idx).
Proof.
  unfold Dropout.forward, dropout_entry.
  destruct (Dropout.training d); reflexivity.
Qed.

Lemma dropout_entry_0 (d : Dropout.t) (idx : list nat) :
  dropout_entry d idx 0%R = 0%R.
Proof.
  unfold dropout_entry.
  destruct (Dropout.training d), (Dropout.keep d idx); try reflexivity.
  unfold Rdiv. apply Rmult_0_l.
Qed.

Lemma causal_mask_spec (x : Tensor R) (B Tq Tk : nat) :
  size x = [B; Tq; Tk] ->
  exists y, causal_mask x 2 1 = Ok y /\ size y = [B; Tq; Tk] /\
    forall b i j,
      data y [b; i; j] = if i <? j then NegInf else Finite (data x [b; i; j]).
Proof.
  intros Hx. destruct x as [sx dx]. simpl in Hx. subst sx.
  unfold causal_mask. norm_dims.
  eexists. split; [reflexivity|]. split; reflexivity.
Qed.

Lemma Attention_scores_spec (att : Attention.t) (q k : Tensor R)
  (B Tq Tk D : nat) :
  size q = [B; Tq; D] -> size k = [B; Tk; D] ->
  exists s, Attention.scores att q k = Ok s /\ size s = [B; Tq; Tk] /\
    forall b i j, b < B ->
      data s [b; i; j]
      = if Attention.causal att && (i <? j) then NegInf
        else Finite (dot q k D b i j / Attention.scale att).
Proof.
  intros Hq Hk.
  destruct (transpose12_spec k B Tk D Hk) as (kt & Hkt & Hktsz & Hktd).
  destruct (matmul3_spec q kt B Tq D Tk Hq Hktsz) as (dp & Hdp & Hdpsz & Hdpd).
  unfold Attention.scores. rewrite Hkt. cbn [bind]. rewrite Hdp. cbn [bind].
  unfold dim. rewrite Hq. cbn [length Nat.eqb]. rewrite andb_true_r.
  destruct (Attention.causal att) eqn:Hc.
  - destruct (causal_mask_spec dp B Tq Tk Hdpsz) as (y & Hy & Hysz & Hyd).
    rewrite Hy. cbn [bind].
    eexists. split; [reflexivity|]. split; [exact Hysz|].
    intros b i j Hb. cbn [data tmap andb]. rewrite Hyd.
    destruct (i <? j); [reflexivity|].
    cbn [xdiv]. rewrite (Hdpd b i j Hb). unfold dot.
    do 2 f_equal. apply rsum_ext. intros c _. rewrite Hktd. reflexivity.
  - cbn [bind].
    eexists. split; [reflexivity|]. split; [exact Hdpsz|].
    intros b i j Hb. cbn [data tmap andb xdiv]. rewrite (Hdpd b i j Hb). unfold dot.
    do 2 f_equal. apply rsum_ext. intros c _. rewrite Hktd. reflexivity.
Qed.

Lemma Attention_forward_spec (att : Attention.t) (q k v : Tensor R)
  (B Tq Tk D Dv : nat) :
  size q = [B; Tq; D] -> size k = [B; Tk; D] -> size v = [B; Tk; Dv] ->
  exists s o, Attention.scores att q k = Ok s /\
    Attention.forward att q k v = Ok o /\ size o = [B; Tq; Dv] /\
    forall b i c, b < B ->
      data o [b; i; c]
      = rsum Tk (fun j => attention_weight att s Tk b i j * data v [b; j; c])%R.
Proof.
  intros Hq Hk Hv.
  destruct (Attention_scores_spec att q k B Tq Tk D Hq Hk) as (s & Hs & Hssz & _).
  destruct (softmax_spec s [B; Tq] Tk Hssz) as [Hwsz Hwd].
  set (w := Dropout.forward (Attention.dropout att) (softmax s)).
  assert (Hw : size w = [B; Tq; Tk]).
  { unfold w. rewrite Dropout_forward_size. exact Hwsz. }
  destruct (matmul3_spec w v B Tq Tk Dv Hw Hv) as (o & Ho & Hosz & Hod).
  exists s, o. split; [exact Hs|].
  split; [unfold Attention.forward; rewrite Hs; exact Ho|].
  split; [exact Hosz|].
  intros b i c Hb. rewrite (Hod b i c Hb).
  apply rsum_ext. intros j _. f_equal.
  unfold w, attention_weight. rewrite Dropout_forward_at. f_equal.
  exact (Hwd [b; i] j).
Qed.

Lemma Attention_forward_size (att : Attention.t) (q k v : Tensor R)
  (B Tq Tk D Dv : nat) :
  size q = [B; Tq; D] -> size k = [B; Tk; D] -> size v = [B; Tk; Dv] ->
  exists o, Attention.forward att q k v = Ok o /\ size o = [B; Tq; Dv].
Proof.
  intros Hq Hk Hv.
  destruct (Attention_forward_spec att q k v B Tq Tk D Dv Hq Hk Hv)
    as (s & o & _ & Ho & Hosz & _).
  exists o. split; assumption.
Qed.

Section CausalAttention.
Local Open Scope R_scope.

Variable att : Attention.t.
Hypothesis Hcausal : Attention.causal att = true.

Variables q k1 k2 v1 v2 : Tensor R.
Variables B Tq Tk D Dv : nat.
Hypothesis Hq : size q = [B; Tq; D].
Hypothesis Hk1 : size k1 = [B; Tk; D].
Hypothesis Hk2 : size k2 = [B; Tk; D].

Variable i : nat.
Hypothesis Hkeys : forall b j c, (b < B)%nat -> (j < Tk)%nat -> (j <= i)%nat ->
  (c < D)%nat -> data k1 [b; j; c] = data k2 [b; j; c].

Variables s1 s2 : Tensor xreal.
Hypothesis Hs1 : Attention.scores att q k1 = Ok s1.
Hypothesis Hs2 : Attention.scores att q k2 = Ok s2.

(** Row [i] of the scores does not see the keys after position [i]. *)
Lemma causal_scores_row (b j : nat) :
  (b < B)%nat -> (j < Tk)%nat -> data s1 [b; i; j] = data s2 [b; i; j].
Proof.
  intros Hb Hj.
  destruct (Attention_scores_spec att q k1 B Tq Tk D Hq Hk1) as (s1' & E1 & _ & Hd1).
  destruct (Attention_scores_spec att q k2 B Tq Tk D Hq Hk2) as (s2' & E2 & _ & Hd2).
  assert (s1' = s1) by congruence. assert (s2' = s2) by congruence. subst s1' s2'.
  rewrite (Hd1 b i j Hb), (Hd2 b i j Hb), Hcausal. cbn [andb].
  destruct (Nat.ltb_spec i j) as [Hlt|Hge]; [reflexivity|].
  do 2 f_equal. unfold dot. apply rsum_ext. intros c Hc.
  rewrite (Hkeys b j c Hb Hj Hge Hc). reflexivity.
Qed.

Lemma causal_scores_masked (b j : nat) :
  (b < B)%nat -> (i < j)%nat -> data s1 [b; i; j] = NegInf.
Proof.
  intros Hb Hj.
  destruct (Attention_scores_spec att q k1 B Tq Tk D Hq Hk1) as (s1' & E1 & _ & Hd1).
  assert (s1' = s1) by congruence. subst s1'.
  rewrite (Hd1 b i j Hb), Hcausal. cbn [andb].
  destruct (Nat.ltb_spec i j); [reflexivity|lia].
Qed.

Lemma causal_weight_row (b j : nat) :
  (b < B)%nat -> (j < Tk)%nat ->
  attention_weight att s1 Tk b i j = attention_weight att s2 Tk b i j.
Proof.
  intros Hb Hj. unfold attention_weight.
  rewrite (causal_scores_row b j Hb Hj).
  do 2 f_equal. apply rsum_ext. intros j' Hj'.
  rewrite (causal_scores_row b j' Hb Hj'). reflexivity.
Qed.

Lemma causal_weight_masked (b j : nat) :
  (b < B)%nat -> (i < j)%nat -> attention_weight att s1 Tk b i j = 0.
Proof.
  intros Hb Hj. unfold attention_weight.
  rewrite (causal_scores_masked b j Hb Hj). cbn [xexp].
  unfold Rdiv. rewrite Rmult_0_l. apply dropout_entry_0.
Qed.

End CausalAttention.

(** C1: with [causal=True] and rank-3 operands, row [i] of the output of
    [Attention.forward] does not depend on the keys and values at
    positions after [i]: two runs on the same query (and the same dropout
    sample) whose keys and values agree at positions [<= i] return the
    same output row [i]. *)
Theorem causal_attention_ignores_future
  (att : Attention.t) (q k1 v1 k2 v2 : Tensor R) (B Tq Tk D Dv i : nat) :
  Attention.causal att = true ->
  size q = [B; Tq; D] ->
  size k1 = [B; Tk; D] -> size k2 = [B; Tk; D] ->
  size v1 = [B; Tk; Dv] -> size v2 = [B; Tk; Dv] ->
  (forall b j c, b < B -> j < Tk -> j <= i -> c < D ->
     data k1 [b; j; c] = data k2 [b; j; c]) ->
  (forall b j c, b < B -> j < Tk -> j <= i -> c < Dv ->
     data v1 [b; j; c] = data v2 [b; j; c]) ->
  exists o1 o2,
    Attention.forward att q k1 v1 = Ok o1 /\
    Attention.forward att q k2 v2 = Ok o2 /\
    size o1 = [B; Tq; Dv] /\ size o2 = [B; Tq; Dv] /\
    forall b c, b < B -> c < Dv -> data o1 [b; i; c] = data o2 [b; i; c].
Proof.
  intros Hc Hq Hk1 Hk2 Hv1 Hv2 Hkeys Hvals.
  destruct (Attention_forward_spec att q k1 v1 B Tq Tk D Dv Hq Hk1 Hv1)
    as (s1 & o1 & Hs1 & Ho1 & Hsz1 & Hd1).
  destruct (Attention_forward_spec att q k2 v2 B Tq Tk D Dv Hq Hk2 Hv2)
    as (s2 & o2 & Hs2 & Ho2 & Hsz2 & Hd2).
  exists o1, o2. repeat (split; [assumption|]).
  intros b c Hb Hcv. rewrite (Hd1 b i c Hb), (Hd2 b i c Hb).
  apply rsum_ext. intros j Hj.
  destruct (Nat.le_gt_cases j i) as [Hle|Hgt].
  - rewrite (causal_weight_row att Hc q k1 k2 B Tq Tk D Hq Hk1 Hk2 i Hkeys
               s1 s2 Hs1 Hs2 b j Hb Hj).
    rewrite (Hvals b j c Hb Hj Hle Hcv). reflexivity.
  - rewrite (causal_weight_masked att Hc q k1 B Tq Tk D Hq Hk1 i s1 Hs1 b j Hb Hgt).
    rewrite (causal_weight_masked att Hc q k2 B Tq Tk D Hq Hk2 i s2 Hs2 b j Hb Hgt).
    rewrite !Rmult_0_l. reflexivity.
Qed.

Lemma causal_attention_ignores_future_witness :
  let att := attention_ex 2 true in
  let q := zeros [1; 2; 2] in
  (Attention.causal att = true /\
   (forall b j c, b < 1 -> j < 2 -> j <= 0 -> c < 2 ->
      data (zeros [1; 2; 2]) [b; j; c] = data ramp122 [b; j; c])) /\
  exists o1 o2,
    Attention.forward att q (zeros [1; 2; 2]) (zeros [1; 2; 2]) = Ok o1 /\
    Attention.forward att q ramp122 ramp122 = Ok o2 /\
    size o1 = [1; 2; 2] /\ size o2 = [1; 2; 2] /\
    forall b c, b < 1 -> c < 2 -> data o1 [b; 0; c] = data o2 [b; 0; c].
Proof.
  intros att q.
  assert (Hagree : forall b j c, b < 1 -> j < 2 -> j <= 0 -> c < 2 ->
            data (zeros [1; 2; 2]) [b; j; c] = data ramp122 [b; j; c]).
  { intros b j c _ _ Hj _. assert (j = 0) by lia. subst j. reflexivity. }
  split; [split; [reflexivity|exact Hagree]|].
  apply (causal_attention_ignores_future att q (zeros [1; 2; 2]) (zeros [1; 2; 2])
           ramp122 ramp122 1 2 2 2 2 0);
    try reflexivity; exact Hagree.
Defined.

(** ** [MultiHead] *)

Lemma MultiHead_init_ok (rng : Rng) (att : Attention.t)
  (d_key d_value n_heads k : nat) :
  exists m, MultiHead.init rng att d_key d_value n_heads k = Ok (m, k + 8) /\
    MultiHead.attention m = att /\ built_as m d_key d_value n_heads.
Proof.
  eexists. split.
  - unfold MultiHead.init, Linear.init, fresh_tensor, ibind, iret.
    replace (k + 8) with (S (S (S (S (S (S (S (S k)))))))) by lia.
    reflexivity.
  - split; [reflexivity|]. repeat split.
Qed.

Lemma MultiHead_heads_spec (m : MultiHead.t) (query key value : Tensor R)
  (B Tq Tk d_key d_value N : nat) :
  built_as m d_key d_value N -> 0 < N ->
  Nat.divide N d_key -> Nat.divide N d_value ->
  size query = [B; Tq; d_key] -> size key = [B; Tk; d_key] ->
  size value = [B; Tk; d_value] ->
  exists qh kh vh, MultiHead.heads m query key value = Ok (qh, kh, vh) /\
    size qh = [B * N; Tq; d_key / N] /\
    size kh = [B * N; Tk; d_key / N] /\
    size vh = [B * N; Tk; d_value / N].
Proof.
  intros (Hqi & Hqo & Hki & Hko & Hvi & Hvo & _ & _ & Hn) HN Hdk Hdv Hq Hk Hv.
  destruct (Linear_forward_size (MultiHead.wq m) query [B; Tq] d_key Hq Hqi)
    as (q1 & Eq1 & Sq1).
  destruct (Linear_forward_size (MultiHead.wk m) key [B; Tk] d_key Hk Hki)
    as (k1 & Ek1 & Sk1).
  destruct (Linear_forward_size (MultiHead.wv m) value [B; Tk] d_value Hv Hvi)
    as (v1 & Ev1 & Sv1).
  rewrite Hqo in Sq1. rewrite Hko in Sk1. rewrite Hvo in Sv1.
  destruct (fold_heads_size N q1 B Tq d_key Sq1 HN Hdk) as (qh & Eqh & Sqh).
  destruct (fold_heads_size N k1 B Tk d_key Sk1 HN Hdk) as (kh & Ekh & Skh).
  destruct (fold_heads_size N v1 B Tk d_value Sv1 HN Hdv) as (vh & Evh & Svh).
  exists qh, kh, vh. split; [|repeat split; assumption].
  unfold MultiHead.heads. rewrite Eq1, Ek1, Ev1. cbn [bind].
  rewrite Hn, Eqh, Ekh, Evh. reflexivity.
Qed.

(** Without divisibility the call raises, whatever the other operands. *)
Lemma MultiHead_forward_raises (m : MultiHead.t) (query key value : Tensor R)
  (L : list nat) (d_key d_value N : nat) :
  built_as m d_key d_value N -> ~ Nat.divide N d_key ->
  size query = L ++ [d_key] ->
  exists e, MultiHead.forward m query key value = Raise e.
Proof.
  intros (Hqi & Hqo & _ & _ & _ & _ & _ & _ & Hn) Hnd Hq.
  destruct (Linear_forward_size (MultiHead.wq m) query L d_key Hq Hqi)
    as (q1 & Eq1 & Sq1).
  rewrite Hqo in Sq1.
  unfold MultiHead.forward, MultiHead.heads. rewrite Eq1. cbn [bind].
  destruct (Linear.forward (MultiHead.wk m) key); cbn [bind]; [|eexists; reflexivity].
  destruct (Linear.forward (MultiHead.wv m) value); cbn [bind]; [|eexists; reflexivity].
  rewrite Hn, (fold_heads_fail N q1 L d_key Sq1 Hnd). cbn [bind].
  eexists. reflexivity.
Qed.

Lemma MultiHead_forward_raises_value (m : MultiHead.t)
  (query key value : Tensor R) (L : list nat) (d_key d_value N : nat) :
  built_as m d_key d_value N -> ~ Nat.divide N d_value ->
  size value = L ++ [d_value] ->
  exists e, MultiHead.forward m query key value = Raise e.
Proof.
  intros (_ & _ & _ & _ & Hvi & Hvo & _ & _ & Hn) Hnd Hv.
  destruct (Linear_forward_size (MultiHead.wv m) value L d_value Hv Hvi)
    as (v1 & Ev1 & Sv1).
  rewrite Hvo in Sv1.
  unfold MultiHead.forward, MultiHead.heads.
  destruct (Linear.forward (MultiHead.wq m) query) as [q1|];
    cbn [bind]; [|eexists; reflexivity].
  destruct (Linear.forward (MultiHead.wk m) key) as [k1|];
    cbn [bind]; [|eexists; reflexivity].
  rewrite Ev1. cbn [bind]. rewrite Hn.
  destruct (MultiHead.fold_heads N q1); cbn [bind]; [|eexists; reflexivity].
  destruct (MultiHead.fold_heads N k1); cbn [bind]; [|eexists; reflexivity].
  rewrite (fold_heads_fail N v1 L d_value Sv1 Hnd). cbn [bind].
  eexists. reflexivity.
Qed.

(** C3 (amended): for a rank-3 query of size [[B; Tq; d_key]], key of size
    [[B; Tk; d_key]] and value of size [[B; Tk; d_value]], with a positive
    [n_heads] dividing [d_key] and [d_value], [MultiHead.forward] returns
    a tensor of size [[B; Tq; d_key]]: the query's leading extents
    followed by [d_key] (the width the output projection [wo] maps to),
    whatever [n_heads] is. *)
Theorem multihead_output_size (m : MultiHead.t) (query key value : Tensor R)
  (B Tq Tk d_key d_value n_heads : nat) :
  built_as m d_key d_value n_heads -> 0 < n_heads ->
  Nat.divide n_heads d_key -> Nat.divide n_heads d_value ->
  size query = [B; Tq; d_key] -> size key = [B; Tk; d_key] ->
  size value = [B; Tk; d_value] ->
  exists out, MultiHead.forward m query key value = Ok out /\
    size out = [B; Tq] ++ [d_key].
Proof.
  intros Hm HN Hdk Hdv Hq Hk Hv.
  destruct (MultiHead_heads_spec m query key value B Tq Tk d_key d_value n_heads
              Hm HN Hdk Hdv Hq Hk Hv) as (qh & kh & vh & Eh & Sqh & Skh & Svh).
  destruct Hm as (_ & _ & _ & _ & _ & _ & Hoi & Hoo & Hn).
  destruct (Attention_forward_size (MultiHead.attention m) qh kh vh
              (B * n_heads) Tq Tk (d_key / n_heads) (d_value / n_heads) Sqh Skh Svh) as (o & Eo & So).
  destruct (unfold_heads_size n_heads o B Tq (d_value / n_heads) So HN) as (s & y & Es & Ey & Sy).
  assert (Sy' : size y = [B; Tq] ++ [d_value]).
  { rewrite Sy. destruct Hdv as [z ->]. rewrite Nat.div_mul by lia. reflexivity. }
  destruct (Linear_forward_size (MultiHead.wo m) y [B; Tq] d_value Sy' Hoi)
    as (out & Eout & Sout).
  exists out. split; [|rewrite Sout, Hoo; reflexivity].
  unfold MultiHead.forward. rewrite Eh. cbn [bind]. rewrite Eo. cbn [bind].
  rewrite Hn, Es. cbn [bind]. rewrite Ey. cbn [bind]. exact Eout.
Qed.

Lemma multihead_output_size_witness :
  (built_as (multihead_ex 4 2 2) 4 2 2 /\ 0 < 2 /\
   Nat.divide 2 4 /\ Nat.divide 2 2) /\
  exists out,
    MultiHead.forward (multihead_ex 4 2 2)
      (zeros [3; 5; 4]) (zeros [3; 7; 4]) (zeros [3; 7; 2]) = Ok out /\
    size out = [3; 5] ++ [4].
Proof.
  assert (H24 : Nat.divide 2 4) by (exists 2; reflexivity).
  assert (H22 : Nat.divide 2 2) by (exists 1; reflexivity).
  assert (Hb : built_as (multihead_ex 4 2 2) 4 2 2) by (repeat split).
  split; [repeat split; try assumption; lia|].
  apply (multihead_output_size (multihead_ex 4 2 2) _ _ _ 3 5 7 4 2 2 Hb);
    try assumption; try reflexivity; lia.
Defined.

(** C3, as stated, fails when [d_key] and [d_value] differ: with
    [d_key = 4], [d_value = 2] and two heads the output has size
    [[1; 1; 4]], not the query's leading extents followed by [d_value]. *)
Lemma multihead_output_width_is_d_key :
  exists out,
    MultiHead.forward (multihead_ex 4 2 2)
      (zeros [1; 1; 4]) (zeros [1; 1; 4]) (zeros [1; 1; 2]) = Ok out /\
    Nat.divide 2 4 /\ Nat.divide 2 2 /\
    size out = [1; 1; 4] /\ size out <> [1; 1] ++ [2].
Proof.
  eexists. split; [vm_compute; reflexivity|].
  split; [exists 2; reflexivity|]. split; [exists 1; reflexivity|].
  split; [vm_compute; reflexivity|]. vm_compute. discriminate.
Qed.

(** C4 (amended): [MultiHead.__init__] checks nothing: for every [d_key],
    [d_value] and [n_heads] it returns a module that records [n_heads] as
    given.  When [n_heads] does not divide [d_key] or [d_value], it is
    [forward] that raises, on any operands of these widths. *)
Theorem multihead_init_never_raises (rng : Rng) (att : Attention.t)
  (d_key d_value n_heads k : nat) :
  exists m k',
    MultiHead.init rng att d_key d_value n_heads k = Ok (m, k') /\
    MultiHead.n_heads m = n_heads /\
    (~ Nat.divide n_heads d_key ->
     forall query key value L, size query = L ++ [d_key] ->
       exists e, MultiHead.forward m query key value = Raise e) /\
    (~ Nat.divide n_heads d_value ->
     forall query key value L, size value = L ++ [d_value] ->
       exists e, MultiHead.forward m query key value = Raise e).
Proof.
  destruct (MultiHead_init_ok rng att d_key d_value n_heads k) as (m & Hm & _ & Hb).
  exists m, (k + 8). split; [exact Hm|].
  split; [apply Hb|]. split.
  - intros Hnd query key value L Hq.
    exact (MultiHead_forward_raises m query key value L d_key d_value n_heads Hb Hnd Hq).
  - intros Hnd query key value L Hv.
    exact (MultiHead_forward_raises_value m query key value L d_key d_value n_heads
             Hb Hnd Hv).
Qed.

(** C4, as stated, fails: with [d_key = d_value = 3] and two heads, which
    do not divide 3, construction returns a module. *)
Lemma multihead_init_accepts_indivisible :
  ~ Nat.divide 2 3 /\
  exists m k', MultiHead.init rng0 (attention_ex 3 false) 3 3 2 0 = Ok (m, k').
Proof.
  split.
  - intros [z Hz]. lia.
  - eexists. eexists. reflexivity.
Qed.

(** ** Construction of the layers *)

Lemma Dropout_init_ok (rng : Rng) (p : R) (k : nat) :
  (0 <= p <= 1)%R ->
  Dropout.init rng p k
  = Ok ({| Dropout.p := p; Dropout.training := true;
           Dropout.keep := bern rng k |}, S k).
Proof.
  intros [H0 H1]. unfold Dropout.init.
  destruct (Rle_dec 0 p); [|contradiction].
  destruct (Rle_dec p 1); [reflexivity|contradiction].
Qed.

Lemma Attention_init_ok (rng : Rng) (d_key : nat) (p : R) (c : bool) (k : nat) :
  (0 <= p <= 1)%R ->
  exists a, Attention.init rng d_key p c k = Ok (a, S k) /\
    Attention.scale a = sqrt (INR d_key) /\ Attention.causal a = c.
Proof.
  intros Hp. unfold Attention.init, ibind, iret.
  rewrite (Dropout_init_ok rng p k Hp).
  eexists. split; [reflexivity|]. split; reflexivity.
Qed.

Lemma ResidualBlock_init_ok {Lyr} (rng : Rng) (layer : Lyr) (d_model : nat)
  (p : R) (k : nat) :
  (0 <= p <= 1)%R ->
  exists rb, ResidualBlock.init rng layer d_model p k = Ok (rb, S k) /\
    ResidualBlock.layer rb = layer /\
    ResidualBlock.norm rb = LayerNorm.init d_model LayerNorm.default_eps.
Proof.
  intros Hp. unfold ResidualBlock.init, ibind, iret.
  rewrite (Dropout_init_ok rng p k Hp).
  eexists. split; [reflexivity|]. split; reflexivity.
Qed.

Lemma FeedForward_init_ok (rng : Rng) (d_model d_hidden : nat) (p : R) (k : nat) :
  (0 <= p <= 1)%R ->
  exists f, FeedForward.init rng d_model d_hidden p k = Ok (f, k + 5).
Proof.
  intros Hp. unfold FeedForward.init, Linear.init, fresh_tensor, ibind, iret.
  rewrite (Dropout_init_ok rng p _ Hp).
  replace (k + 5) with (S (S (S (S (S k))))) by lia.
  eexists. reflexivity.
Qed.

(** A residual block around [MultiHead(Attention(d, p, c), d, d, n)]. *)
Lemma attention_block_init_ok (rng : Rng) (d n : nat) (p : R) (c : bool) (k : nat) :
  (0 <= p <= 1)%R ->
  exists a m rb,
    Attention.init rng d p c k = Ok (a, S k) /\
    MultiHead.init rng a d d n (S k) = Ok (m, S k + 8) /\
    ResidualBlock.init rng m d p (S k + 8) = Ok (rb, S (S k + 8)) /\
    ResidualBlock.layer rb = m /\
    Attention.scale (MultiHead.attention m) = sqrt (INR d) /\
    Attention.causal (MultiHead.attention m) = c /\
    built_as m d d n.
Proof.
  intros Hp.
  destruct (Attention_init_ok rng d p c k Hp) as (a & Ha & Hsc & Hca).
  destruct (MultiHead_init_ok rng a d d n (S k)) as (m & Hm & Hatt & Hb).
  destruct (ResidualBlock_init_ok rng m d p (S k + 8) Hp) as (rb & Hrb & Hl & _).
  exists a, m, rb. rewrite Hatt.
  split; [exact Ha|]. split; [exact Hm|]. split; [exact Hrb|].
  split; [exact Hl|]. split; [exact Hsc|]. split; [exact Hca|exact Hb].
Qed.

Lemma EncoderLayer_init_ok (rng : Rng) (args : Args.t) (k : nat) :
  (0 <= Args.drop_ratio args <= 1)%R ->
  exists l, EncoderLayer.init rng args k = Ok (l, k + 16) /\
    let m := ResidualBlock.layer (EncoderLayer.selfattn l) in
    Attention.scale (MultiHead.attention m) = sqrt (INR (Args.d_model args)) /\
    Attention.causal (MultiHead.attention m) = false /\
    built_as m (Args.d_model args) (Args.d_model args) (Args.n_heads args).
Proof.
  intros Hp.
  destruct (attention_block_init_ok rng (Args.d_model args) (Args.n_heads args)
              (Args.drop_ratio args) false k Hp)
    as (a & m & sa & Ha & Hm & Hsa & Hl & Hsc & Hca & Hb).
  destruct (FeedForward_init_ok rng (Args.d_model args) (Args.d_hidden args)
              (Args.drop_ratio args) (S (S k + 8)) Hp) as (f & Hf).
  destruct (ResidualBlock_init_ok rng f (Args.d_model args)
              (Args.drop_ratio args) (S (S k + 8) + 5) Hp) as (ff & Hff & _ & _).
  eexists. split.
  - unfold EncoderLayer.init, ibind at 1. rewrite Ha.
    unfold ibind at 1. rewrite Hm.
    unfold ibind at 1. rewrite Hsa.
    unfold ibind at 1. rewrite Hf.
    unfold ibind at 1. rewrite Hff.
    unfold iret. replace (S (S (S k + 8) + 5)) with (k + 16) by lia.
    reflexivity.
  - cbn [EncoderLayer.selfattn]. rewrite Hl.
    split; [exact Hsc|]. split; [exact Hca|exact Hb].
Qed.

Lemma DecoderLayer_init_ok (rng : Rng) (args : Args.t) (k : nat) :
  (0 <= Args.drop_ratio args <= 1)%R ->
  exists l, DecoderLayer.init rng args k = Ok (l, k + 26) /\
    let m1 := ResidualBlock.layer (DecoderLayer.selfattn l) in
    let m2 := ResidualBlock.layer (DecoderLayer.attention l) in
    Attention.scale (MultiHead.attention m1) = sqrt (INR (Args.d_model args)) /\
    Attention.causal (MultiHead.attention m1) = true /\
    built_as m1 (Args.d_model args) (Args.d_model args) (Args.n_heads args) /\
    Attention.scale (MultiHead.attention m2) = sqrt (INR (Args.d_model args)) /\
    Attention.causal (MultiHead.attention m2) = false /\
    built_as m2 (Args.d_model args) (Args.d_model args) (Args.n_heads args).
Proof.
  intros Hp.
  destruct (attention_block_init_ok rng (Args.d_model args) (Args.n_heads args)
              (Args.drop_ratio args) true k Hp)
    as (a1 & m1 & sa & Ha1 & Hm1 & Hsa & Hl1 & Hsc1 & Hca1 & Hb1).
  destruct (attention_block_init_ok rng (Args.d_model args) (Args.n_heads args)
              (Args.drop_ratio args) false (S (S k + 8)) Hp)
    as (a2 & m2 & at2 & Ha2 & Hm2 & Hat2 & Hl2 & Hsc2 & Hca2 & Hb2).
  destruct (FeedForward_init_ok rng (Args.d_model args) (Args.d_hidden args)
              (Args.drop_ratio args) (S (S (S (S k + 8)) + 8)) Hp) as (f & Hf).
  destruct (ResidualBlock_init_ok rng f (Args.d_model args)
              (Args.drop_ratio args) (S (S (S (S k + 8)) + 8) + 5) Hp)
    as (ff & Hff & _ & _).
  eexists. split.
  - unfold DecoderLayer.init, ibind at 1. rewrite Ha1.
    unfold ibind at 1. rewrite Hm1.
    unfold ibind at 1. rewrite Hsa.
    unfold ibind at 1. rewrite Ha2.
    unfold ibind at 1. rewrite Hm2.
    unfold ibind at 1. rewrite Hat2.
    unfold ibind at 1. rewrite Hf.
    unfold ibind at 1. rewrite Hff.
    unfold iret.
    replace (S (S (S (S (S k + 8)) + 8) + 5)) with (k + 26) by lia.
    reflexivity.
  - cbn [DecoderLayer.selfattn DecoderLayer.attention]. rewrite Hl1, Hl2.
    split; [exact Hsc1|]. split; [exact Hca1|]. split; [exact Hb1|].
    split; [exact Hsc2|]. split; [exact Hca2|exact Hb2].
Qed.

(** ** The scale of the per-head attention *)

(** ** [MultiHead.forward], step by step *)

Lemma Linear_forward_at (l : Linear.t) (x : Tensor R) (L : list nat) (D : nat) :
  size x = L ++ [D] -> Linear.in_features l = D ->
  exists y, Linear.forward l x = Ok y /\
    size y = L ++ [Linear.out_features l] /\
    forall I o,
      data y (I ++ [o])
      = (rsum D (fun c => data x (I ++ [c]) * data (Linear.weight l) [o; c])
         + data (Linear.bias l) [o])%R.
Proof.
  intros Hx Hin. unfold Linear.forward.
  rewrite Hx, split_last_app, Hin, Nat.eqb_refl.
  eexists. split; [reflexivity|]. split; [reflexivity|].
  intros I o. cbn [data]. rewrite last_last. f_equal.
  apply rsum_ext. intros c _. rewrite row_app. reflexivity.
Qed.

Lemma MultiHead_forward_steps (m : MultiHead.t) (query key value : Tensor R)
  (B Tq Tk d_key d_value N : nat) :
  built_as m d_key d_value N -> 0 < N ->
  Nat.divide N d_key -> Nat.divide N d_value ->
  size query = [B; Tq; d_key] -> size key = [B; Tk; d_key] ->
  size value = [B; Tk; d_value] ->
  exists q1 k1 v1 qh kh vh oh s u out,
    (Linear.forward (MultiHead.wq m) query = Ok q1 /\ size q1 = [B; Tq; d_key]) /\
    (Linear.forward (MultiHead.wk m) key = Ok k1 /\ size k1 = [B; Tk; d_key]) /\
    (Linear.forward (MultiHead.wv m) value = Ok v1 /\ size v1 = [B; Tk; d_value]) /\
    (MultiHead.fold_heads N q1 = Ok qh /\ size qh = [B * N; Tq; d_key / N]) /\
    (MultiHead.fold_heads N k1 = Ok kh /\ size kh = [B * N; Tk; d_key / N]) /\
    (MultiHead.fold_heads N v1 = Ok vh /\ size vh = [B * N; Tk; d_value / N]) /\
    (Attention.forward (MultiHead.attention m) qh kh vh = Ok oh /\
     size oh = [B * N; Tq; d_value / N]) /\
    (split_dim 0 N oh = Ok s /\ combine_dims (-1) 1 s = Ok u /\
     size u = [B; Tq; d_value]) /\
    (Linear.forward (MultiHead.wo m) u = Ok out /\ size out = [B; Tq; d_key]) /\
    MultiHead.forward m query key value = Ok out.
Proof.
  intros (Hqi & Hqo & Hki & Hko & Hvi & Hvo & Hoi & Hoo & Hn) HN Hdk Hdv Hq Hk Hv.
  destruct (Linear_forward_size (MultiHead.wq m) query [B; Tq] d_key Hq Hqi)
    as (q1 & Eq1 & Sq1).
  destruct (Linear_forward_size (MultiHead.wk m) key [B; Tk] d_key Hk Hki)
    as (k1 & Ek1 & Sk1).
  destruct (Linear_forward_size (MultiHead.wv m) value [B; Tk] d_value Hv Hvi)
    as (v1 & Ev1 & Sv1).
  rewrite Hqo in Sq1. rewrite Hko in Sk1. rewrite Hvo in Sv1.
  destruct (fold_heads_size N q1 B Tq d_key Sq1 HN Hdk) as (qh & Eqh & Sqh).
  destruct (fold_heads_size N k1 B Tk d_key Sk1 HN Hdk) as (kh & Ekh & Skh).
  destruct (fold_heads_size N v1 B Tk d_value Sv1 HN Hdv) as (vh & Evh & Svh).
  destruct (Attention_forward_size (MultiHead.attention m) qh kh vh
              (B * N) Tq Tk (d_key / N) (d_value / N) Sqh Skh Svh)
    as (oh & Eoh & Soh).
  destruct (unfold_heads_size N oh B Tq (d_value / N) Soh HN)
    as (s & u & Es & Eu & Su).
  assert (Hback : d_value / N * N = d_value).
  { destruct Hdv as [z ->]. rewrite Nat.div_mul by lia. reflexivity. }
  rewrite Hback in Su.
  destruct (Linear_forward_size (MultiHead.wo m) u [B; Tq] d_value Su Hoi)
    as (out & Eout & Sout).
  rewrite Hoo in Sout.
  exists q1, k1, v1, qh, kh, vh, oh, s, u, out.
  repeat (split; [split; assumption|]).
  split; [repeat split; assumption|].
  split; [split; assumption|].
  unfold MultiHead.forward, MultiHead.heads.
  rewrite Eq1, Ek1, Ev1. cbn [bind]. rewrite Hn, Eqh, Ekh, Evh. cbn [bind].
  rewrite Eoh. cbn [bind]. rewrite Es. cbn [bind]. rewrite Eu. cbn [bind].
  exact Eout.
Qed.

(** A call with three arguments: a block around a [MultiHead] whose output
    is the ramp [[0; 1]] at every position, on the input [ramp122]. *)
Lemma residual_block_forward_witness :
  exists y n out,
    call (ResidualBlock.layer (residual_ex (multihead_ramp 2 1) 2))
      [ramp122; ramp122; ramp122] = Ok y /\
    data y [0; 1; 1] = 1%R /\
    LayerNorm.forward (ResidualBlock.norm (residual_ex (multihead_ramp 2 1) 2)) y
    = Ok n /\
    ResidualBlock.forward (residual_ex (multihead_ramp 2 1) 2)
      [ramp122; ramp122; ramp122] = Ok out /\
    size out = size ramp122 /\
    data out [0; 1; 1]
    = Rplus (data ramp122 [0; 1; 1])
        (data (Dropout.forward
                 (ResidualBlock.dropout (residual_ex (multihead_ramp 2 1) 2)) n)
           [0; 1; 1]).
Proof.
  assert (Hb : built_as (multihead_ramp 2 1) 2 2 1) by (repeat split).
  assert (Hdiv : Nat.divide 1 2) by (exists 2; reflexivity).
  destruct (MultiHead_forward_steps (multihead_ramp 2 1) ramp122 ramp122 ramp122
              1 2 2 2 2 1 Hb Nat.lt_0_1 Hdiv Hdiv eq_refl eq_refl eq_refl)
    as (q1 & k1 & v1 & qh & kh & vh & oh & s & u & y & _ & _ & _ & _ & _ & _ & _
        & (_ & _ & Su) & (Ey & Sy) & Efw).
  destruct (Linear_forward_at (MultiHead.wo (multihead_ramp 2 1)) u [1; 2] 2
              Su eq_refl) as (y' & Ey' & _ & Dy').
  assert (y' = y) by congruence. subst y'.
  assert (Dy : data y [0; 1; 1] = 1%R).
  { change [0; 1; 1] with ([0; 1] ++ [1]). rewrite Dy'. cbn. lra. }
  destruct (LayerNorm_forward_row
              (ResidualBlock.norm (residual_ex (multihead_ramp 2 1) 2)) y [1; 2] 2
              Sy eq_refl eq_refl) as (n & En & Sn & _).
  destruct (proj2 (residual_block_forward (residual_ex (multihead_ramp 2 1) 2))
              ramp122 [ramp122; ramp122]) as (_ & Hstep).
  destruct (Hstep y Efw) as (_ & Hnorm).
  destruct (Hnorm n En) as (_ & _ & _ & Hsame).
  destruct (Hsame Sn) as (out & Eo & So & Do).
  exists y, n, out. split; [exact Efw|]. split; [exact Dy|].
  split; [exact En|]. split; [exact Eo|]. split; [exact So|].
  apply Do. repeat constructor.
Defined.

Lemma per_head_scores (m : MultiHead.t) (d n : nat) :
  built_as m d d n ->
  Attention.scale (MultiHead.attention m) = sqrt (INR d) ->
  0 < n -> Nat.divide n d ->
  per_head_scores_scaled_by_full_width m d n.
Proof.
  intros Hb Hsc Hn Hdiv query key value B Tq Tk Hq Hk Hv.
  destruct (MultiHead_forward_steps m query key value B Tq Tk d d n
              Hb Hn Hdiv Hdiv Hq Hk Hv)
    as (q1 & k1 & v1 & qh & kh & vh & oh & sp & u & out
        & (Eq1 & _) & (Ek1 & _) & (Ev1 & _)
        & (Eqh & Sqh) & (Ekh & Skh) & (Evh & Svh) & (Eoh & Soh)
        & (Esp & Eu & Su) & (Eout & Sout) & Efw).
  destruct (Attention_forward_spec (MultiHead.attention m) qh kh vh
              (B * n) Tq Tk (d / n) (d / n) Sqh Skh Svh)
    as (s & oh' & Es & Eoh' & _ & Doh).
  assert (oh' = oh) by congruence. subst oh'.
  destruct (Attention_scores_spec (MultiHead.attention m) qh kh
              (B * n) Tq Tk (d / n) Sqh Skh) as (s' & Es' & _ & Hs).
  assert (s' = s) by congruence. subst s'.
  destruct (unfold_heads_at n oh B Tq (d / n) Soh Hn) as (sp' & u' & Esp' & Eu' & _ & Du).
  assert (sp' = sp) by congruence. subst sp'.
  assert (u' = u) by congruence. subst u'.
  destruct Hb as (_ & _ & _ & _ & _ & _ & Hoi & _ & Hnh).
  destruct (Linear_forward_at (MultiHead.wo m) u [B; Tq] d Su Hoi)
    as (out' & Eout' & _ & Dout).
  assert (out' = out) by congruence. subst out'.
  exists qh, kh, vh, s, oh, out.
  split.
  { unfold MultiHead.heads. rewrite Eq1, Ek1, Ev1. cbn [bind].
    rewrite Hnh, Eqh, Ekh, Evh. reflexivity. }
  split; [exact Sqh|]. split; [exact Skh|]. split; [exact Svh|].
  split; [exact Es|]. split.
  { intros b i j Hbn Hij. rewrite (Hs b i j Hbn), Hsc.
    destruct (Attention.causal (MultiHead.attention m)); [|reflexivity].
    cbn [andb]. destruct (Nat.ltb_spec i j) as [Hlt|]; [|reflexivity].
    specialize (Hij eq_refl). lia. }
  split; [exact Eoh|]. split; [exact Soh|]. split; [exact Doh|].
  split; [exact Efw|]. split; [exact Sout|].
  intros b t o. change [b; t; o] with ([b; t] ++ [o]). rewrite Dout.
  f_equal. apply rsum_ext. intros c _. cbn [app]. rewrite Du. reflexivity.
Qed.

Lemma sqrt_full_width_neq (d n : nat) :
  2 <= n -> 0 < d -> sqrt (INR d) <> sqrt (INR (d / n)).
Proof.
  intros Hn Hd E.
  apply sqrt_inj in E; try apply pos_INR.
  apply INR_eq in E.
  pose proof (Nat.div_lt d n Hd). lia.
Qed.

(** C10: in the [MultiHead] modules that [EncoderLayer] and
    [DecoderLayer] construct, the attention module is built from the full
    width: its [scale] is [sqrt d_model].  [MultiHead.forward] runs it on
    per-head operands of width [d_model / n_heads], and every unmasked
    score is the dot product over that width divided by [sqrt d_model],
    which differs from [sqrt (d_model / n_heads)] as soon as there are two
    heads. *)
Theorem attention_scale_is_full_width (rng : Rng) (args : Args.t) (k : nat) :
  let d := Args.d_model args in
  let n := Args.n_heads args in
  (0 <= Args.drop_ratio args <= 1)%R -> 0 < n -> Nat.divide n d ->
  (exists l k', EncoderLayer.init rng args k = Ok (l, k') /\
     let m := ResidualBlock.layer (EncoderLayer.selfattn l) in
     Attention.scale (MultiHead.attention m) = sqrt (INR d) /\
     per_head_scores_scaled_by_full_width m d n) /\
  (exists l k', DecoderLayer.init rng args k = Ok (l, k') /\
     let m1 := ResidualBlock.layer (DecoderLayer.selfattn l) in
     let m2 := ResidualBlock.layer (DecoderLayer.attention l) in
     Attention.scale (MultiHead.attention m1) = sqrt (INR d) /\
     per_head_scores_scaled_by_full_width m1 d n /\
     Attention.scale (MultiHead.attention m2) = sqrt (INR d) /\
     per_head_scores_scaled_by_full_width m2 d n) /\
  (2 <= n -> 0 < d -> sqrt (INR d) <> sqrt (INR (d / n))).
Proof.
  intros d n Hp Hn Hdiv. split; [|split].
  - destruct (EncoderLayer_init_ok rng args k Hp) as (l & Hl & Hsc & _ & Hb).
    exists l, (k + 16). split; [exact Hl|]. split; [exact Hsc|].
    exact (per_head_scores _ d n Hb Hsc Hn Hdiv).
  - destruct (DecoderLayer_init_ok rng args k Hp)
      as (l & Hl & Hsc1 & _ & Hb1 & Hsc2 & _ & Hb2).
    exists l, (k + 26). split; [exact Hl|].
    split; [exact Hsc1|]. split; [exact (per_head_scores _ d n Hb1 Hsc1 Hn Hdiv)|].
    split; [exact Hsc2|]. exact (per_head_scores _ d n Hb2 Hsc2 Hn Hdiv).
  - apply sqrt_full_width_neq.
Qed.

Lemma attention_scale_is_full_width_witness :
  ((0 <= Args.drop_ratio args_ex <= 1)%R /\ 0 < 2 /\ Nat.divide 2 8) /\
  (exists l k', EncoderLayer.init rng0 args_ex 0 = Ok (l, k') /\
     let m := ResidualBlock.layer (EncoderLayer.selfattn l) in
     Attention.scale (MultiHead.attention m) = sqrt (INR 8) /\
     per_head_scores_scaled_by_full_width m 8 2) /\
  (exists l k', DecoderLayer.init rng0 args_ex 0 = Ok (l, k') /\
     let m1 := ResidualBlock.layer (DecoderLayer.selfattn l) in
     let m2 := ResidualBlock.layer (DecoderLayer.attention l) in
     Attention.scale (MultiHead.attention m1) = sqrt (INR 8) /\
     per_head_scores_scaled_by_full_width m1 8 2 /\
     Attention.scale (MultiHead.attention m2) = sqrt (INR 8) /\
     per_head_scores_scaled_by_full_width m2 8 2) /\
  (2 <= 2 -> 0 < 8 -> sqrt (INR 8) <> sqrt (INR (8 / 2))).
Proof.
  assert (Hp : (0 <= Args.drop_ratio args_ex <= 1)%R) by (unfold args_ex; simpl; lra).
  assert (Hd : Nat.divide 2 8) by (exists 4; reflexivity).
  split; [split; [exact Hp|split; [lia|exact Hd]]|].
  apply (attention_scale_is_full_width rng0 args_ex 0 Hp); [cbn; lia|exact Hd].
Defined.

(** ** The encoder and decoder stacks *)

Lemma bind_ret {A} (c : result A) : (x <- c ;; Ok x) = c.
Proof. destruct c; reflexivity. Qed.

Lemma bind_assoc {A B C} (c : result A) (f : A -> result B) (g : B -> result C) :
  (y <- (x <- c ;; f x) ;; g y) = (x <- c ;; y <- f x ;; g y).
Proof. destruct c; reflexivity. Qed.

Lemma replicate_init_length {A} (n : nat) (c : Init A) (k : nat) (l : list A) (k' : nat) :
  replicate_init n c k = Ok (l, k') -> length l = n.
Proof.
  revert k l k'. induction n as [|n IH]; intros k l k' H.
  - inversion H. reflexivity.
  - simpl in H. unfold ibind in H.
    destruct (c k) as [[a k1]|]; [|discriminate].
    destruct (replicate_init n c k1) as [[l1 k2]|] eqn:E; [|discriminate].
    inversion H. subst. simpl. f_equal. exact (IH _ _ _ E).
Qed.

Lemma Encoder_init_layers (rng : Rng) (out : Linear.t) (args : Args.t)
  (k : nat) (e : Encoder.t) (k' : nat) :
  Encoder.init rng out args k = Ok (e, k') ->
  length (Encoder.layers e) = Args.n_layers args.
Proof.
  unfold Encoder.init, ibind, iret. intros H.
  destruct (replicate_init (Args.n_layers args) (EncoderLayer.init rng args) k)
    as [[ls k1]|] eqn:E; [|discriminate].
  destruct (Dropout.init rng (Args.drop_ratio args) k1) as [[d k2]|]; [|discriminate].
  inversion H. subst. simpl. exact (replicate_init_length _ _ _ _ _ E).
Qed.

Lemma Decoder_init_layers (rng : Rng) (out : Linear.t) (args : Args.t)
  (g : list (Tensor R) -> result (Tensor nat))
  (bs : list (Tensor R) -> Z -> R -> result (Tensor nat))
  (k : nat) (d : Decoder.t) (k' : nat) :
  Decoder.init rng out args g bs k = Ok (d, k') ->
  length (Decoder.layers d) = Args.n_layers args.
Proof.
  unfold Decoder.init, ibind, iret. intros H.
  destruct (replicate_init (Args.n_layers args) (DecoderLayer.init rng args) k)
    as [[ls k1]|] eqn:E; [|discriminate].
  destruct (Dropout.init rng (Args.drop_ratio args) k1) as [[dr k2]|]; [|discriminate].
  inversion H. subst. simpl. exact (replicate_init_length _ _ _ _ _ E).
Qed.

(** The encoder loop appends, for every layer, the output of the layers
    run so far. *)
Lemma Encoder_loop_spec (ls : list EncoderLayer.t) :
  forall (x : Tensor R) (acc enc : list (Tensor R)),
    Encoder.loop ls x acc = Ok enc <->
    exists r, enc = acc ++ r /\ length r = length ls /\
      forall i y, nth_error r i = Some y ->
        through (firstn (S i) ls) x = Ok y.
Proof.
  induction ls as [|l ls IH]; intros x acc enc.
  - simpl. split.
    + intros H. inversion H. subst. exists []. rewrite app_nil_r.
      split; [reflexivity|]. split; [reflexivity|].
      intros [|i] y Hy; discriminate.
    + intros ([|r0 r] & -> & Hlen & _); [|discriminate].
      rewrite app_nil_r. reflexivity.
  - cbn [Encoder.loop]. split.
    + intros H. destruct (EncoderLayer.forward l x) as [y0|] eqn:E; [|discriminate].
      cbn [bind] in H. apply IH in H. destruct H as (r & -> & Hlen & Hr).
      exists (y0 :: r). rewrite <- app_assoc. split; [reflexivity|].
      split; [simpl; congruence|].
      intros [|i] y Hy.
      * inversion Hy. subst. simpl. rewrite E. reflexivity.
      * change (firstn (S (S i)) (l :: ls)) with (l :: firstn (S i) ls).
        cbn [through]. rewrite E. cbn [bind]. apply Hr. exact Hy.
    + intros ([|r0 r] & -> & Hlen & Hr); [discriminate|].
      assert (E : EncoderLayer.forward l x = Ok r0).
      { specialize (Hr 0 r0 eq_refl). simpl in Hr. rewrite bind_ret in Hr. exact Hr. }
      rewrite E. cbn [bind]. apply IH. exists r.
      rewrite <- app_assoc. split; [reflexivity|].
      split; [simpl in Hlen; congruence|].
      intros i y Hy. specialize (Hr (S i) y Hy).
      change (firstn (S (S i)) (l :: ls)) with (l :: firstn (S i) ls) in Hr.
      cbn [through] in Hr. rewrite E in Hr. exact Hr.
Qed.

(** If the whole stack runs, the loop returns. *)
Lemma Encoder_loop_total (ls : list EncoderLayer.t) :
  forall (x y : Tensor R) (acc : list (Tensor R)),
    through ls x = Ok y -> exists enc, Encoder.loop ls x acc = Ok enc.
Proof.
  induction ls as [|l ls IH]; intros x y acc H.
  - exists acc. reflexivity.
  - cbn [through Encoder.loop] in *.
    destruct (EncoderLayer.forward l x) as [y0|]; [|discriminate].
    cbn [bind] in *. exact (IH y0 y _ H).
Qed.

Lemma paired_upto_cons (l : DecoderLayer.t) (ls : list DecoderLayer.t)
  (e : Tensor R) (enc : list (Tensor R)) (x : Tensor R) (n : nat) :
  paired_upto (l :: ls) (e :: enc) x (S n)
  = (y <- DecoderLayer.forward l x e ;; paired_upto ls enc y n).
Proof.
  induction n as [|n IH].
  - simpl. rewrite bind_ret. reflexivity.
  - change (paired_upto (l :: ls) (e :: enc) x (S (S n)))
      with (y <- paired_upto (l :: ls) (e :: enc) x (S n) ;;
            match nth_error ls n, nth_error enc n with
            | Some l', Some e' => DecoderLayer.forward l' y e'
            | _, _ => Raise IndexError
            end).
    rewrite IH, bind_assoc. reflexivity.
Qed.

(** The decoder loop pairs layers and encodings by index, up to the
    shorter of the two lists. *)
Lemma Decoder_loop_spec (ls : list DecoderLayer.t) :
  forall (enc : list (Tensor R)) (x : Tensor R),
    Decoder.loop (combine ls enc) x
    = paired_upto ls enc x (Nat.min (length ls) (length enc)).
Proof.
  induction ls as [|l ls IH]; intros [|e enc] x; try reflexivity.
  cbn [combine Decoder.loop length Nat.min]. rewrite paired_upto_cons.
  destruct (DecoderLayer.forward l x e); [|reflexivity].
  cbn [bind]. apply IH.
Qed.

Lemma Decoder_forward_spec (d : Decoder.t) (x : Tensor nat) (enc : list (Tensor R)) :
  Decoder.forward d x enc
  = (x0 <- embed_input (Decoder.out d) (Decoder.d_model d) (Decoder.dropout d) x ;;
     paired_upto (Decoder.layers d) enc x0
       (Nat.min (length (Decoder.layers d)) (length enc))).
Proof.
  unfold Decoder.forward.
  destruct (embed_input _ _ _ x); [|reflexivity].
  cbn [bind]. apply Decoder_loop_spec.
Qed.

Lemma combine_surplus {A B} (l : list A) (r extra : list B) :
  length r = length l -> combine l (r ++ extra) = combine l r.
Proof.
  revert r. induction l as [|a l IH]; intros [|b r] H; try discriminate.
  - reflexivity.
  - simpl. f_equal. apply IH. simpl in H. lia.
Qed.

(** C2: [Encoder.forward] returns one tensor per layer, in order: it
    returns [enc] exactly when [enc] has as many elements as there are
    layers ([n_layers] of them, by construction) and element [i] is the
    output of layers [0..i] run in sequence on the embedded input; and it
    does return whenever the stack runs through.  [Decoder.forward], given
    a sequence of that length (as the encoder built from the same [args]
    returns), feeds element [i] to its layer [i], which uses it as key and
    value of its cross-attention block, and returns the state after the
    last layer only. *)
Theorem encoder_decoder_layer_pairing :
  (forall rng out args k e k',
     Encoder.init rng out args k = Ok (e, k') ->
     length (Encoder.layers e) = Args.n_layers args) /\
  (forall rng out args g bs k d k',
     Decoder.init rng out args g bs k = Ok (d, k') ->
     length (Decoder.layers d) = Args.n_layers args) /\
  (forall e x enc,
     Encoder.forward e x = Ok enc <->
     exists x0,
       embed_input (Encoder.out e) (Encoder.d_model e) (Encoder.dropout e) x = Ok x0 /\
       length enc = length (Encoder.layers e) /\
       forall i y, nth_error enc i = Some y ->
         through (firstn (S i) (Encoder.layers e)) x0 = Ok y) /\
  (forall e x x0 y,
     embed_input (Encoder.out e) (Encoder.d_model e) (Encoder.dropout e) x = Ok x0 ->
     through (Encoder.layers e) x0 = Ok y ->
     exists enc, Encoder.forward e x = Ok enc) /\
  (forall d x enc,
     length enc = length (Decoder.layers d) ->
     Decoder.forward d x enc
     = (x0 <- embed_input (Decoder.out d) (Decoder.d_model d) (Decoder.dropout d) x ;;
        paired_upto (Decoder.layers d) enc x0 (length (Decoder.layers d)))) /\
  (forall l x e,
     DecoderLayer.forward l x e
     = (x1 <- ResidualBlock.forward (DecoderLayer.selfattn l) [x; x; x] ;;
        x2 <- ResidualBlock.forward (DecoderLayer.attention l) [x1; e; e] ;;
        ResidualBlock.forward (DecoderLayer.feedforward l) [x2])) /\
  (forall rng out_src out_trg args g bs k1 k2 e d k1' k2' x enc,
     Encoder.init rng out_src args k1 = Ok (e, k1') ->
     Decoder.init rng out_trg args g bs k2 = Ok (d, k2') ->
     Encoder.forward e x = Ok enc ->
     length enc = length (Decoder.layers d)).
Proof.
  assert (Henc : forall e x enc,
     Encoder.forward e x = Ok enc <->
     exists x0,
       embed_input (Encoder.out e) (Encoder.d_model e) (Encoder.dropout e) x = Ok x0 /\
       length enc = length (Encoder.layers e) /\
       forall i y, nth_error enc i = Some y ->
         through (firstn (S i) (Encoder.layers e)) x0 = Ok y).
  { intros e x enc. unfold Encoder.forward.
    destruct (embed_input _ _ _ x) as [x0|err]; cbn [bind].
    + rewrite Encoder_loop_spec. split.
      * intros (r & -> & Hlen & Hr). exists x0. split; [reflexivity|].
        split; [exact Hlen|exact Hr].
      * intros (x0' & E & Hlen & Hr). inversion E. subst x0'.
        exists enc. split; [reflexivity|]. split; [exact Hlen|exact Hr].
    + split; [discriminate|]. intros (x0 & E & _). discriminate. }
  split; [exact Encoder_init_layers|]. split; [exact Decoder_init_layers|].
  split; [exact Henc|]. split; [|split; [|split]].
  - intros e x x0 y E Hy. unfold Encoder.forward. rewrite E. cbn [bind].
    exact (Encoder_loop_total _ _ _ [] Hy).
  - intros d x enc Hlen. rewrite Decoder_forward_spec, Hlen, Nat.min_id.
    reflexivity.
  - reflexivity.
  - intros rng out_src out_trg args g bs k1 k2 e d k1' k2' x enc He Hd Hf.
    apply Henc in Hf. destruct Hf as (_ & _ & Hlen & _).
    rewrite Hlen, (Encoder_init_layers _ _ _ _ _ _ He).
    symmetry. exact (Decoder_init_layers _ _ _ _ _ _ _ _ Hd).
Qed.

Lemma encoder_decoder_layer_pairing_witness :
  length [zeros [1; 1; 2]] = length (Decoder.layers decoder_ex) /\
  Decoder.forward decoder_ex tokens_ex [zeros [1; 1; 2]]
  = (x0 <- embed_input (Decoder.out decoder_ex) (Decoder.d_model decoder_ex)
             (Decoder.dropout decoder_ex) tokens_ex ;;
     paired_upto (Decoder.layers decoder_ex) [zeros [1; 1; 2]] x0
       (length (Decoder.layers decoder_ex))).
Proof.
  split; [reflexivity|].
  destruct encoder_decoder_layer_pairing as (_ & _ & _ & _ & H & _).
  apply H. reflexivity.
Defined.

(** C5 (amended): [Decoder.forward] does not compare the length of the
    encoding with its number of layers: [zip] pairs layers and encodings
    by index up to the shorter of the two, so surplus encodings are
    ignored, surplus layers are not run, and no error arises from the
    mismatch (with no encoding at all the embedded input is returned). *)
Theorem decoder_pairs_up_to_shorter (d : Decoder.t) (x : Tensor nat) :
  (forall enc,
     Decoder.forward d x enc
     = (x0 <- embed_input (Decoder.out d) (Decoder.d_model d) (Decoder.dropout d) x ;;
        paired_upto (Decoder.layers d) enc x0
          (Nat.min (length (Decoder.layers d)) (length enc)))) /\
  (forall enc extra,
     length enc = length (Decoder.layers d) ->
     Decoder.forward d x (enc ++ extra) = Decoder.forward d x enc) /\
  Decoder.forward d x []
  = embed_input (Decoder.out d) (Decoder.d_model d) (Decoder.dropout d) x.
Proof.
  split; [intros enc; apply Decoder_forward_spec|]. split.
  - intros enc extra Hlen. unfold Decoder.forward.
    rewrite (combine_surplus _ _ _ Hlen). reflexivity.
  - rewrite Decoder_forward_spec. simpl. rewrite Nat.min_0_r. simpl.
    apply bind_ret.
Qed.

Lemma decoder_pairs_up_to_shorter_witness :
  length [zeros [1; 1; 2]] = length (Decoder.layers decoder_ex) /\
  Decoder.forward decoder_ex tokens_ex ([zeros [1; 1; 2]] ++ [zeros [1; 1; 2]])
  = Decoder.forward decoder_ex tokens_ex [zeros [1; 1; 2]].
Proof.
  split; [reflexivity|].
  apply (proj1 (proj2 (decoder_pairs_up_to_shorter decoder_ex tokens_ex))).
  reflexivity.
Defined.

(** C5, as stated, fails: a decoder with one layer, called with an empty
    encoding, returns a tensor. *)
Lemma decoder_accepts_layer_count_mismatch :
  length (@nil (Tensor R)) <> length (Decoder.layers decoder_ex) /\
  exists out, Decoder.forward decoder_ex tokens_ex [] = Ok out.
Proof.
  split; [discriminate|].
  eexists. vm_compute. reflexivity.
Qed.

(** ** [positional_encodings_like] *)

Lemma norm_dim_neg (rank k : nat) :
  0 < k <= rank -> norm_dim rank (- Z.of_nat k) = Ok (rank - k).
Proof.
  intros H. unfold norm_dim.
  destruct (Z.ltb_spec (- Z.of_nat k) 0); [|lia].
  destruct (Z.leb_spec 0 (- Z.of_nat k + Z.of_nat rank)); [|lia].
  destruct (Z.ltb_spec (- Z.of_nat k + Z.of_nat rank) (Z.of_nat rank)); [|lia].
  cbn [andb]. f_equal. lia.
Qed.

Lemma maxsize_trailing {A} (x : Tensor A) (lead : list nat) (T D : nat) :
  size x = lead ++ [T; D] ->
  maxsize x (-2) = Ok T /\ maxsize x (-1) = Ok D.
Proof.
  intros Hx. unfold maxsize, dim. rewrite Hx, length_app. cbn [length].
  split.
  - change (-2)%Z with (- Z.of_nat 2)%Z. rewrite norm_dim_neg by lia.
    cbn [bind]. f_equal.
    replace (length lead + 2 - 2) with (length lead) by lia.
    apply nth_middle.
  - change (-1)%Z with (- Z.of_nat 1)%Z. rewrite norm_dim_neg by lia.
    cbn [bind]. f_equal.
    replace (length lead + 2 - 1) with (length (lead ++ [T])) by (rewrite length_app; simpl; lia).
    change (lead ++ [T; D]) with (lead ++ [T] ++ [D]). rewrite app_assoc.
    apply nth_middle.
Qed.

(** The table of encodings before it is expanded over the batch: entry
    [[p; c]] is the sine (even [c]) or cosine (odd [c]) of position [p]
    times the inverse wavelength of channel pair [c / 2]. *)
Lemma encodings_table (T D : nat) :
  0 < T ->
  exists p c m s enc,
    unsqueeze (-1) (arange 0 T 1) = Ok p /\
    unsqueeze 0 (tmap (fun c => (1 / Rpower 10000 c)%R)
                   (tmap (fun c => (c / INR D)%R) (arange 0 D 2))) = Ok c /\
    matmul p c = Ok m /\
    stack_last (tmap sin m) (tmap cos m) = Ok s /\
    view_merge_last2 s = Ok enc /\
    size enc = [T; (D + 1) / 2 * 2] /\
    forall q j,
      data enc [q; j]
      = (if j mod 2 =? 0 then sin else cos)
          (0 + INR q * (1 / Rpower 10000 (INR (j / 2 * 2) / INR D)))%R.
Proof.
  intros HT.
  unfold unsqueeze, arange. norm_dims.
  replace (T - 0 + 1 - 1) with T by lia. rewrite Nat.div_1_r.
  replace (D - 0 + 2 - 1) with (D + 1) by lia.
  do 2 eexists. eexists. eexists. eexists.
  split; [reflexivity|]. split; [reflexivity|].
  unfold matmul, bmm. shape_step.
  split; [reflexivity|].
  unfold stack_last. cbn [size tmap].
  destruct (list_eq_dec Nat.eq_dec [T; (D + 1) / 2] [T; (D + 1) / 2]) as [_|Hne];
    [|contradiction].
  split; [reflexivity|].
  unfold view_merge_last2. shape_step.
  replace (T * 1) with T by lia.
  destruct (Nat.eqb_spec T 0); [lia|].
  split; [reflexivity|]. split; [reflexivity|].
  intros q j. shape_step.
  replace (j / 2 * 2 + 0) with (j / 2 * 2) by lia.
  replace (q * 1) with q by lia.
  destruct (j mod 2 =? 0); reflexivity.
Qed.

Lemma expand_over_batch {A} (e : Tensor A) (lead : list nat) (T D : nat) :
  size e = [1; T; D] -> lead <> [] ->
  exists r, expand e (lead ++ [T; D]) = Ok r /\ size r = lead ++ [T; D] /\
    forall I p c, inb I lead -> p < T -> c < D ->
      data r (I ++ [p; c]) = data e [0; p; c].
Proof.
  intros He Hlead. unfold expand. rewrite He, rev_app_distr.
  destruct (rev lead) as [|n l] eqn:E.
  { exfalso. apply Hlead. rewrite <- (rev_involutive lead), E. reflexivity. }
  cbn [rev app expandable_rev]. rewrite !Nat.eqb_refl, orb_true_r. cbn [orb andb].
  eexists. split; [reflexivity|]. split; [reflexivity|].
  intros I p c HI Hp Hc. cbn [data]. f_equal.
  pose proof (inb_length _ _ HI) as HlenI.
  destruct (exists_last (l := I)) as (I' & b & ->).
  { intros ->. destruct lead; [contradiction|discriminate]. }
  unfold bindex. rewrite !length_app. cbn [length].
  replace (length I' + 1 + 2 - 3) with (length I') by lia.
  rewrite <- !app_assoc, skipn_app, skipn_all, Nat.sub_diag. cbn.
  rewrite (clamp_lt T p Hp), (clamp_lt D c Hc). reflexivity.
Qed.

Lemma even_half_double (D : nat) : Nat.Even D -> (D + 1) / 2 * 2 = D.
Proof.
  intros [h ->]. replace (2 * h + 1) with (1 + h * 2) by lia.
  rewrite Nat.div_add by lia. simpl. lia.
Qed.

Lemma positional_encodings_spec (x : Tensor R) (lead : list nat) (T D : nat) :
  size x = lead ++ [T; D] -> lead <> [] -> 0 < T -> Nat.Even D ->
  exists pe, positional_encodings_like x None = Ok pe /\ size pe = size x /\
    forall I p c, inb I lead -> p < T -> c < D ->
      data pe (I ++ [p; c])
      = (if c mod 2 =? 0 then sin else cos)
          (INR p / Rpower 10000 (INR (c / 2 * 2) / INR D))%R.
Proof.
  intros Hx Hlead HT HD.
  destruct (maxsize_trailing x lead T D Hx) as [HmT HmD].
  destruct (encodings_table T D HT)
    as (p & c & m & s & enc & Ep & Ec & Em & Es & Eenc & Senc & Denc).
  rewrite (even_half_double D HD) in Senc.
  unfold positional_encodings_like. rewrite HmT, HmD. cbn [bind].
  rewrite Ep, Ec. cbn [bind]. rewrite Em. cbn [bind]. rewrite Es. cbn [bind].
  rewrite Eenc. cbn [bind].
  unfold dim at 1. rewrite Senc. cbn [length Nat.eqb].
  unfold unsqueeze, dim. rewrite Senc. norm_dims.
  set (e := {| size := insert_at (Z.to_nat 0) 1 [T; D];
               data := fun i => data enc (remove_at (Z.to_nat 0) i) |}).
  destruct (expand_over_batch e lead T D eq_refl Hlead) as (r & Er & Sr & Dr).
  rewrite Hx. exists r. split; [exact Er|]. split; [exact Sr|].
  intros I q j HI Hq Hj. rewrite (Dr I q j HI Hq Hj).
  unfold e. cbn [data]. change (remove_at (Z.to_nat 0) [0; q; j]) with [q; j].
  rewrite Denc. f_equal. unfold Rdiv. ring.
Qed.

(** For an odd feature width the table is one channel too wide and the
    expansion to the size of the input is refused. *)
Lemma positional_encodings_odd (x : Tensor R) (lead : list nat) (T D : nat) :
  size x = lead ++ [T; D] -> 0 < T -> Nat.Odd D ->
  positional_encodings_like x None = Raise RuntimeError.
Proof.
  intros Hx HT [h HD].
  destruct (maxsize_trailing x lead T D Hx) as [HmT HmD].
  destruct (encodings_table T D HT)
    as (p & c & m & s & enc & Ep & Ec & Em & Es & Eenc & Senc & _).
  assert (Hw : (D + 1) / 2 * 2 = D + 1).
  { subst D. replace (2 * h + 1 + 1) with ((h + 1) * 2) by lia.
    rewrite Nat.div_mul by lia. reflexivity. }
  rewrite Hw in Senc.
  unfold positional_encodings_like. rewrite HmT, HmD. cbn [bind].
  rewrite Ep, Ec. cbn [bind]. rewrite Em. cbn [bind]. rewrite Es. cbn [bind].
  rewrite Eenc. cbn [bind].
  unfold dim at 1. rewrite Senc. cbn [length Nat.eqb].
  unfold unsqueeze, dim. rewrite Senc. norm_dims.
  unfold expand. cbn [size]. rewrite Hx, rev_app_distr.
  change (rev (insert_at 0 1 [T; D + 1])) with [D + 1; T; 1].
  cbn [rev app expandable_rev].
  destruct (Nat.eqb_spec (D + 1) D); [lia|].
  destruct (Nat.eqb_spec (D + 1) 1); [lia|].
  reflexivity.
Qed.

Section PositionalEncodingClaims.
Local Open Scope R_scope.

(** C8 (amended): for an input with at least one leading (batch) axis and
    trailing extents [(T, D)], [T >= 1] and [D] even,
    [positional_encodings_like] returns a tensor of the size of the input
    whose value at position [p] is [sin (p / 10000^(2i/D))] at channel
    [2i] and [cos (p / 10000^(2i/D))] at channel [2i+1], the same for
    every leading index; at position 0 every channel pair is [(0, 1)]. *)
Theorem positional_encodings_values
  (x : Tensor R) (lead : list nat) (T D : nat) :
  size x = lead ++ [T; D] -> lead <> [] -> (0 < T)%nat -> Nat.Even D ->
  exists pe, positional_encodings_like x None = Ok pe /\ size pe = size x /\
    (forall I p i, inb I lead -> (p < T)%nat -> (2 * i + 1 < D)%nat ->
       data pe (I ++ [p; (2 * i)%nat])
       = sin (INR p / Rpower 10000 (INR (2 * i) / INR D)) /\
       data pe (I ++ [p; (2 * i + 1)%nat])
       = cos (INR p / Rpower 10000 (INR (2 * i) / INR D))) /\
    (forall I i, inb I lead -> (2 * i + 1 < D)%nat ->
       data pe (I ++ [0%nat; (2 * i)%nat]) = 0 /\
       data pe (I ++ [0%nat; (2 * i + 1)%nat]) = 1).
Proof.
  intros Hx Hlead HT HD.
  destruct (positional_encodings_spec x lead T D Hx Hlead HT HD)
    as (pe & Epe & Spe & Dpe).
  assert (Hpair : forall I p i, inb I lead -> (p < T)%nat -> (2 * i + 1 < D)%nat ->
       data pe (I ++ [p; (2 * i)%nat])
       = sin (INR p / Rpower 10000 (INR (2 * i) / INR D)) /\
       data pe (I ++ [p; (2 * i + 1)%nat])
       = cos (INR p / Rpower 10000 (INR (2 * i) / INR D))).
  { intros I p i HI Hp Hi. split.
    - rewrite (Dpe I p (2 * i)%nat HI Hp) by lia.
      replace (2 * i)%nat with (i * 2)%nat by lia.
      rewrite Nat.Div0.mod_mul, Nat.div_mul by lia. reflexivity.
    - rewrite (Dpe I p (2 * i + 1)%nat HI Hp) by lia.
      replace (2 * i + 1)%nat with (1 + i * 2)%nat by lia.
      rewrite Nat.Div0.mod_add, Nat.div_add by lia.
      change (1 mod 2 =? 0) with false. change (1 / 2)%nat with 0%nat.
      replace ((0 + i) * 2)%nat with (2 * i)%nat by lia. reflexivity. }
  exists pe. split; [exact Epe|]. split; [exact Spe|]. split; [exact Hpair|].
  intros I i HI Hi. destruct (Hpair I 0%nat i HI HT Hi) as [Hs Hc].
  rewrite Hs, Hc. cbn [INR]. unfold Rdiv. rewrite Rmult_0_l.
  split; [apply sin_0|apply cos_0].
Qed.

End PositionalEncodingClaims.

Lemma positional_encodings_values_witness :
  (size (zeros [2; 3; 4]) = [2] ++ [3; 4] /\ [2] <> [] /\ 0 < 3 /\ Nat.Even 4) /\
  exists pe, positional_encodings_like (zeros [2; 3; 4]) None = Ok pe /\
    size pe = size (zeros [2; 3; 4]) /\
    (forall I p i, inb I [2] -> p < 3 -> 2 * i + 1 < 4 ->
       data pe (I ++ [p; 2 * i])
       = sin (INR p / Rpower 10000 (INR (2 * i) / INR 4)) /\
       data pe (I ++ [p; 2 * i + 1])
       = cos (INR p / Rpower 10000 (INR (2 * i) / INR 4))) /\
    (forall I i, inb I [2] -> 2 * i + 1 < 4 ->
       data pe (I ++ [0; 2 * i]) = 0%R /\
       data pe (I ++ [0; 2 * i + 1]) = 1%R).
Proof.
  assert (HE : Nat.Even 4) by (exists 2; reflexivity).
  split.
  - split; [reflexivity|]. split; [discriminate|]. split; [lia|exact HE].
  - apply (positional_encodings_values (zeros [2; 3; 4]) [2] 3 4);
      [reflexivity|discriminate|lia|exact HE].
Defined.

(** C8, as stated, fails for an odd feature width: the table has
    [D + 1] channels and cannot be expanded to the size of the input, so
    the call raises. *)
Lemma positional_encodings_odd_width_raises :
  positional_encodings_like (zeros [1; 1; 3]) None = Raise RuntimeError.
Proof. vm_compute. reflexivity. Qed.

(** ** [Transformer.forward] *)

Section TransformerForward.

Variable self : Transformer.t.
Variables encoder_inputs decoder_inputs : Tensor nat.
Variable beam : Z.
Variable alpha : R.


Lemma forward_encoder_raises (decoding return_probs : bool) (e : error) :
  Encoder.forward (Transformer.encoder self) encoder_inputs = Raise e ->
  Transformer.forward self encoder_inputs decoder_inputs decoding beam alpha
    return_probs
  = ([Transformer.InvEncoder encoder_inputs], Raise e).
Proof.
  intros H. unfold Transformer.forward, Transformer.invoke, Transformer.rbind.
  rewrite H. reflexivity.
Qed.

Lemma forward_training (encoding : list (Tensor R)) (return_probs : bool) :
  Encoder.forward (Transformer.encoder self) encoder_inputs = Ok encoding ->
  Transformer.forward self encoder_inputs decoder_inputs false beam alpha
    return_probs
  = ([Transformer.InvEncoder encoder_inputs;
      Transformer.InvDecoder decoder_inputs encoding]
     ++ match Decoder.forward (Transformer.decoder self) decoder_inputs encoding with
        | Ok out => if return_probs then [Transformer.InvOut out] else []
        | Raise _ => []
        end,
     out <- Decoder.forward (Transformer.decoder self) decoder_inputs encoding ;;
     if return_probs then
       logits <- Linear.forward (Decoder.out (Transformer.decoder self)) out ;;
       Ok (Transformer.OutProbs out (softmax (tmap Finite logits)))
     else Ok (Transformer.Out out)).
Proof.
  intros H.
  unfold Transformer.forward, Transformer.probs, Transformer.invoke,
    Transformer.rbind, Transformer.rret.
  rewrite H. rewrite andb_false_r. cbn [orb negb].
  destruct (Decoder.forward (Transformer.decoder self) decoder_inputs encoding) as [out|e]; cbn [bind app].
  - destruct return_probs; [|reflexivity].
    destruct (Linear.forward (Decoder.out (Transformer.decoder self)) out); reflexivity.
  - reflexivity.
Qed.

Lemma forward_decoding_only (encoding : list (Tensor R)) :
  Encoder.forward (Transformer.encoder self) encoder_inputs = Ok encoding ->
  Transformer.forward self encoder_inputs decoder_inputs true beam alpha false
  = ([Transformer.InvEncoder encoder_inputs; search_invoked beam alpha encoding],
     output <- search_result (Transformer.decoder self) beam alpha encoding ;; Ok (Transformer.Decoded output)).
Proof.
  intros H.
  unfold Transformer.forward, Transformer.invoke, Transformer.rbind,
    Transformer.rret, search_invoked, search_result.
  rewrite H. cbn [andb orb negb].
  destruct (beam =? 1)%Z.
  - destruct (Decoder.greedy (Transformer.decoder self) encoding); reflexivity.
  - destruct (Decoder.beam_search (Transformer.decoder self) encoding beam alpha); reflexivity.
Qed.

Lemma forward_decoding_probs (encoding : list (Tensor R)) :
  Encoder.forward (Transformer.encoder self) encoder_inputs = Ok encoding ->
  Transformer.forward self encoder_inputs decoder_inputs true beam alpha true
  = ([Transformer.InvEncoder encoder_inputs;
      Transformer.InvDecoder decoder_inputs encoding]
     ++ match Decoder.forward (Transformer.decoder self) decoder_inputs encoding with
        | Ok out =>
            search_invoked beam alpha encoding ::
            match search_result (Transformer.decoder self) beam alpha encoding with
            | Ok _ => [Transformer.InvOut out]
            | Raise _ => []
            end
        | Raise _ => []
        end,
     out <- Decoder.forward (Transformer.decoder self) decoder_inputs encoding ;;
     output <- search_result (Transformer.decoder self) beam alpha encoding ;;
     logits <- Linear.forward (Decoder.out (Transformer.decoder self)) out ;;
     Ok (Transformer.DecodedProbs output out (softmax (tmap Finite logits)))).
Proof.
  intros H.
  unfold Transformer.forward, Transformer.probs, Transformer.invoke,
    Transformer.rbind, Transformer.rret, search_invoked, search_result.
  rewrite H. cbn [andb orb negb].
  destruct (Decoder.forward (Transformer.decoder self) decoder_inputs encoding) as [out|e]; cbn [bind app];
    [|reflexivity].
  destruct (beam =? 1)%Z.
  - destruct (Decoder.greedy (Transformer.decoder self) encoding); cbn [bind app]; [|reflexivity].
    destruct (Linear.forward (Decoder.out (Transformer.decoder self)) out); reflexivity.
  - destruct (Decoder.beam_search (Transformer.decoder self) encoding beam alpha); cbn [bind app];
      [|reflexivity].
    destruct (Linear.forward (Decoder.out (Transformer.decoder self)) out); reflexivity.
Qed.


(** C9 (amended): [Transformer.forward] always runs the encoder first.
    Without [decoding] it then runs the decoder on the given target tokens
    and returns the decoder's output, together, when [return_probs] is
    set, with the softmax of the vocabulary projection [decoder.out] of
    that output.  With [decoding] it calls the decoder's [greedy] when
    [beam = 1] and [beam_search] with [beam] and [alpha] otherwise; the
    teacher-forced decoder pass is run in that mode only when
    [return_probs] is set. *)
Theorem transformer_forward_dispatch :
  (forall decoding return_probs, exists rest,
     fst (Transformer.forward self encoder_inputs decoder_inputs decoding
            beam alpha return_probs)
     = Transformer.InvEncoder encoder_inputs :: rest) /\
  (forall decoding return_probs e,
     Encoder.forward (Transformer.encoder self) encoder_inputs = Raise e ->
     Transformer.forward self encoder_inputs decoder_inputs decoding beam alpha
       return_probs
     = ([Transformer.InvEncoder encoder_inputs], Raise e)) /\
  (beam = 1%Z ->
   forall encoding,
     search_invoked beam alpha encoding = Transformer.InvGreedy encoding /\
     search_result (Transformer.decoder self) beam alpha encoding = Decoder.greedy (Transformer.decoder self) encoding) /\
  (beam <> 1%Z ->
   forall encoding,
     search_invoked beam alpha encoding
     = Transformer.InvBeamSearch encoding beam alpha /\
     search_result (Transformer.decoder self) beam alpha encoding
     = Decoder.beam_search (Transformer.decoder self) encoding beam alpha) /\
  forall encoding,
    Encoder.forward (Transformer.encoder self) encoder_inputs = Ok encoding ->
    (forall return_probs,
       Transformer.forward self encoder_inputs decoder_inputs false beam alpha
         return_probs
       = ([Transformer.InvEncoder encoder_inputs;
           Transformer.InvDecoder decoder_inputs encoding]
          ++ match Decoder.forward (Transformer.decoder self) decoder_inputs encoding with
             | Ok out => if return_probs then [Transformer.InvOut out] else []
             | Raise _ => []
             end,
          out <- Decoder.forward (Transformer.decoder self) decoder_inputs encoding ;;
          if return_probs then
            logits <- Linear.forward (Decoder.out (Transformer.decoder self)) out ;;
            Ok (Transformer.OutProbs out (softmax (tmap Finite logits)))
          else Ok (Transformer.Out out))) /\
    Transformer.forward self encoder_inputs decoder_inputs true beam alpha false
    = ([Transformer.InvEncoder encoder_inputs; search_invoked beam alpha encoding],
       output <- search_result (Transformer.decoder self) beam alpha encoding ;;
       Ok (Transformer.Decoded output)) /\
    Transformer.forward self encoder_inputs decoder_inputs true beam alpha true
    = ([Transformer.InvEncoder encoder_inputs;
        Transformer.InvDecoder decoder_inputs encoding]
       ++ match Decoder.forward (Transformer.decoder self) decoder_inputs encoding with
          | Ok out =>
              search_invoked beam alpha encoding ::
              match search_result (Transformer.decoder self) beam alpha encoding with
              | Ok _ => [Transformer.InvOut out]
              | Raise _ => []
              end
          | Raise _ => []
          end,
       out <- Decoder.forward (Transformer.decoder self) decoder_inputs encoding ;;
       output <- search_result (Transformer.decoder self) beam alpha encoding ;;
       logits <- Linear.forward (Decoder.out (Transformer.decoder self)) out ;;
       Ok (Transformer.DecodedProbs output out (softmax (tmap Finite logits)))) /\
    (forall decoding return_probs,
       In (Transformer.InvDecoder decoder_inputs encoding)
          (fst (Transformer.forward self encoder_inputs decoder_inputs decoding
                  beam alpha return_probs))
       <-> decoding = false \/ return_probs = true).
Proof.
  split; [|split; [|split; [|split]]].
  - intros decoding return_probs.
    destruct (Encoder.forward (Transformer.encoder self) encoder_inputs) as [encoding|e] eqn:E.
    + destruct decoding.
      * destruct return_probs.
        -- rewrite (forward_decoding_probs encoding E). eexists. reflexivity.
        -- rewrite (forward_decoding_only encoding E). eexists. reflexivity.
      * rewrite (forward_training encoding return_probs E). eexists. reflexivity.
    + rewrite (forward_encoder_raises decoding return_probs e E).
      eexists. reflexivity.
  - intros decoding return_probs e. apply forward_encoder_raises.
  - intros Hb encoding. unfold search_invoked, search_result.
    rewrite Hb. split; reflexivity.
  - intros Hb encoding. unfold search_invoked, search_result.
    destruct (Z.eqb_spec beam 1); [contradiction|]. split; reflexivity.
  - intros encoding E.
    split; [intros rp; exact (forward_training encoding rp E)|].
    split; [exact (forward_decoding_only encoding E)|].
    split; [exact (forward_decoding_probs encoding E)|].
    intros decoding return_probs. destruct decoding.
    + destruct return_probs.
      * rewrite (forward_decoding_probs encoding E). cbn [fst app].
        split; [intros _; right; reflexivity|intros _; right; left; reflexivity].
      * rewrite (forward_decoding_only encoding E). cbn [fst].
        split.
        -- unfold search_invoked. intros [H|[H|[]]]; try discriminate.
           destruct (beam =? 1)%Z; discriminate.
        -- intros [H|H]; discriminate.
    + rewrite (forward_training encoding return_probs E). cbn [fst app].
      split; [intros _; left; reflexivity|intros _; right; left; reflexivity].
Qed.

End TransformerForward.

Lemma transformer_forward_dispatch_witness :
  Encoder.forward (Transformer.encoder transformer_ex) tokens_ex = Ok [] /\
  Transformer.forward transformer_ex tokens_ex tokens_ex true 1 (3 / 5)%R false
  = ([Transformer.InvEncoder tokens_ex; search_invoked 1 (3 / 5)%R []],
     output <- search_result (Transformer.decoder transformer_ex) 1 (3 / 5)%R [] ;;
     Ok (Transformer.Decoded output)).
Proof.
  assert (E : Encoder.forward (Transformer.encoder transformer_ex) tokens_ex = Ok [])
    by (vm_compute; reflexivity).
  split; [exact E|].
  destruct (transformer_forward_dispatch transformer_ex tokens_ex tokens_ex
              1 (3 / 5)%R) as (_ & _ & _ & _ & H).
  destruct (H [] E) as (_ & H2 & _). exact H2.
Defined.

(** C9, as stated, fails on what is returned with [return_probs]: the
    probabilities are the softmax of the vocabulary projection
    [decoder.out(out)] of the returned decoder output, not the softmax of
    that output itself.  Here the output has width [d_model = 2] and the
    probabilities range over the 3 tokens of the vocabulary. *)
Lemma transformer_probs_are_of_projection :
  exists out probs,
    snd (Transformer.forward transformer_ex tokens_ex tokens_ex false 1
           (3 / 5)%R true)
    = Ok (Transformer.OutProbs out probs) /\
    size out = [1; 1; 2] /\
    size probs = [1; 1; 3] /\
    probs <> softmax (tmap Finite out).
Proof.
  eexists. eexists. split; [vm_compute; reflexivity|].
  split; [vm_compute; reflexivity|]. split; [vm_compute; reflexivity|].
  intros E. apply (f_equal (@size R)) in E. vm_compute in E. discriminate.
Qed.

(** * Further properties of the code *)

(** * Further properties of the modules *)

(** ** [nn.Linear] and [FeedForward], entry by entry *)

Lemma Linear_forward_rejects (l : Linear.t) (x : Tensor R) :
  (forall L, size x <> L ++ [Linear.in_features l]) ->
  Linear.forward l x = Raise RuntimeError.
Proof.
  intros H. unfold Linear.forward, split_last.
  destruct (rev (size x)) as [|d r] eqn:E; [reflexivity|].
  destruct (Nat.eqb_spec d (Linear.in_features l)) as [->|]; [|reflexivity].
  exfalso. apply (H (rev r)).
  rewrite <- (rev_involutive (size x)), E. reflexivity.
Qed.

Lemma FeedForward_forward_at (f : FeedForward.t) (x : Tensor R)
  (L : list nat) (d h : nat) :
  feedforward_built_as f d h -> size x = L ++ [d] ->
  exists hid y,
    Linear.forward (FeedForward.linear1 f) x = Ok hid /\
    size hid = L ++ [h] /\
    FeedForward.forward f x = Ok y /\ size y = L ++ [d] /\
    forall I o,
      data y (I ++ [o])
      = (rsum h (fun c =>
           dropout_entry (FeedForward.dropout f) (I ++ [c])
             (Rmax 0 (data hid (I ++ [c])))
           * data (Linear.weight (FeedForward.linear2 f)) [o; c])
         + data (Linear.bias (FeedForward.linear2 f)) [o])%R.
Proof.
  intros (H1i & H1o & H2i & H2o) Hx.
  destruct (Linear_forward_at _ x L d Hx H1i) as (hid & Eh & Sh & _).
  rewrite H1o in Sh.
  set (a := Dropout.forward (FeedForward.dropout f) (relu hid)).
  assert (Sa : size a = L ++ [h]).
  { unfold a. rewrite Dropout_forward_size. exact Sh. }
  destruct (Linear_forward_at _ a L h Sa H2i) as (y & Ey & Sy & Dy).
  rewrite H2o in Sy.
  exists hid, y. split; [exact Eh|]. split; [exact Sh|].
  split; [unfold FeedForward.forward; rewrite Eh; exact Ey|].
  split; [exact Sy|].
  intros I o. rewrite Dy. f_equal. apply rsum_ext. intros c _. f_equal.
  unfold a. rewrite Dropout_forward_at. reflexivity.
Qed.

Lemma FeedForward_row_ext (f : FeedForward.t) (d h : nat) (x x' : Tensor R)
  (L I : list nat) (y y' : Tensor R) :
  feedforward_built_as f d h ->
  size x = L ++ [d] -> size x' = L ++ [d] ->
  (forall c, c < d -> data x (I ++ [c]) = data x' (I ++ [c])) ->
  FeedForward.forward f x = Ok y -> FeedForward.forward f x' = Ok y' ->
  forall o, data y (I ++ [o]) = data y' (I ++ [o]).
Proof.
  intros Hf Hx Hx' Hrow Ey Ey' o.
  destruct (FeedForward_forward_at f x L d h Hf Hx)
    as (hid & y1 & Eh & _ & Ey1 & _ & Dy).
  destruct (FeedForward_forward_at f x' L d h Hf Hx')
    as (hid' & y1' & Eh' & _ & Ey1' & _ & Dy').
  assert (y1 = y) by congruence. assert (y1' = y') by congruence. subst y1 y1'.
  rewrite Dy, Dy'. f_equal. apply rsum_ext. intros c _. do 3 f_equal.
  destruct Hf as (H1i & _).
  destruct (Linear_forward_at _ x L d Hx H1i) as (k & Ek & _ & Dk).
  destruct (Linear_forward_at _ x' L d Hx' H1i) as (k' & Ek' & _ & Dk').
  assert (k = hid) by congruence. assert (k' = hid') by congruence. subst k k'.
  rewrite Dk, Dk'. f_equal. apply rsum_ext. intros e He.
  rewrite (Hrow e He). reflexivity.
Qed.

(** X1: [FeedForward.forward] keeps the size of an input whose last extent
    is [d_model], refuses any other input, and works position by
    position: two inputs that agree on one row (the entries of one leading
    index) give outputs that agree on that row. *)
Theorem feedforward_position_wise (f : FeedForward.t) (d h : nat) :
  feedforward_built_as f d h ->
  (forall x L, size x = L ++ [d] ->
     exists y, FeedForward.forward f x = Ok y /\ size y = size x) /\
  (forall x, (forall L, size x <> L ++ [d]) ->
     FeedForward.forward f x = Raise RuntimeError) /\
  (forall x x' L I y y',
     size x = L ++ [d] -> size x' = L ++ [d] ->
     (forall c, c < d -> data x (I ++ [c]) = data x' (I ++ [c])) ->
     FeedForward.forward f x = Ok y -> FeedForward.forward f x' = Ok y' ->
     forall o, data y (I ++ [o]) = data y' (I ++ [o])).
Proof.
  intros Hf. split; [|split].
  - intros x L Hx.
    destruct (FeedForward_forward_at f x L d h Hf Hx) as (_ & y & _ & _ & Ey & Sy & _).
    exists y. split; [exact Ey|congruence].
  - intros x Hx. unfold FeedForward.forward.
    rewrite Linear_forward_rejects; [reflexivity|].
    destruct Hf as (-> & _). exact Hx.
  - intros x x' L I y y' Hx Hx' Hrow Ey Ey'.
    exact (FeedForward_row_ext f d h x x' L I y y' Hf Hx Hx' Hrow Ey Ey').
Qed.

Lemma feedforward_position_wise_witness :
  feedforward_built_as (feedforward_ex 2 3) 2 3 /\
  exists y, FeedForward.forward (feedforward_ex 2 3) (zeros [1; 1; 2]) = Ok y /\
    size y = size (zeros [1; 1; 2]).
Proof.
  assert (Hb : feedforward_built_as (feedforward_ex 2 3) 2 3) by (repeat split).
  split; [exact Hb|].
  destruct (feedforward_position_wise (feedforward_ex 2 3) 2 3 Hb) as (H1 & _).
  apply (H1 (zeros [1; 1; 2]) [1; 1]). reflexivity.
Defined.

(** ** [LayerNorm], row by row *)

Section LayerNormRows.
Local Open Scope R_scope.

Lemma LayerNorm_row_ext (ln : LayerNorm.t) (x x' : Tensor R) (L : list nat)
  (D : nat) (I : list nat) (y y' : Tensor R) :
  size x = L ++ [D] -> size x' = L ++ [D] ->
  size (LayerNorm.gamma ln) = [D] -> size (LayerNorm.beta ln) = [D] ->
  inb I L ->
  (forall j, (j < D)%nat -> data x (I ++ [j]) = data x' (I ++ [j])) ->
  LayerNorm.forward ln x = Ok y -> LayerNorm.forward ln x' = Ok y' ->
  forall j, (j < D)%nat -> data y (I ++ [j]) = data y' (I ++ [j]).
Proof.
  intros Hx Hx' Hg Hb HI Hrow Ey Ey' j Hj.
  destruct (LayerNorm_forward_row ln x L D Hx Hg Hb) as (y1 & E1 & _ & D1).
  destruct (LayerNorm_forward_row ln x' L D Hx' Hg Hb) as (y1' & E1' & _ & D1').
  assert (y1 = y) by congruence. assert (y1' = y') by congruence. subst y1 y1'.
  rewrite (D1 I j HI Hj), (D1' I j HI Hj).
  assert (Hmu : row_mean x D I = row_mean x' D I).
  { unfold row_mean. f_equal. apply rsum_ext. exact Hrow. }
  assert (Hsd : row_std x D I = row_std x' D I).
  { unfold row_std. rewrite Hmu. do 2 f_equal. apply rsum_ext.
    intros c Hc. rewrite (Hrow c Hc). reflexivity. }
  rewrite Hmu, Hsd, (Hrow j Hj). reflexivity.
Qed.

(** Parameters of a width that does not fit the last axis. *)
Lemma LayerNorm_forward_mismatch (ln : LayerNorm.t) (x : Tensor R) (L : list nat)
  (G D : nat) :
  size (LayerNorm.gamma ln) = [G] -> size x = L ++ [D] ->
  G <> D -> G <> 1%nat -> D <> 1%nat ->
  LayerNorm.forward ln x = Raise RuntimeError.
Proof.
  intros Hg Hx HGD HG HD.
  unfold LayerNorm.forward, LayerNorm.forward_from, sub, mul, map2.
  rewrite (mean_last_size x L D Hx), Hx, broadcast_shapes_keepdim. cbn [bind size].
  rewrite Hg. unfold broadcast_shapes. rewrite rev_unit. cbn [rev app broadcast_rev bind].
  destruct (Nat.eqb_spec G D); [contradiction|].
  destruct (Nat.eqb_spec G 1); [contradiction|].
  destruct (Nat.eqb_spec D 1); [contradiction|].
  reflexivity.
Qed.

(** X2: [LayerNorm.forward] with parameters of width [D] keeps the size of
    an input whose last axis has extent [D] and works row by row along
    that axis: two inputs that agree on a row give outputs that agree on
    that row.  An input whose last axis has another extent (neither being
    1, which would broadcast) is refused with a [RuntimeError]. *)
Theorem layernorm_row_wise (ln : LayerNorm.t) (D : nat) :
  size (LayerNorm.gamma ln) = [D] -> size (LayerNorm.beta ln) = [D] ->
  (forall x L, size x = L ++ [D] ->
     exists y, LayerNorm.forward ln x = Ok y /\ size y = size x) /\
  (forall x x' L I y y',
     size x = L ++ [D] -> size x' = L ++ [D] -> inb I L ->
     (forall j, (j < D)%nat -> data x (I ++ [j]) = data x' (I ++ [j])) ->
     LayerNorm.forward ln x = Ok y -> LayerNorm.forward ln x' = Ok y' ->
     forall j, (j < D)%nat -> data y (I ++ [j]) = data y' (I ++ [j])) /\
  (forall x L D', size x = L ++ [D'] ->
     D <> D' -> D <> 1%nat -> D' <> 1%nat ->
     LayerNorm.forward ln x = Raise RuntimeError).
Proof.
  intros Hg Hb. split; [|split].
  - intros x L Hx.
    destruct (LayerNorm_forward_row ln x L D Hx Hg Hb) as (y & Ey & Sy & _).
    exists y. split; [exact Ey|congruence].
  - intros x x' L I y y' Hx Hx' HI Hrow Ey Ey'.
    exact (LayerNorm_row_ext ln x x' L D I y y' Hx Hx' Hg Hb HI Hrow Ey Ey').
  - intros x L D' Hx H1 H2 H3.
    exact (LayerNorm_forward_mismatch ln x L D D' Hg Hx H1 H2 H3).
Qed.


End LayerNormRows.

Lemma layernorm_row_wise_witness :
  exists y, LayerNorm.forward (LayerNorm.init 2 1) ramp2_up = Ok y /\
    size y = size ramp2_up.
Proof.
  apply (proj1 (layernorm_row_wise (LayerNorm.init 2 1) 2 eq_refl eq_refl)
           ramp2_up []).
  reflexivity.
Defined.


(** ** [Attention]: which entries a row of the output reads *)

Section AttentionRows.
Local Open Scope R_scope.


Lemma rsum_pos (n : nat) (f : nat -> R) (k : nat) :
  (k < n)%nat -> 0 < f k -> (forall j, (j < n)%nat -> 0 <= f j) -> 0 < rsum n f.
Proof.
  induction n as [|n IH]; intros Hk Hfk Hall; [lia|]. simpl.
  destruct (Nat.eq_dec k n) as [->|Hne].
  - assert (0 <= rsum n f) by (apply rsum_nonneg; intros; apply Hall; lia). lra.
  - assert (0 < rsum n f) by (apply IH; [lia|exact Hfk|intros; apply Hall; lia]).
    assert (0 <= f n) by (apply Hall; lia). lra.
Qed.


(** Row [t] of the output reads row [t] of the query and the rows of keys
    and values that the mask leaves visible from [t]. *)
Lemma Attention_row_ext (att : Attention.t) (q k v q' k' v' : Tensor R)
  (B Tq Tk D Dv : nat) (o o' : Tensor R) (b t : nat) :
  size q = [B; Tq; D] -> size k = [B; Tk; D] -> size v = [B; Tk; Dv] ->
  size q' = [B; Tq; D] -> size k' = [B; Tk; D] -> size v' = [B; Tk; Dv] ->
  Attention.forward att q k v = Ok o -> Attention.forward att q' k' v' = Ok o' ->
  (b < B)%nat ->
  (forall c, (c < D)%nat -> data q [b; t; c] = data q' [b; t; c]) ->
  (forall j c, (j < Tk)%nat -> (Attention.causal att = true -> (j <= t)%nat) ->
     (c < D)%nat -> data k [b; j; c] = data k' [b; j; c]) ->
  (forall j c, (j < Tk)%nat -> (Attention.causal att = true -> (j <= t)%nat) ->
     (c < Dv)%nat -> data v [b; j; c] = data v' [b; j; c]) ->
  forall c, (c < Dv)%nat -> data o [b; t; c] = data o' [b; t; c].
Proof.
  intros Hq Hk Hv Hq' Hk' Hv' Eo Eo' Hb Hqr Hkr Hvr c Hc.
  destruct (Attention_forward_spec att q k v B Tq Tk D Dv Hq Hk Hv)
    as (s & o1 & Es & Eo1 & _ & Do).
  destruct (Attention_forward_spec att q' k' v' B Tq Tk D Dv Hq' Hk' Hv')
    as (s' & o1' & Es' & Eo1' & _ & Do').
  assert (o1 = o) by congruence. assert (o1' = o') by congruence. subst o1 o1'.
  destruct (Attention_scores_spec att q k B Tq Tk D Hq Hk) as (s2 & Es2 & _ & Ds).
  destruct (Attention_scores_spec att q' k' B Tq Tk D Hq' Hk') as (s2' & Es2' & _ & Ds').
  assert (s2 = s) by congruence. assert (s2' = s') by congruence. subst s2 s2'.
  assert (Hs : forall j, (j < Tk)%nat -> data s [b; t; j] = data s' [b; t; j]).
  { intros j Hj. rewrite (Ds b t j Hb), (Ds' b t j Hb).
    destruct (Attention.causal att && (t <? j)) eqn:Em; [reflexivity|].
    do 2 f_equal. unfold dot. apply rsum_ext. intros e He.
    rewrite (Hqr e He). f_equal. apply Hkr; [exact Hj| |exact He].
    intros Hca. rewrite Hca in Em. cbn [andb] in Em.
    apply Nat.ltb_ge. exact Em. }
  rewrite (Do b t c Hb), (Do' b t c Hb). apply rsum_ext. intros j Hj.
  assert (Hw : attention_weight att s Tk b t j = attention_weight att s' Tk b t j).
  { unfold attention_weight. rewrite (Hs j Hj). do 2 f_equal.
    apply rsum_ext. intros j' Hj'. rewrite (Hs j' Hj'). reflexivity. }
  rewrite Hw.
  destruct (Attention.causal att && (t <? j)) eqn:Em.
  - assert (Hz : attention_weight att s' Tk b t j = 0).
    { unfold attention_weight. rewrite (Ds' b t j Hb), Em. cbn [xexp].
      unfold Rdiv. rewrite Rmult_0_l. apply dropout_entry_0. }
    rewrite Hz, !Rmult_0_l. reflexivity.
  - f_equal. apply Hvr; [exact Hj| |exact Hc].
    intros Hca. rewrite Hca in Em. cbn [andb] in Em.
    apply Nat.ltb_ge. exact Em.
Qed.

End AttentionRows.

Section AttentionWeights.
Local Open Scope R_scope.


End AttentionWeights.


(** ** [Attention]: the operands it refuses *)

(** X5: [Attention.forward] transposes axes 1 and 2 of the key, so a key
    with fewer than three axes is an [IndexError]; for rank-3 operands it
    raises a [RuntimeError] when query and key differ in feature width,
    and when the numbers of key and value positions differ. *)
Theorem attention_rejects (att : Attention.t) (q k v : Tensor R) :
  (dim k < 3 -> Attention.forward att q k v = Raise IndexError) /\
  (forall Bq Tq D Bk Tk Dk,
     size q = [Bq; Tq; D] -> size k = [Bk; Tk; Dk] -> D <> Dk ->
     Attention.forward att q k v = Raise RuntimeError) /\
  (forall B Tq Tk Tv D Dv,
     size q = [B; Tq; D] -> size k = [B; Tk; D] -> size v = [B; Tv; Dv] ->
     Tk <> Tv ->
     Attention.forward att q k v = Raise RuntimeError).
Proof.
  split; [|split].
  - intros Hd. unfold Attention.forward, Attention.scores, transpose.
    unfold dim in *.
    destruct (size k) as [|a [|b [|c r]]]; norm_dims; try reflexivity.
    cbn [length] in Hd. lia.
  - intros Bq Tq D Bk Tk Dk Hq Hk Hne.
    destruct (transpose12_spec k Bk Tk Dk Hk) as (kt & Ekt & Skt & _).
    unfold Attention.forward, Attention.scores. rewrite Ekt. cbn [bind].
    unfold matmul, bmm, dim. rewrite Hq, Skt. cbn [length rev app].
    destruct (Nat.eqb_spec D Dk); [contradiction|reflexivity].
  - intros B Tq Tk Tv D Dv Hq Hk Hv Hne.
    destruct (Attention_scores_spec att q k B Tq Tk D Hq Hk) as (s & Es & Ss & _).
    unfold Attention.forward. rewrite Es. cbn [bind].
    unfold matmul, bmm, dim. rewrite Dropout_forward_size.
    destruct (softmax_spec s [B; Tq] Tk Ss) as [Sw _]. rewrite Sw, Hv.
    cbn [length rev app].
    destruct (Nat.eqb_spec Tk Tv); [contradiction|reflexivity].
Qed.

Lemma attention_rejects_witness :
  dim (zeros [2; 2]) < 3 /\
  Attention.forward (attention_ex 2 false) (zeros [1; 2; 2]) (zeros [2; 2])
    (zeros [1; 2; 2]) = Raise IndexError.
Proof.
  split; [cbn; lia|].
  apply (proj1 (attention_rejects (attention_ex 2 false) (zeros [1; 2; 2])
                  (zeros [2; 2]) (zeros [1; 2; 2]))).
  cbn. lia.
Defined.

(** ** Rows through the position-wise steps *)

Lemma agree_rows_refl (P : nat -> nat -> Prop) (B T D : nat) (x : Tensor R) :
  agree_rows P B T D x x.
Proof. intros b t c _ _ _ _. reflexivity. Qed.

Lemma agree_rows_weaken (P Q : nat -> nat -> Prop) (B T D : nat) (x x' : Tensor R) :
  (forall b t, Q b t -> P b t) -> agree_rows P B T D x x' -> agree_rows Q B T D x x'.
Proof. intros HPQ H b t c Hb Ht HQ Hc. apply H; auto. Qed.

Lemma Linear_agree (l : Linear.t) (P : nat -> nat -> Prop) (B T D : nat)
  (x x' y y' : Tensor R) :
  size x = [B; T; D] -> size x' = [B; T; D] -> Linear.in_features l = D ->
  Linear.forward l x = Ok y -> Linear.forward l x' = Ok y' ->
  agree_rows P B T D x x' ->
  agree_rows P B T (Linear.out_features l) y y'.
Proof.
  intros Hx Hx' Hin Ey Ey' Ha b t o Hb Ht HP _.
  destruct (Linear_forward_at l x [B; T] D Hx Hin) as (y1 & E1 & _ & D1).
  destruct (Linear_forward_at l x' [B; T] D Hx' Hin) as (y1' & E1' & _ & D1').
  assert (y1 = y) by congruence. assert (y1' = y') by congruence. subst y1 y1'.
  change [b; t; o] with ([b; t] ++ [o]). rewrite D1, D1'. f_equal.
  apply rsum_ext. intros c Hc. f_equal. exact (Ha b t c Hb Ht HP Hc).
Qed.

Lemma fold_heads_agree (N : nat) (P : nat -> nat -> Prop) (B T D : nat)
  (x x' y y' : Tensor R) :
  size x = [B; T; D] -> size x' = [B; T; D] -> 0 < N -> Nat.divide N D ->
  MultiHead.fold_heads N x = Ok y -> MultiHead.fold_heads N x' = Ok y' ->
  agree_rows P B T D x x' ->
  agree_rows (fun b' t => P (b' / N) t) (B * N) T (D / N) y y'.
Proof.
  intros Hx Hx' HN Hdiv Ey Ey' Ha b t c Hb Ht HP Hc.
  destruct (fold_heads_at N x B T D Hx HN Hdiv) as (y1 & E1 & _ & D1).
  destruct (fold_heads_at N x' B T D Hx' HN Hdiv) as (y1' & E1' & _ & D1').
  assert (y1 = y) by congruence. assert (y1' = y') by congruence. subst y1 y1'.
  rewrite D1, D1'. apply Ha; [|exact Ht|exact HP|].
  - apply Nat.Div0.div_lt_upper_bound. lia.
  - destruct Hdiv as [z ->]. rewrite Nat.div_mul in Hc by lia.
    pose proof (Nat.mod_upper_bound b N ltac:(lia)). nia.
Qed.

Lemma unfold_heads_agree (N : nat) (P : nat -> nat -> Prop) (B T Dh : nat)
  (x x' s s' u u' : Tensor R) :
  size x = [B * N; T; Dh] -> size x' = [B * N; T; Dh] -> 0 < N ->
  split_dim 0 N x = Ok s -> combine_dims (-1) 1 s = Ok u ->
  split_dim 0 N x' = Ok s' -> combine_dims (-1) 1 s' = Ok u' ->
  agree_rows (fun b' t => P (b' / N) t) (B * N) T Dh x x' ->
  agree_rows P B T (Dh * N) u u'.
Proof.
  intros Hx Hx' HN Es Eu Es' Eu' Ha b t c Hb Ht HP Hc.
  destruct (unfold_heads_at N x B T Dh Hx HN) as (s1 & u1 & E1 & F1 & _ & D1).
  destruct (unfold_heads_at N x' B T Dh Hx' HN) as (s1' & u1' & E1' & F1' & _ & D1').
  assert (s1 = s) by congruence. assert (s1' = s') by congruence. subst s1 s1'.
  assert (u1 = u) by congruence. assert (u1' = u') by congruence. subst u1 u1'.
  pose proof (Nat.mod_upper_bound c N ltac:(lia)) as Hr.
  assert (Hq : (b * N + c mod N) / N = b).
  { rewrite Nat.div_add_l by lia. rewrite (Nat.div_small _ _ Hr). lia. }
  rewrite D1, D1'. apply Ha; [|exact Ht| |].
  - nia.
  - cbn beta. rewrite Hq. exact HP.
  - apply Nat.Div0.div_lt_upper_bound. lia.
Qed.

Lemma LayerNorm_agree (ln : LayerNorm.t) (P : nat -> nat -> Prop) (B T D : nat)
  (x x' n n' : Tensor R) :
  size x = [B; T; D] -> size x' = [B; T; D] ->
  size (LayerNorm.gamma ln) = [D] -> size (LayerNorm.beta ln) = [D] ->
  LayerNorm.forward ln x = Ok n -> LayerNorm.forward ln x' = Ok n' ->
  agree_rows P B T D x x' -> agree_rows P B T D n n'.
Proof.
  intros Hx Hx' Hg Hb En En' Ha b t c Hbb Ht HP Hc.
  assert (HI : inb [b; t] [B; T]) by (repeat constructor; assumption).
  change [b; t; c] with ([b; t] ++ [c]).
  apply (LayerNorm_row_ext ln x x' [B; T] D [b; t] n n' Hx Hx' Hg Hb HI);
    [|exact En|exact En'|exact Hc].
  intros j Hj. exact (Ha b t j Hbb Ht HP Hj).
Qed.

Lemma Attention_agree (att : Attention.t) (P Pk : nat -> nat -> Prop)
  (B Tq Tk D Dv : nat) (q k v q' k' v' o o' : Tensor R) :
  size q = [B; Tq; D] -> size k = [B; Tk; D] -> size v = [B; Tk; Dv] ->
  size q' = [B; Tq; D] -> size k' = [B; Tk; D] -> size v' = [B; Tk; Dv] ->
  Attention.forward att q k v = Ok o -> Attention.forward att q' k' v' = Ok o' ->
  (forall b t j, P b t -> (Attention.causal att = true -> j <= t) -> Pk b j) ->
  agree_rows P B Tq D q q' ->
  agree_rows Pk B Tk D k k' -> agree_rows Pk B Tk Dv v v' ->
  agree_rows P B Tq Dv o o'.
Proof.
  intros Hq Hk Hv Hq' Hk' Hv' Eo Eo' Hlink Aq Ak Av b t c Hb Ht HP Hc.
  apply (Attention_row_ext att q k v q' k' v' B Tq Tk D Dv o o' b t
           Hq Hk Hv Hq' Hk' Hv' Eo Eo' Hb); [| | |exact Hc].
  - intros e He. exact (Aq b t e Hb Ht HP He).
  - intros j e Hj Hvis He. apply (Ak b j e Hb Hj); [|exact He].
    exact (Hlink b t j HP Hvis).
  - intros j e Hj Hvis He. apply (Av b j e Hb Hj); [|exact He].
    exact (Hlink b t j HP Hvis).
Qed.

Lemma MultiHead_forward_ok (m : MultiHead.t) (query key value : Tensor R)
  (B Tq Tk d_key d_value N : nat) :
  built_as m d_key d_value N -> 0 < N ->
  Nat.divide N d_key -> Nat.divide N d_value ->
  size query = [B; Tq; d_key] -> size key = [B; Tk; d_key] ->
  size value = [B; Tk; d_value] ->
  exists out, MultiHead.forward m query key value = Ok out /\
    size out = [B; Tq; d_key].
Proof.
  intros Hm HN Hdk Hdv Hq Hk Hv.
  destruct (MultiHead_forward_steps m query key value B Tq Tk d_key d_value N
              Hm HN Hdk Hdv Hq Hk Hv)
    as (q1 & k1 & v1 & qh & kh & vh & oh & s & u & out & _ & _ & _ & _ & _ & _
        & _ & _ & (_ & So) & Eo).
  exists out. split; assumption.
Qed.

(** The rows of the output that satisfy [P] are fixed by the rows of the
    query that satisfy [P] and the rows of key and value that satisfy
    [Pk], when [Pk] holds of every position a row of [P] attends to. *)
Lemma MultiHead_agree (m : MultiHead.t) (P Pk : nat -> nat -> Prop)
  (query key value query' key' value' o o' : Tensor R)
  (B Tq Tk d_key d_value N : nat) :
  built_as m d_key d_value N -> 0 < N ->
  Nat.divide N d_key -> Nat.divide N d_value ->
  size query = [B; Tq; d_key] -> size key = [B; Tk; d_key] ->
  size value = [B; Tk; d_value] ->
  size query' = [B; Tq; d_key] -> size key' = [B; Tk; d_key] ->
  size value' = [B; Tk; d_value] ->
  MultiHead.forward m query key value = Ok o ->
  MultiHead.forward m query' key' value' = Ok o' ->
  (forall b t j, P b t ->
     (Attention.causal (MultiHead.attention m) = true -> j <= t) -> Pk b j) ->
  agree_rows P B Tq d_key query query' ->
  agree_rows Pk B Tk d_key key key' ->
  agree_rows Pk B Tk d_value value value' ->
  agree_rows P B Tq d_key o o'.
Proof.
  intros Hm HN Hdk Hdv Hq Hk Hv Hq' Hk' Hv' Eo Eo' Hlink Aq Ak Av.
  destruct (MultiHead_forward_steps m query key value B Tq Tk d_key d_value N
              Hm HN Hdk Hdv Hq Hk Hv)
    as (q1 & k1 & v1 & qh & kh & vh & oh & s & u & out
        & (Eq1 & Sq1) & (Ek1 & Sk1) & (Ev1 & Sv1)
        & (Eqh & Sqh) & (Ekh & Skh) & (Evh & Svh) & (Eoh & Soh)
        & (Es & Eu & Su) & (Eout & Sout) & Efw).
  destruct (MultiHead_forward_steps m query' key' value' B Tq Tk d_key d_value N
              Hm HN Hdk Hdv Hq' Hk' Hv')
    as (q1' & k1' & v1' & qh' & kh' & vh' & oh' & s' & u' & out'
        & (Eq1' & Sq1') & (Ek1' & Sk1') & (Ev1' & Sv1')
        & (Eqh' & Sqh') & (Ekh' & Skh') & (Evh' & Svh') & (Eoh' & Soh')
        & (Es' & Eu' & Su') & (Eout' & Sout') & Efw').
  assert (out = o) by congruence. assert (out' = o') by congruence. subst out out'.
  destruct Hm as (Hqi & Hqo & Hki & Hko & Hvi & Hvo & Hoi & Hoo & Hn).
  pose proof (Linear_agree _ _ B Tq d_key query query' q1 q1' Hq Hq' Hqi Eq1 Eq1' Aq)
    as A1. rewrite Hqo in A1.
  pose proof (Linear_agree _ _ B Tk d_key key key' k1 k1' Hk Hk' Hki Ek1 Ek1' Ak)
    as A2. rewrite Hko in A2.
  pose proof (Linear_agree _ _ B Tk d_value value value' v1 v1' Hv Hv' Hvi Ev1 Ev1' Av)
    as A3. rewrite Hvo in A3.
  pose proof (fold_heads_agree N _ B Tq d_key q1 q1' qh qh' Sq1 Sq1' HN Hdk Eqh Eqh' A1)
    as F1.
  pose proof (fold_heads_agree N _ B Tk d_key k1 k1' kh kh' Sk1 Sk1' HN Hdk Ekh Ekh' A2)
    as F2.
  pose proof (fold_heads_agree N _ B Tk d_value v1 v1' vh vh' Sv1 Sv1' HN Hdv Evh Evh' A3)
    as F3.
  pose proof (Attention_agree (MultiHead.attention m) _ _ (B * N) Tq Tk
                (d_key / N) (d_value / N) qh kh vh qh' kh' vh' oh oh'
                Sqh Skh Svh Sqh' Skh' Svh' Eoh Eoh'
                (fun b' t j => Hlink (b' / N) t j) F1 F2 F3) as A4.
  pose proof (unfold_heads_agree N P B Tq (d_value / N) oh oh' s s' u u'
                Soh Soh' HN Es Eu Es' Eu' A4) as A5.
  assert (Hback : d_value / N * N = d_value).
  { destruct Hdv as [z ->]. rewrite Nat.div_mul by lia. reflexivity. }
  rewrite Hback in A5.
  pose proof (Linear_agree _ _ B Tq d_value u u' o o' Su Su' Hoi Eout Eout' A5) as A6.
  rewrite Hoo in A6. exact A6.
Qed.

(** ** [ResidualBlock.forward] around a layer that keeps the size *)

Lemma ResidualBlock_forward_at {Lyr : Type} `{Module Lyr}
  (rb : ResidualBlock.t Lyr) (x0 : Tensor R) (rest : list (Tensor R))
  (y : Tensor R) (Ls : list nat) (D : nat) :
  call (ResidualBlock.layer rb) (x0 :: rest) = Ok y ->
  size x0 = Ls ++ [D] -> size y = Ls ++ [D] -> norm_width rb D ->
  exists n out,
    LayerNorm.forward (ResidualBlock.norm rb) y = Ok n /\ size n = Ls ++ [D] /\
    ResidualBlock.forward rb (x0 :: rest) = Ok out /\ size out = Ls ++ [D] /\
    forall idx, inb idx (Ls ++ [D]) ->
      data out idx
      = (data x0 idx + dropout_entry (ResidualBlock.dropout rb) idx (data n idx))%R.
Proof.
  intros Ey Hx Hy (Hg & Hb).
  destruct (LayerNorm_forward_row (ResidualBlock.norm rb) y Ls D Hy Hg Hb)
    as (n & En & Sn & _).
  assert (Hsz : size x0 = size (Dropout.forward (ResidualBlock.dropout rb) n)).
  { rewrite Dropout_forward_size. congruence. }
  destruct (map2_same_size Rplus x0 _ Hsz) as (out & Eout & Sout & Dout).
  exists n, out. split; [exact En|]. split; [exact Sn|].
  split.
  { unfold ResidualBlock.forward. rewrite Ey. cbn [bind]. rewrite En. cbn [bind].
    exact Eout. }
  split; [congruence|].
  intros idx Hidx. rewrite Dout by (rewrite Hx; exact Hidx).
  rewrite Dropout_forward_at. reflexivity.
Qed.

Lemma ResidualBlock_agree {Lyr : Type} `{Module Lyr}
  (rb : ResidualBlock.t Lyr) (P : nat -> nat -> Prop) (B T D : nat)
  (x0 x0' : Tensor R) (rest rest' : list (Tensor R)) (y y' out out' : Tensor R) :
  call (ResidualBlock.layer rb) (x0 :: rest) = Ok y ->
  call (ResidualBlock.layer rb) (x0' :: rest') = Ok y' ->
  size x0 = [B; T; D] -> size x0' = [B; T; D] ->
  size y = [B; T; D] -> size y' = [B; T; D] -> norm_width rb D ->
  ResidualBlock.forward rb (x0 :: rest) = Ok out ->
  ResidualBlock.forward rb (x0' :: rest') = Ok out' ->
  agree_rows P B T D x0 x0' -> agree_rows P B T D y y' ->
  agree_rows P B T D out out'.
Proof.
  intros Ey Ey' Hx Hx' Hy Hy' Hw Eo Eo' Ax Ay.
  destruct (ResidualBlock_forward_at rb x0 rest y [B; T] D Ey Hx Hy Hw)
    as (n & o1 & En & Sn & E1 & _ & D1).
  destruct (ResidualBlock_forward_at rb x0' rest' y' [B; T] D Ey' Hx' Hy' Hw)
    as (n' & o1' & En' & Sn' & E1' & _ & D1').
  assert (o1 = out) by congruence. assert (o1' = out') by congruence. subst o1 o1'.
  destruct Hw as (Hg & Hb).
  pose proof (LayerNorm_agree _ P B T D y y' n n' Hy Hy' Hg Hb En En' Ay) as An.
  intros b t c Hbb Ht HP Hc.
  assert (Hidx : inb [b; t; c] ([B; T] ++ [D])) by (repeat constructor; assumption).
  rewrite (D1 _ Hidx), (D1' _ Hidx).
  rewrite (Ax b t c Hbb Ht HP Hc), (An b t c Hbb Ht HP Hc). reflexivity.
Qed.

(** ** Encoder and decoder layers *)

Lemma attention_block_forward (rb : ResidualBlock.t MultiHead.t)
  (x key value : Tensor R) (B T Tk d N : nat) :
  built_as (ResidualBlock.layer rb) d d N -> norm_width rb d ->
  0 < N -> Nat.divide N d ->
  size x = [B; T; d] -> size key = [B; Tk; d] -> size value = [B; Tk; d] ->
  exists y out,
    MultiHead.forward (ResidualBlock.layer rb) x key value = Ok y /\
    size y = [B; T; d] /\
    ResidualBlock.forward rb [x; key; value] = Ok out /\ size out = [B; T; d].
Proof.
  intros Hm Hw HN Hdiv Hx Hk Hv.
  destruct (MultiHead_forward_ok _ x key value B T Tk d d N Hm HN Hdiv Hdiv Hx Hk Hv)
    as (y & Ey & Sy).
  destruct (ResidualBlock_forward_at rb x [key; value] y [B; T] d Ey Hx Sy Hw)
    as (n & out & _ & _ & Eo & So & _).
  exists y, out. repeat split; assumption.
Qed.

Lemma feedforward_block_forward (rb : ResidualBlock.t FeedForward.t)
  (x : Tensor R) (B T d h : nat) :
  feedforward_built_as (ResidualBlock.layer rb) d h -> norm_width rb d ->
  size x = [B; T; d] ->
  exists y out,
    FeedForward.forward (ResidualBlock.layer rb) x = Ok y /\
    size y = [B; T; d] /\
    ResidualBlock.forward rb [x] = Ok out /\ size out = [B; T; d].
Proof.
  intros Hf Hw Hx.
  destruct (FeedForward_forward_at _ x [B; T] d h Hf Hx)
    as (hid & y & _ & _ & Ey & Sy & _).
  destruct (ResidualBlock_forward_at rb x [] y [B; T] d Ey Hx Sy Hw)
    as (n & out & _ & _ & Eo & So & _).
  exists y, out. repeat split; assumption.
Qed.

Lemma attention_block_agree (rb : ResidualBlock.t MultiHead.t)
  (P Pk : nat -> nat -> Prop)
  (x key value x' key' value' out out' : Tensor R) (B T Tk d N : nat) :
  built_as (ResidualBlock.layer rb) d d N -> norm_width rb d ->
  0 < N -> Nat.divide N d ->
  size x = [B; T; d] -> size key = [B; Tk; d] -> size value = [B; Tk; d] ->
  size x' = [B; T; d] -> size key' = [B; Tk; d] -> size value' = [B; Tk; d] ->
  ResidualBlock.forward rb [x; key; value] = Ok out ->
  ResidualBlock.forward rb [x'; key'; value'] = Ok out' ->
  (forall b t j, P b t ->
     (Attention.causal (MultiHead.attention (ResidualBlock.layer rb)) = true
      -> j <= t) -> Pk b j) ->
  agree_rows P B T d x x' ->
  agree_rows Pk B Tk d key key' -> agree_rows Pk B Tk d value value' ->
  agree_rows P B T d out out'.
Proof.
  intros Hm Hw HN Hdiv Hx Hk Hv Hx' Hk' Hv' Eo Eo' Hlink Ax Ak Av.
  destruct (attention_block_forward rb x key value B T Tk d N Hm Hw HN Hdiv Hx Hk Hv)
    as (y & o1 & Ey & Sy & _ & _).
  destruct (attention_block_forward rb x' key' value' B T Tk d N Hm Hw HN Hdiv
              Hx' Hk' Hv')
    as (y' & o1' & Ey' & Sy' & _ & _).
  pose proof (MultiHead_agree _ P Pk x key value x' key' value' y y' B T Tk d d N
                Hm HN Hdiv Hdiv Hx Hk Hv Hx' Hk' Hv' Ey Ey' Hlink Ax Ak Av) as Ay.
  exact (ResidualBlock_agree rb _ B T d x x' [key; value] [key'; value'] y y' out out'
           Ey Ey' Hx Hx' Sy Sy' Hw Eo Eo' Ax Ay).
Qed.

Lemma feedforward_block_agree (rb : ResidualBlock.t FeedForward.t)
  (P : nat -> nat -> Prop) (x x' out out' : Tensor R) (B T d h : nat) :
  feedforward_built_as (ResidualBlock.layer rb) d h -> norm_width rb d ->
  size x = [B; T; d] -> size x' = [B; T; d] ->
  ResidualBlock.forward rb [x] = Ok out ->
  ResidualBlock.forward rb [x'] = Ok out' ->
  agree_rows P B T d x x' -> agree_rows P B T d out out'.
Proof.
  intros Hf Hw Hx Hx' Eo Eo' Ax.
  destruct (feedforward_block_forward rb x B T d h Hf Hw Hx)
    as (y & o1 & Ey & Sy & _ & _).
  destruct (feedforward_block_forward rb x' B T d h Hf Hw Hx')
    as (y' & o1' & Ey' & Sy' & _ & _).
  assert (Ay : agree_rows P B T d y y').
  { intros b t c Hb Ht HP Hc. change [b; t; c] with ([b; t] ++ [c]).
    apply (FeedForward_row_ext _ d h x x' [B; T] [b; t] y y' Hf Hx Hx'); try assumption.
    intros e He. exact (Ax b t e Hb Ht HP He). }
  exact (ResidualBlock_agree rb P B T d x x' [] [] y y' out out'
           Ey Ey' Hx Hx' Sy Sy' Hw Eo Eo' Ax Ay).
Qed.

Lemma EncoderLayer_forward_ok (l : EncoderLayer.t) (x : Tensor R)
  (B T d h N : nat) :
  encoder_layer_built_as l d h N -> 0 < N -> Nat.divide N d ->
  size x = [B; T; d] ->
  exists y, EncoderLayer.forward l x = Ok y /\ size y = [B; T; d].
Proof.
  intros (Hm & _ & Hw1 & Hf & Hw2) HN Hdiv Hx.
  destruct (attention_block_forward _ x x x B T T d N Hm Hw1 HN Hdiv Hx Hx Hx)
    as (y1 & x1 & _ & _ & E1 & S1).
  destruct (feedforward_block_forward _ x1 B T d h Hf Hw2 S1)
    as (y2 & x2 & _ & _ & E2 & S2).
  exists x2. split; [|exact S2].
  unfold EncoderLayer.forward. rewrite E1. cbn [bind]. exact E2.
Qed.

Lemma DecoderLayer_forward_steps (l : DecoderLayer.t) (x enc : Tensor R)
  (B T Tk d h N : nat) :
  decoder_layer_built_as l d h N -> 0 < N -> Nat.divide N d ->
  size x = [B; T; d] -> size enc = [B; Tk; d] ->
  exists x1 x2 y,
    ResidualBlock.forward (DecoderLayer.selfattn l) [x; x; x] = Ok x1 /\
    size x1 = [B; T; d] /\
    ResidualBlock.forward (DecoderLayer.attention l) [x1; enc; enc] = Ok x2 /\
    size x2 = [B; T; d] /\
    ResidualBlock.forward (DecoderLayer.feedforward l) [x2] = Ok y /\
    size y = [B; T; d] /\
    DecoderLayer.forward l x enc = Ok y.
Proof.
  intros (Hm1 & _ & Hw1 & Hm2 & _ & Hw2 & Hf & Hw3) HN Hdiv Hx He.
  destruct (attention_block_forward _ x x x B T T d N Hm1 Hw1 HN Hdiv Hx Hx Hx)
    as (y1 & x1 & _ & _ & E1 & S1).
  destruct (attention_block_forward _ x1 enc enc B T Tk d N Hm2 Hw2 HN Hdiv S1 He He)
    as (y2 & x2 & _ & _ & E2 & S2).
  destruct (feedforward_block_forward _ x2 B T d h Hf Hw3 S2)
    as (y3 & x3 & _ & _ & E3 & S3).
  exists x1, x2, x3. repeat (split; [assumption|]).
  unfold DecoderLayer.forward. rewrite E1. cbn [bind]. rewrite E2. cbn [bind].
  exact E3.
Qed.

(** Rows closed under looking back: whatever a causal row attends to is
    again a row of [P]. *)
Lemma DecoderLayer_agree (l : DecoderLayer.t) (P : nat -> nat -> Prop)
  (x x' enc o o' : Tensor R) (B T Tk d h N : nat) :
  decoder_layer_built_as l d h N -> 0 < N -> Nat.divide N d ->
  size x = [B; T; d] -> size x' = [B; T; d] -> size enc = [B; Tk; d] ->
  DecoderLayer.forward l x enc = Ok o -> DecoderLayer.forward l x' enc = Ok o' ->
  (forall b t j, P b t -> j <= t -> P b j) ->
  agree_rows P B T d x x' -> agree_rows P B T d o o'.
Proof.
  intros Hl HN Hdiv Hx Hx' He Eo Eo' Hclosed Ax.
  destruct (DecoderLayer_forward_steps l x enc B T Tk d h N Hl HN Hdiv Hx He)
    as (x1 & x2 & y & E1 & S1 & E2 & S2 & E3 & S3 & Ef).
  destruct (DecoderLayer_forward_steps l x' enc B T Tk d h N Hl HN Hdiv Hx' He)
    as (x1' & x2' & y' & E1' & S1' & E2' & S2' & E3' & S3' & Ef').
  assert (y = o) by congruence. assert (y' = o') by congruence. subst y y'.
  destruct Hl as (Hm1 & Hc1 & Hw1 & Hm2 & Hc2 & Hw2 & Hf & Hw3).
  assert (A1 : agree_rows P B T d x1 x1').
  { apply (attention_block_agree _ P P x x x x' x' x' x1 x1' B T T d N
             Hm1 Hw1 HN Hdiv Hx Hx Hx Hx' Hx' Hx' E1 E1'); try exact Ax.
    intros b t j HP Hvis. exact (Hclosed b t j HP (Hvis Hc1)). }
  assert (A2 : agree_rows P B T d x2 x2').
  { apply (attention_block_agree _ P (fun _ _ => True) x1 enc enc x1' enc enc x2 x2'
             B T Tk d N Hm2 Hw2 HN Hdiv S1 He He S1' He He E2 E2');
      [intros; exact I|exact A1|apply agree_rows_refl|apply agree_rows_refl]. }
  exact (feedforward_block_agree _ _ x2 x2' o o' B T d h Hf Hw3 S2 S2' E3 E3' A2).
Qed.

Lemma EncoderLayer_agree (l : EncoderLayer.t) (P : nat -> nat -> Prop)
  (x x' o o' : Tensor R) (B T d h N : nat) :
  encoder_layer_built_as l d h N -> 0 < N -> Nat.divide N d ->
  size x = [B; T; d] -> size x' = [B; T; d] ->
  EncoderLayer.forward l x = Ok o -> EncoderLayer.forward l x' = Ok o' ->
  (forall b t j, P b t -> P b j) ->
  agree_rows P B T d x x' -> agree_rows P B T d o o'.
Proof.
  intros (Hm & _ & Hw1 & Hf & Hw2) HN Hdiv Hx Hx' Eo Eo' Hclosed Ax.
  destruct (attention_block_forward _ x x x B T T d N Hm Hw1 HN Hdiv Hx Hx Hx)
    as (y1 & x1 & _ & _ & E1 & S1).
  destruct (attention_block_forward _ x' x' x' B T T d N Hm Hw1 HN Hdiv Hx' Hx' Hx')
    as (y1' & x1' & _ & _ & E1' & S1').
  unfold EncoderLayer.forward in Eo, Eo'. rewrite E1 in Eo. rewrite E1' in Eo'.
  cbn [bind] in Eo, Eo'.
  assert (A1 : agree_rows P B T d x1 x1').
  { apply (attention_block_agree _ P P x x x x' x' x' x1 x1' B T T d N
             Hm Hw1 HN Hdiv Hx Hx Hx Hx' Hx' Hx' E1 E1'); try exact Ax.
    intros b t j HP _. exact (Hclosed b t j HP). }
  exact (feedforward_block_agree _ _ x1 x1' o o' B T d h Hf Hw2 S1 S1' Eo Eo' A1).
Qed.

(** ** The input stage of [Encoder.forward] and [Decoder.forward] *)

Lemma all_indices_inb (sz : list nat) :
  forall idx, In idx (all_indices sz) <-> inb idx sz.
Proof.
  induction sz as [|d r IH]; intros idx; cbn [all_indices].
  - split.
    + intros [<-|[]]. constructor.
    + intros Hi. inversion Hi. left. reflexivity.
  - rewrite in_flat_map. split.
    + intros (i & Hi & Hm). apply in_map_iff in Hm. destruct Hm as (tl & <- & Htl).
      apply in_seq in Hi. constructor; [lia|]. apply IH. exact Htl.
    + intros Hi. inversion Hi as [|i d' tl r' Hlt Htl]; subst.
      exists i. split; [apply in_seq; lia|].
      apply in_map. apply IH. exact Htl.
Qed.

Section EmbedInput.
Local Open Scope R_scope.

Variable out : Linear.t.
Variable d_model : nat.
Variable dropout : Dropout.t.
Variables B T V D : nat.

Hypothesis weight_size : size (Linear.weight out) = [V; D].

Lemma embed_input_spec (x : Tensor nat) :
  size x = [B; T] -> (0 < T)%nat -> Nat.Even D ->
  (forall b t, (b < B)%nat -> (t < T)%nat -> (data x [b; t] < V)%nat) ->
  exists e, embed_input out d_model dropout x = Ok e /\ size e = [B; T; D] /\
    forall b t c, (b < B)%nat -> (t < T)%nat -> (c < D)%nat ->
      data e [b; t; c]
      = dropout_entry dropout [b; t; c]
          (embedded_entry out d_model D (data x [b; t]) t c).
Proof.
  intros Hx HT HD Hv.
  unfold embed_input, embedding. cbn [tmap size]. rewrite weight_size.
  assert (Hall : forallb (fun i => (data x i <? V)%nat) (all_indices (size x)) = true).
  { apply forallb_forall. intros idx Hin. apply all_indices_inb in Hin.
    rewrite Hx in Hin. inversion Hin as [|b ? tl ? Hb Htl]; subst.
    inversion Htl as [|t ? tl' ? Ht Htl']; subst. inversion Htl'; subst.
    apply Nat.ltb_lt. apply Hv; assumption. }
  rewrite Hall. cbn [bind]. rewrite Hx.
  set (e0 := mkTensor ([B; T] ++ [D]) _).
  assert (S0 : size e0 = [B] ++ [T; D]) by reflexivity.
  destruct (positional_encodings_spec e0 [B] T D S0 ltac:(discriminate) HT HD)
    as (pe & Epe & Spe & Dpe).
  rewrite Epe. cbn [bind].
  destruct (map2_same_size Rplus e0 pe (eq_sym Spe)) as (s & Es & Ss & Ds).
  unfold iadd. unfold add. rewrite Es. cbn [bind].
  destruct (list_eq_dec Nat.eq_dec (size s) (size e0)) as [_|Hne];
    [|contradiction].
  eexists. split; [reflexivity|]. split.
  { rewrite Dropout_forward_size. rewrite Ss. reflexivity. }
  intros b t c Hb Ht Hc. rewrite Dropout_forward_at. f_equal.
  rewrite Ds by (repeat constructor; assumption).
  change [b; t; c] with ([b] ++ [t; c]) at 2.
  rewrite Dpe by (try (repeat constructor; assumption); assumption).
  reflexivity.
Qed.

(** A token outside the table stops the lookup. *)
Lemma embed_input_out_of_vocabulary (x : Tensor nat) (b t : nat) :
  size x = [B; T] -> (b < B)%nat -> (t < T)%nat -> (V <= data x [b; t])%nat ->
  embed_input out d_model dropout x = Raise IndexError.
Proof.
  intros Hx Hb Ht Hbad.
  unfold embed_input, embedding. cbn [tmap size]. rewrite weight_size.
  assert (Hall : forallb (fun i => (data x i <? V)%nat) (all_indices (size x)) = false).
  { destruct (forallb _ _) eqn:E; [|reflexivity]. exfalso.
    rewrite forallb_forall in E.
    assert (Hin : In [b; t] (all_indices (size x))).
    { apply all_indices_inb. rewrite Hx. repeat constructor; assumption. }
    specialize (E _ Hin). apply Nat.ltb_lt in E. lia. }
  rewrite Hall. reflexivity.
Qed.

(** An odd width stops the positional encodings. *)
Lemma embed_input_odd_width (x : Tensor nat) :
  size x = [B; T] -> (0 < T)%nat -> Nat.Odd D ->
  (forall b t, (b < B)%nat -> (t < T)%nat -> (data x [b; t] < V)%nat) ->
  embed_input out d_model dropout x = Raise RuntimeError.
Proof.
  intros Hx HT HD Hv.
  unfold embed_input, embedding. cbn [tmap size]. rewrite weight_size.
  assert (Hall : forallb (fun i => (data x i <? V)%nat) (all_indices (size x)) = true).
  { apply forallb_forall. intros idx Hin. apply all_indices_inb in Hin.
    rewrite Hx in Hin. inversion Hin as [|b ? tl ? Hb Htl]; subst.
    inversion Htl as [|t ? tl' ? Ht Htl']; subst. inversion Htl'; subst.
    apply Nat.ltb_lt. apply Hv; assumption. }
  rewrite Hall. cbn [bind]. rewrite Hx.
  set (e0 := mkTensor ([B; T] ++ [D]) _).
  assert (S0 : size e0 = [B] ++ [T; D]) by reflexivity.
  rewrite (positional_encodings_odd e0 [B] T D S0 HT HD). reflexivity.
Qed.

Lemma embed_input_agree (x x' : Tensor nat) (P : nat -> nat -> Prop)
  (e e' : Tensor R) :
  size x = [B; T] -> size x' = [B; T] -> (0 < T)%nat -> Nat.Even D ->
  (forall b t, (b < B)%nat -> (t < T)%nat -> (data x [b; t] < V)%nat) ->
  (forall b t, (b < B)%nat -> (t < T)%nat -> (data x' [b; t] < V)%nat) ->
  (forall b t, (b < B)%nat -> (t < T)%nat -> P b t ->
     data x [b; t] = data x' [b; t]) ->
  embed_input out d_model dropout x = Ok e ->
  embed_input out d_model dropout x' = Ok e' ->
  agree_rows P B T D e e'.
Proof.
  intros Hx Hx' HT HD Hv Hv' Ha Ee Ee'.
  destruct (embed_input_spec x Hx HT HD Hv) as (e1 & E1 & _ & D1).
  destruct (embed_input_spec x' Hx' HT HD Hv') as (e1' & E1' & _ & D1').
  assert (e1 = e) by congruence. assert (e1' = e') by congruence. subst e1 e1'.
  intros b t c Hb Ht HP Hc.
  rewrite (D1 b t c Hb Ht Hc), (D1' b t c Hb Ht Hc), (Ha b t Hb Ht HP).
  reflexivity.
Qed.

End EmbedInput.

(** ** The stacks *)

Lemma Encoder_loop_sizes (B T D h N : nat) (ls : list EncoderLayer.t) :
  0 < N -> Nat.divide N D ->
  Forall (fun l => encoder_layer_built_as l D h N) ls ->
  forall (x : Tensor R) (acc : list (Tensor R)),
    size x = [B; T; D] ->
    Forall (fun y => size y = [B; T; D]) acc ->
    exists enc, Encoder.loop ls x acc = Ok enc /\
      length enc = length acc + length ls /\
      Forall (fun y => size y = [B; T; D]) enc.
Proof.
  intros HN Hdiv Hls. induction Hls as [|l ls Hl Hls IH]; intros x acc Hx Hacc.
  - exists acc. cbn. split; [reflexivity|]. split; [lia|exact Hacc].
  - destruct (EncoderLayer_forward_ok l x B T D h N Hl HN Hdiv Hx) as (y & Ey & Sy).
    destruct (IH y (acc ++ [y]) Sy) as (enc & Ee & Le & Fe).
    { apply Forall_app. split; [exact Hacc|]. constructor; [exact Sy|constructor]. }
    exists enc. cbn [Encoder.loop]. rewrite Ey. cbn [bind].
    split; [exact Ee|]. split; [|exact Fe].
    rewrite Le, length_app. cbn. lia.
Qed.

Lemma Decoder_loop_ok (B T D h N : nat) (ls : list DecoderLayer.t) :
  0 < N -> Nat.divide N D ->
  Forall (fun l => decoder_layer_built_as l D h N) ls ->
  forall (encoding : list (Tensor R)) (x : Tensor R),
    encodings_of B D encoding -> size x = [B; T; D] ->
    exists y, Decoder.loop (combine ls encoding) x = Ok y /\ size y = [B; T; D].
Proof.
  intros HN Hdiv Hls. induction Hls as [|l ls Hl Hls IH]; intros encoding x He Hx.
  - exists x. split; [reflexivity|exact Hx].
  - destruct encoding as [|e encoding].
    + exists x. split; [reflexivity|exact Hx].
    + inversion He as [|? ? (Tk & Se) He']; subst.
      destruct (DecoderLayer_forward_steps l x e B T Tk D h N Hl HN Hdiv Hx Se)
        as (x1 & x2 & y & _ & _ & _ & _ & _ & Sy & Ey).
      destruct (IH encoding y He' Sy) as (z & Ez & Sz).
      exists z. cbn [combine Decoder.loop]. rewrite Ey. cbn [bind].
      split; assumption.
Qed.

Lemma Decoder_loop_agree (P : nat -> nat -> Prop) (B T D h N : nat)
  (ls : list DecoderLayer.t) :
  0 < N -> Nat.divide N D ->
  (forall b t j, P b t -> j <= t -> P b j) ->
  Forall (fun l => decoder_layer_built_as l D h N) ls ->
  forall (encoding : list (Tensor R)) (x x' o o' : Tensor R),
    encodings_of B D encoding ->
    size x = [B; T; D] -> size x' = [B; T; D] ->
    Decoder.loop (combine ls encoding) x = Ok o ->
    Decoder.loop (combine ls encoding) x' = Ok o' ->
    agree_rows P B T D x x' -> agree_rows P B T D o o'.
Proof.
  intros HN Hdiv Hclosed Hls.
  induction Hls as [|l ls Hl Hls IH]; intros encoding x x' o o' He Hx Hx' Eo Eo' Ax.
  - cbn in Eo, Eo'. inversion Eo; inversion Eo'; subst. exact Ax.
  - destruct encoding as [|e encoding].
    + cbn in Eo, Eo'. inversion Eo; inversion Eo'; subst. exact Ax.
    + inversion He as [|? ? (Tk & Se) He']; subst.
      destruct (DecoderLayer_forward_steps l x e B T Tk D h N Hl HN Hdiv Hx Se)
        as (x1 & x2 & y & _ & _ & _ & _ & _ & Sy & Ey).
      destruct (DecoderLayer_forward_steps l x' e B T Tk D h N Hl HN Hdiv Hx' Se)
        as (x1' & x2' & y' & _ & _ & _ & _ & _ & Sy' & Ey').
      cbn [combine Decoder.loop] in Eo, Eo'.
      rewrite Ey in Eo. rewrite Ey' in Eo'. cbn [bind] in Eo, Eo'.
      apply (IH encoding y y' o o' He' Sy Sy' Eo Eo').
      exact (DecoderLayer_agree l P x x' e y y' B T Tk D h N Hl HN Hdiv
               Hx Hx' Se Ey Ey' Hclosed Ax).
Qed.

Lemma Encoder_loop_agree (P : nat -> nat -> Prop) (B T D h N : nat)
  (ls : list EncoderLayer.t) :
  0 < N -> Nat.divide N D ->
  (forall b t j, P b t -> P b j) ->
  Forall (fun l => encoder_layer_built_as l D h N) ls ->
  forall (x x' : Tensor R) (acc acc' enc enc' : list (Tensor R)),
    size x = [B; T; D] -> size x' = [B; T; D] ->
    Encoder.loop ls x acc = Ok enc -> Encoder.loop ls x' acc' = Ok enc' ->
    agree_rows P B T D x x' ->
    Forall2 (agree_rows P B T D) acc acc' ->
    Forall2 (agree_rows P B T D) enc enc'.
Proof.
  intros HN Hdiv Hclosed Hls.
  induction Hls as [|l ls Hl Hls IH];
    intros x x' acc acc' enc enc' Hx Hx' Ee Ee' Ax Aacc.
  - cbn in Ee, Ee'. inversion Ee; inversion Ee'; subst. exact Aacc.
  - destruct (EncoderLayer_forward_ok l x B T D h N Hl HN Hdiv Hx) as (y & Ey & Sy).
    destruct (EncoderLayer_forward_ok l x' B T D h N Hl HN Hdiv Hx') as (y' & Ey' & Sy').
    cbn [Encoder.loop] in Ee, Ee'. rewrite Ey in Ee. rewrite Ey' in Ee'.
    cbn [bind] in Ee, Ee'.
    pose proof (EncoderLayer_agree l P x x' y y' B T D h N Hl HN Hdiv Hx Hx'
                  Ey Ey' Hclosed Ax) as Ay.
    apply (IH y y' (acc ++ [y]) (acc' ++ [y']) enc enc' Sy Sy' Ee Ee' Ay).
    apply Forall2_app; [exact Aacc|]. constructor; [exact Ay|constructor].
Qed.

(** ** Examples of built stacks and token tensors *)

Lemma decoder_ex_built : decoder_built_as decoder_ex 3 2 4 1.
Proof.
  split; [reflexivity|]. constructor; [|constructor]. repeat split; reflexivity.
Qed.

Lemma encoder1_ex_built : encoder_built_as encoder1_ex 3 2 4 1.
Proof.
  split; [reflexivity|]. constructor; [|constructor]. repeat split; reflexivity.
Qed.

Lemma tokens_01_in : tokens_in tokens_01 1 2 3.
Proof.
  split; [reflexivity|]. intros b t Hb Ht.
  assert (t = 0 \/ t = 1) as [-> | ->] by lia; cbn; lia.
Qed.

Lemma tokens_02_in : tokens_in tokens_02 1 2 3.
Proof.
  split; [reflexivity|]. intros b t Hb Ht.
  assert (t = 0 \/ t = 1) as [-> | ->] by lia; cbn; lia.
Qed.

Lemma tokens_01_02_prefix : same_prefix 0 0 2 tokens_01 tokens_02.
Proof.
  intros t Ht Hi. assert (t = 0) as -> by lia. reflexivity.
Qed.

Lemma encodings_ex : encodings_of 1 2 [zeros [1; 3; 2]].
Proof. constructor; [|constructor]. exists 3. reflexivity. Qed.

Lemma Decoder_forward_ok (d : Decoder.t) (x : Tensor nat)
  (encoding : list (Tensor R)) (B T V D h N : nat) :
  decoder_built_as d V D h N -> tokens_in x B T V -> encodings_of B D encoding ->
  0 < T -> Nat.Even D -> 0 < N -> Nat.divide N D ->
  exists x0 y,
    embed_input (Decoder.out d) (Decoder.d_model d) (Decoder.dropout d) x = Ok x0 /\
    size x0 = [B; T; D] /\
    Decoder.forward d x encoding = Ok y /\ size y = [B; T; D].
Proof.
  intros (Hw & Hls) (Hx & Hv) He HT HD HN Hdiv.
  destruct (embed_input_spec (Decoder.out d) (Decoder.d_model d) (Decoder.dropout d)
              B T V D Hw x Hx HT HD Hv) as (x0 & E0 & S0 & _).
  destruct (Decoder_loop_ok B T D h N (Decoder.layers d) HN Hdiv Hls encoding x0 He S0)
    as (y & Ey & Sy).
  exists x0, y. unfold Decoder.forward. rewrite E0. cbn [bind].
  repeat split; assumption.
Qed.

Lemma Encoder_forward_ok (e : Encoder.t) (x : Tensor nat) (B T V D h N : nat) :
  encoder_built_as e V D h N -> tokens_in x B T V ->
  0 < T -> Nat.Even D -> 0 < N -> Nat.divide N D ->
  exists encoding, Encoder.forward e x = Ok encoding /\
    length encoding = length (Encoder.layers e) /\
    Forall (fun y => size y = [B; T; D]) encoding.
Proof.
  intros (Hw & Hls) (Hx & Hv) HT HD HN Hdiv.
  destruct (embed_input_spec (Encoder.out e) (Encoder.d_model e) (Encoder.dropout e)
              B T V D Hw x Hx HT HD Hv) as (x0 & E0 & S0 & _).
  destruct (Encoder_loop_sizes B T D h N (Encoder.layers e) HN Hdiv Hls x0 [] S0
              (Forall_nil _)) as (enc & Ee & Le & Fe).
  exists enc. unfold Encoder.forward. rewrite E0. cbn [bind].
  split; [exact Ee|]. split; [exact Le|exact Fe].
Qed.

Lemma encodings_of_sizes (B T D : nat) (encoding : list (Tensor R)) :
  Forall (fun y => size y = [B; T; D]) encoding -> encodings_of B D encoding.
Proof.
  intros H. unfold encodings_of. eapply Forall_impl; [|exact H].
  intros y Hy. exists T. exact Hy.
Qed.

Lemma batch_a_in : tokens_in batch_a 2 2 3.
Proof.
  split; [reflexivity|]. intros b t Hb Ht.
  assert (b = 0 \/ b = 1) as [-> | ->] by lia;
    (assert (t = 0 \/ t = 1) as [-> | ->] by lia); cbn; lia.
Qed.

Lemma batch_b_in : tokens_in batch_b 2 2 3.
Proof.
  split; [reflexivity|]. intros b t Hb Ht.
  assert (b = 0 \/ b = 1) as [-> | ->] by lia;
    (assert (t = 0 \/ t = 1) as [-> | ->] by lia); cbn; lia.
Qed.

Lemma batch_a_b_sentence : same_sentence 0 2 batch_a batch_b.
Proof. intros t Ht. reflexivity. Qed.

(** ** What the stacks return *)

(** X6: [Encoder.forward] on a batch of tokens of the vocabulary returns
    one encoding per layer (so none for a stack without layers), each of
    size [[B; T; D]], when the width [D] is even and a multiple of the
    number of heads. *)
Theorem encoder_forward_encodings (e : Encoder.t) (x : Tensor nat)
  (B T V D h N : nat) :
  encoder_built_as e V D h N -> tokens_in x B T V ->
  0 < T -> Nat.Even D -> 0 < N -> Nat.divide N D ->
  exists encoding, Encoder.forward e x = Ok encoding /\
    length encoding = length (Encoder.layers e) /\
    Forall (fun y => size y = [B; T; D]) encoding.
Proof.
  intros He Hx HT HD HN Hdiv.
  exact (Encoder_forward_ok e x B T V D h N He Hx HT HD HN Hdiv).
Qed.

Lemma encoder_forward_encodings_witness :
  exists encoding, Encoder.forward encoder1_ex tokens_01 = Ok encoding /\
    length encoding = length (Encoder.layers encoder1_ex) /\
    Forall (fun y => size y = [1; 2; 2]) encoding.
Proof.
  apply (encoder_forward_encodings encoder1_ex tokens_01 1 2 3 2 4 1).
  - exact encoder1_ex_built.
  - exact tokens_01_in.
  - lia.
  - exists 1. reflexivity.
  - lia.
  - exists 2. reflexivity.
Defined.

(** X7: [Decoder.forward] keeps the shape of the target: for tokens of size
    [[B; T]] and encodings of the same batch and of width [D] (as many as
    there may be), the result has size [[B; T; D]]. *)
Theorem decoder_forward_size (d : Decoder.t) (x : Tensor nat)
  (encoding : list (Tensor R)) (B T V D h N : nat) :
  decoder_built_as d V D h N -> tokens_in x B T V -> encodings_of B D encoding ->
  0 < T -> Nat.Even D -> 0 < N -> Nat.divide N D ->
  exists y, Decoder.forward d x encoding = Ok y /\ size y = [B; T; D].
Proof.
  intros Hd Hx He HT HD HN Hdiv.
  destruct (Decoder_forward_ok d x encoding B T V D h N Hd Hx He HT HD HN Hdiv)
    as (x0 & y & _ & _ & Ey & Sy).
  exists y. split; assumption.
Qed.

Lemma decoder_forward_size_witness :
  exists y, Decoder.forward decoder_ex tokens_01 [zeros [1; 3; 2]] = Ok y /\
    size y = [1; 2; 2].
Proof.
  apply (decoder_forward_size decoder_ex tokens_01 [zeros [1; 3; 2]] 1 2 3 2 4 1).
  - exact decoder_ex_built.
  - exact tokens_01_in.
  - exact encodings_ex.
  - lia.
  - exists 1. reflexivity.
  - lia.
  - exists 2. reflexivity.
Defined.

(** X8: [Decoder.forward] is causal in the target, sentence by sentence:
    two batches of targets whose sentence [b] has the same tokens at the
    positions up to [i], decoded against the same encodings, give the
    same output for sentence [b] at every position up to [i], whatever
    the later tokens and the other sentences are. *)
Theorem decoder_forward_causal (d : Decoder.t) (x x' : Tensor nat)
  (encoding : list (Tensor R)) (i b B T V D h N : nat) (y y' : Tensor R) :
  decoder_built_as d V D h N ->
  tokens_in x B T V -> tokens_in x' B T V -> encodings_of B D encoding ->
  0 < T -> Nat.Even D -> 0 < N -> Nat.divide N D -> b < B ->
  same_prefix i b T x x' ->
  Decoder.forward d x encoding = Ok y ->
  Decoder.forward d x' encoding = Ok y' ->
  forall t c, t < T -> t <= i -> c < D ->
    data y [b; t; c] = data y' [b; t; c].
Proof.
  intros (Hw & Hls) (Hx & Hv) (Hx' & Hv') He HT HD HN Hdiv Hb Hpre Ey Ey'.
  destruct (embed_input_spec (Decoder.out d) (Decoder.d_model d) (Decoder.dropout d)
              B T V D Hw x Hx HT HD Hv) as (x0 & E0 & S0 & _).
  destruct (embed_input_spec (Decoder.out d) (Decoder.d_model d) (Decoder.dropout d)
              B T V D Hw x' Hx' HT HD Hv') as (x0' & E0' & S0' & _).
  set (P := fun b' t : nat => b' = b /\ t <= i).
  assert (A0 : agree_rows P B T D x0 x0').
  { apply (embed_input_agree (Decoder.out d) (Decoder.d_model d)
             (Decoder.dropout d) B T V D Hw x x' P x0 x0'
             Hx Hx' HT HD Hv Hv'); [|exact E0|exact E0'].
    intros b' t _ Ht (-> & Hti). exact (Hpre t Ht Hti). }
  unfold Decoder.forward in Ey, Ey'. rewrite E0 in Ey. rewrite E0' in Ey'.
  cbn [bind] in Ey, Ey'.
  assert (Hclosed : forall b' t j, P b' t -> j <= t -> P b' j).
  { intros b' t j (-> & Hti) Hj. split; [reflexivity|lia]. }
  pose proof (Decoder_loop_agree P B T D h N (Decoder.layers d) HN Hdiv Hclosed Hls
                encoding x0 x0' y y' He S0 S0' Ey Ey' A0) as Ay.
  intros t c Ht Hti Hc. apply Ay; try assumption. split; [reflexivity|exact Hti].
Qed.

Lemma decoder_forward_causal_witness :
  exists y y',
    Decoder.forward decoder_ex tokens_01 [zeros [1; 3; 2]] = Ok y /\
    Decoder.forward decoder_ex tokens_02 [zeros [1; 3; 2]] = Ok y' /\
    data y [0; 0; 1] = data y' [0; 0; 1].
Proof.
  assert (HD : Nat.Even 2) by (exists 1; reflexivity).
  assert (Hdiv : Nat.divide 1 2) by (exists 2; reflexivity).
  destruct (Decoder_forward_ok decoder_ex tokens_01 [zeros [1; 3; 2]] 1 2 3 2 4 1
              decoder_ex_built tokens_01_in encodings_ex Nat.lt_0_2 HD Nat.lt_0_1 Hdiv)
    as (x0 & y & _ & _ & Ey & _).
  destruct (Decoder_forward_ok decoder_ex tokens_02 [zeros [1; 3; 2]] 1 2 3 2 4 1
              decoder_ex_built tokens_02_in encodings_ex Nat.lt_0_2 HD Nat.lt_0_1 Hdiv)
    as (x0' & y' & _ & _ & Ey' & _).
  exists y, y'. split; [exact Ey|]. split; [exact Ey'|].
  apply (decoder_forward_causal decoder_ex tokens_01 tokens_02 [zeros [1; 3; 2]]
           0 0 1 2 3 2 4 1 y y' decoder_ex_built tokens_01_in tokens_02_in encodings_ex
           Nat.lt_0_2 HD Nat.lt_0_1 Hdiv Nat.lt_0_1 tokens_01_02_prefix Ey Ey'); lia.
Defined.

(** X9: [Encoder.forward] treats the sentences of a batch independently:
    two batches with the same sentence [b] give, layer by layer,
    encodings with the same entries for sentence [b], whatever the other
    sentences are. *)
Theorem encoder_forward_batch_independent (e : Encoder.t) (x x' : Tensor nat)
  (b B T V D h N : nat) (encoding encoding' : list (Tensor R)) :
  encoder_built_as e V D h N ->
  tokens_in x B T V -> tokens_in x' B T V ->
  0 < T -> Nat.Even D -> 0 < N -> Nat.divide N D -> b < B ->
  same_sentence b T x x' ->
  Encoder.forward e x = Ok encoding ->
  Encoder.forward e x' = Ok encoding' ->
  Forall2 (fun y y' => forall t c, t < T -> c < D ->
                         data y [b; t; c] = data y' [b; t; c])
    encoding encoding'.
Proof.
  intros (Hw & Hls) (Hx & Hv) (Hx' & Hv') HT HD HN Hdiv Hb Hsame Ee Ee'.
  destruct (embed_input_spec (Encoder.out e) (Encoder.d_model e) (Encoder.dropout e)
              B T V D Hw x Hx HT HD Hv) as (x0 & E0 & S0 & _).
  destruct (embed_input_spec (Encoder.out e) (Encoder.d_model e) (Encoder.dropout e)
              B T V D Hw x' Hx' HT HD Hv') as (x0' & E0' & S0' & _).
  set (P := fun b' _ : nat => b' = b).
  assert (A0 : agree_rows P B T D x0 x0').
  { apply (embed_input_agree (Encoder.out e) (Encoder.d_model e)
             (Encoder.dropout e) B T V D Hw x x' P x0 x0'
             Hx Hx' HT HD Hv Hv'); [|exact E0|exact E0'].
    intros b' t _ Ht ->. exact (Hsame t Ht). }
  unfold Encoder.forward in Ee, Ee'. rewrite E0 in Ee. rewrite E0' in Ee'.
  cbn [bind] in Ee, Ee'.
  assert (Hclosed : forall b' t j : nat, P b' t -> P b' j) by (intros b' t j H; exact H).
  pose proof (Encoder_loop_agree P B T D h N (Encoder.layers e) HN Hdiv Hclosed Hls
                x0 x0' [] [] encoding encoding' S0 S0' Ee Ee' A0 (Forall2_nil _)) as Ae.
  eapply Forall2_impl; [|exact Ae].
  intros y y' Ay t c Ht Hc. apply Ay; try assumption. reflexivity.
Qed.

Lemma encoder_forward_batch_independent_witness :
  exists encoding encoding',
    Encoder.forward encoder1_ex batch_a = Ok encoding /\
    Encoder.forward encoder1_ex batch_b = Ok encoding' /\
    Forall2 (fun y y' => forall t c, t < 2 -> c < 2 ->
                           data y [0; t; c] = data y' [0; t; c])
      encoding encoding'.
Proof.
  assert (HD : Nat.Even 2) by (exists 1; reflexivity).
  assert (Hdiv : Nat.divide 1 2) by (exists 2; reflexivity).
  destruct (Encoder_forward_ok encoder1_ex batch_a 2 2 3 2 4 1
              encoder1_ex_built batch_a_in Nat.lt_0_2 HD Nat.lt_0_1 Hdiv)
    as (enc & Ee & _ & _).
  destruct (Encoder_forward_ok encoder1_ex batch_b 2 2 3 2 4 1
              encoder1_ex_built batch_b_in Nat.lt_0_2 HD Nat.lt_0_1 Hdiv)
    as (enc' & Ee' & _ & _).
  exists enc, enc'. split; [exact Ee|]. split; [exact Ee'|].
  exact (encoder_forward_batch_independent encoder1_ex batch_a batch_b 0 2 2 3 2 4 1
           enc enc' encoder1_ex_built batch_a_in batch_b_in Nat.lt_0_2 HD Nat.lt_0_1
           Hdiv Nat.lt_0_2 batch_a_b_sentence Ee Ee').
Defined.

(** X10: both stacks refuse a token outside the vocabulary with an
    [IndexError], and tokens of the vocabulary over a table of odd width
    with a [RuntimeError] (from the positional encodings), before any
    layer runs. *)
Theorem stacks_reject_bad_input (e : Encoder.t) (d : Decoder.t) (x : Tensor nat)
  (encoding : list (Tensor R)) (B T V D : nat) :
  size (Linear.weight (Encoder.out e)) = [V; D] ->
  size (Linear.weight (Decoder.out d)) = [V; D] ->
  size x = [B; T] ->
  ((exists b t, b < B /\ t < T /\ V <= data x [b; t]) ->
     Encoder.forward e x = Raise IndexError /\
     Decoder.forward d x encoding = Raise IndexError) /\
  ((forall b t, b < B -> t < T -> data x [b; t] < V) -> 0 < T -> Nat.Odd D ->
     Encoder.forward e x = Raise RuntimeError /\
     Decoder.forward d x encoding = Raise RuntimeError).
Proof.
  intros He Hd Hx. split.
  - intros (b & t & Hb & Ht & Hbad).
    unfold Encoder.forward, Decoder.forward.
    rewrite (embed_input_out_of_vocabulary _ _ _ B T V D He x b t Hx Hb Ht Hbad).
    rewrite (embed_input_out_of_vocabulary _ _ _ B T V D Hd x b t Hx Hb Ht Hbad).
    split; reflexivity.
  - intros Hv HT HD.
    unfold Encoder.forward, Decoder.forward.
    rewrite (embed_input_odd_width _ _ _ B T V D He x Hx HT HD Hv).
    rewrite (embed_input_odd_width _ _ _ B T V D Hd x Hx HT HD Hv).
    split; reflexivity.
Qed.

Lemma stacks_reject_bad_input_witness :
  Encoder.forward encoder1_ex tokens_03 = Raise IndexError /\
  Decoder.forward decoder_ex tokens_03 [zeros [1; 3; 2]] = Raise IndexError.
Proof.
  apply (stacks_reject_bad_input encoder1_ex decoder_ex tokens_03 [zeros [1; 3; 2]]
           1 2 3 2 eq_refl eq_refl eq_refl).
  exists 0, 1. repeat split; cbn; lia.
Defined.

(** ** Layers and the number of heads *)

Lemma attention_block_indivisible (rb : ResidualBlock.t MultiHead.t)
  (x key value : Tensor R) (B T d N : nat) :
  built_as (ResidualBlock.layer rb) d d N -> ~ Nat.divide N d ->
  size x = [B; T; d] -> size key = [B; T; d] -> size value = [B; T; d] ->
  ResidualBlock.forward rb [x; key; value] = Raise RuntimeError.
Proof.
  intros (Hqi & Hqo & Hki & Hko & Hvi & Hvo & _ & _ & Hn) Hnd Hx Hk Hv.
  destruct (Linear_forward_size _ x [B; T] d Hx Hqi) as (q1 & Eq1 & Sq1).
  destruct (Linear_forward_size _ key [B; T] d Hk Hki) as (k1 & Ek1 & Sk1).
  destruct (Linear_forward_size _ value [B; T] d Hv Hvi) as (v1 & Ev1 & Sv1).
  rewrite Hqo in Sq1.
  unfold ResidualBlock.forward, call, MultiHead.module, MultiHead.forward,
    MultiHead.heads.
  rewrite Eq1, Ek1, Ev1. cbn [bind].
  rewrite Hn, (fold_heads_fail N q1 [B; T] d Sq1 Hnd). reflexivity.
Qed.

(** X12: without encodings (or without layers) no decoder layer runs, and
    [Decoder.forward] returns the embedded target: the row of the
    projection's weights for each token, scaled by [sqrt d_model], plus
    the positional encoding, through dropout. *)
Theorem decoder_forward_without_layers (d : Decoder.t) (x : Tensor nat)
  (encoding : list (Tensor R)) (B T V D : nat) :
  size (Linear.weight (Decoder.out d)) = [V; D] -> tokens_in x B T V ->
  0 < T -> Nat.Even D ->
  Decoder.layers d = [] \/ encoding = [] ->
  exists y, Decoder.forward d x encoding = Ok y /\ size y = [B; T; D] /\
    forall b t c, b < B -> t < T -> c < D ->
      data y [b; t; c]
      = dropout_entry (Decoder.dropout d) [b; t; c]
          (embedded_entry (Decoder.out d) (Decoder.d_model d) D (data x [b; t]) t c).
Proof.
  intros Hw (Hx & Hv) HT HD Hnone.
  destruct (embed_input_spec (Decoder.out d) (Decoder.d_model d) (Decoder.dropout d)
              B T V D Hw x Hx HT HD Hv) as (x0 & E0 & S0 & D0).
  exists x0. split; [|split; assumption].
  unfold Decoder.forward. rewrite E0. cbn [bind].
  destruct Hnone as [-> | ->]; [reflexivity|].
  rewrite combine_nil. reflexivity.
Qed.

Lemma decoder_forward_without_layers_witness :
  exists y, Decoder.forward decoder_ex tokens_01 [] = Ok y /\ size y = [1; 2; 2] /\
    forall b t c, b < 1 -> t < 2 -> c < 2 ->
      data y [b; t; c]
      = dropout_entry (Decoder.dropout decoder_ex) [b; t; c]
          (embedded_entry (Decoder.out decoder_ex) (Decoder.d_model decoder_ex) 2
             (data tokens_01 [b; t]) t c).
Proof.
  apply (decoder_forward_without_layers decoder_ex tokens_01 [] 1 2 3 2).
  - reflexivity.
  - exact tokens_01_in.
  - lia.
  - exists 1. reflexivity.
  - right. reflexivity.
Defined.

(** ** What the constructors build *)

Lemma Dropout_init_rejects (rng : Rng) (p : R) (k : nat) :
  ~ (0 <= p <= 1)%R -> Dropout.init rng p k = Raise ValueError.
Proof.
  intros Hp. unfold Dropout.init.
  destruct (Rle_dec 0 p); [|reflexivity].
  destruct (Rle_dec p 1); [|reflexivity].
  exfalso. apply Hp. split; assumption.
Qed.

Lemma norm_width_init {Lyr} (rb : ResidualBlock.t Lyr) (d : nat) (eps : R) :
  ResidualBlock.norm rb = LayerNorm.init d eps -> norm_width rb d.
Proof. intros E. unfold norm_width. rewrite E. split; reflexivity. Qed.

Lemma FeedForward_init_built (rng : Rng) (d_model d_hidden : nat) (p : R) (k : nat) :
  (0 <= p <= 1)%R ->
  exists f, FeedForward.init rng d_model d_hidden p k = Ok (f, k + 5) /\
    feedforward_built_as f d_model d_hidden.
Proof.
  intros Hp. unfold FeedForward.init, Linear.init, fresh_tensor, ibind, iret.
  rewrite (Dropout_init_ok rng p _ Hp).
  replace (k + 5) with (S (S (S (S (S k))))) by lia.
  eexists. split; [reflexivity|]. repeat split; reflexivity.
Qed.

Lemma feedforward_block_init (rng : Rng) (d h : nat) (p : R) (k : nat) :
  (0 <= p <= 1)%R ->
  exists f rb,
    FeedForward.init rng d h p k = Ok (f, k + 5) /\
    ResidualBlock.init rng f d p (k + 5) = Ok (rb, S (k + 5)) /\
    feedforward_built_as (ResidualBlock.layer rb) d h /\ norm_width rb d.
Proof.
  intros Hp.
  destruct (FeedForward_init_built rng d h p k Hp) as (f & Ef & Hf).
  destruct (ResidualBlock_init_ok rng f d p (k + 5) Hp) as (rb & Erb & Hl & Hn).
  exists f, rb. split; [exact Ef|]. split; [exact Erb|].
  rewrite Hl. split; [exact Hf|]. exact (norm_width_init rb d _ Hn).
Qed.

Lemma attention_block_init_built (rng : Rng) (d n : nat) (p : R) (c : bool) (k : nat) :
  (0 <= p <= 1)%R ->
  exists a m rb,
    Attention.init rng d p c k = Ok (a, S k) /\
    MultiHead.init rng a d d n (S k) = Ok (m, S k + 8) /\
    ResidualBlock.init rng m d p (S k + 8) = Ok (rb, S (S k + 8)) /\
    built_as (ResidualBlock.layer rb) d d n /\
    Attention.causal (MultiHead.attention (ResidualBlock.layer rb)) = c /\
    norm_width rb d.
Proof.
  intros Hp.
  destruct (Attention_init_ok rng d p c k Hp) as (a & Ha & _ & Hca).
  destruct (MultiHead_init_ok rng a d d n (S k)) as (m & Hm & Hatt & Hb).
  destruct (ResidualBlock_init_ok rng m d p (S k + 8) Hp) as (rb & Hrb & Hl & Hn).
  exists a, m, rb. split; [exact Ha|]. split; [exact Hm|]. split; [exact Hrb|].
  rewrite Hl, Hatt. split; [exact Hb|]. split; [exact Hca|].
  exact (norm_width_init rb d _ Hn).
Qed.

Lemma EncoderLayer_init_built (rng : Rng) (args : Args.t) (k : nat) :
  (0 <= Args.drop_ratio args <= 1)%R ->
  exists l, EncoderLayer.init rng args k = Ok (l, k + 16) /\
    encoder_layer_built_as l (Args.d_model args) (Args.d_hidden args)
      (Args.n_heads args).
Proof.
  intros Hp.
  destruct (attention_block_init_built rng (Args.d_model args) (Args.n_heads args)
              (Args.drop_ratio args) false k Hp)
    as (a & m & sa & Ha & Hm & Hsa & Hb & Hca & Hw).
  destruct (feedforward_block_init rng (Args.d_model args) (Args.d_hidden args)
              (Args.drop_ratio args) (S (S k + 8)) Hp)
    as (f & ff & Hf & Hff & Hfb & Hfw).
  eexists. split.
  - unfold EncoderLayer.init, ibind at 1. rewrite Ha.
    unfold ibind at 1. rewrite Hm.
    unfold ibind at 1. rewrite Hsa.
    unfold ibind at 1. rewrite Hf.
    unfold ibind at 1. rewrite Hff.
    unfold iret. replace (S (S (S k + 8) + 5)) with (k + 16) by lia.
    reflexivity.
  - unfold encoder_layer_built_as. cbn [EncoderLayer.selfattn EncoderLayer.feedforward].
    repeat split; assumption || apply Hb || apply Hw || apply Hfb || apply Hfw.
Qed.

Lemma DecoderLayer_init_built (rng : Rng) (args : Args.t) (k : nat) :
  (0 <= Args.drop_ratio args <= 1)%R ->
  exists l, DecoderLayer.init rng args k = Ok (l, k + 26) /\
    decoder_layer_built_as l (Args.d_model args) (Args.d_hidden args)
      (Args.n_heads args).
Proof.
  intros Hp.
  destruct (attention_block_init_built rng (Args.d_model args) (Args.n_heads args)
              (Args.drop_ratio args) true k Hp)
    as (a1 & m1 & sa & Ha1 & Hm1 & Hsa & Hb1 & Hca1 & Hw1).
  destruct (attention_block_init_built rng (Args.d_model args) (Args.n_heads args)
              (Args.drop_ratio args) false (S (S k + 8)) Hp)
    as (a2 & m2 & at2 & Ha2 & Hm2 & Hat2 & Hb2 & Hca2 & Hw2).
  destruct (feedforward_block_init rng (Args.d_model args) (Args.d_hidden args)
              (Args.drop_ratio args) (S (S (S (S k + 8)) + 8)) Hp)
    as (f & ff & Hf & Hff & Hfb & Hfw).
  eexists. split.
  - unfold DecoderLayer.init, ibind at 1. rewrite Ha1.
    unfold ibind at 1. rewrite Hm1.
    unfold ibind at 1. rewrite Hsa.
    unfold ibind at 1. rewrite Ha2.
    unfold ibind at 1. rewrite Hm2.
    unfold ibind at 1. rewrite Hat2.
    unfold ibind at 1. rewrite Hf.
    unfold ibind at 1. rewrite Hff.
    unfold iret.
    replace (S (S (S (S (S k + 8)) + 8) + 5)) with (k + 26) by lia.
    reflexivity.
  - unfold decoder_layer_built_as.
    cbn [DecoderLayer.selfattn DecoderLayer.attention DecoderLayer.feedforward].
    split; [exact Hb1|]. split; [exact Hca1|]. split; [exact Hw1|].
    split; [exact Hb2|]. split; [exact Hca2|]. split; [exact Hw2|].
    split; [exact Hfb|exact Hfw].
Qed.

Lemma replicate_init_built {A} (P : A -> Prop) (c : Init A) (s : nat) :
  (forall k, exists a, c k = Ok (a, k + s) /\ P a) ->
  forall n k, exists l, replicate_init n c k = Ok (l, k + n * s) /\
    length l = n /\ Forall P l.
Proof.
  intros Hc. induction n as [|n IH]; intros k.
  - exists []. cbn. rewrite Nat.add_0_r. split; [reflexivity|]. split; [reflexivity|].
    constructor.
  - destruct (Hc k) as (a & Ea & Pa).
    destruct (IH (k + s)) as (l & El & Ll & Fl).
    exists (a :: l). cbn [replicate_init]. unfold ibind at 1. rewrite Ea.
    unfold ibind at 1. rewrite El. unfold iret.
    replace (k + s + n * s) with (k + S n * s) by lia.
    split; [reflexivity|]. split; [cbn; lia|]. constructor; assumption.
Qed.

Lemma replicate_init_rejects {A} (c : Init A) (e : error) (n : nat) :
  (forall k, c k = Raise e) ->
  forall k, replicate_init (S n) c k = Raise e.
Proof.
  intros Hc k. cbn [replicate_init]. unfold ibind at 1. rewrite Hc. reflexivity.
Qed.

Lemma EncoderLayer_init_rejects (rng : Rng) (args : Args.t) (k : nat) :
  ~ (0 <= Args.drop_ratio args <= 1)%R ->
  EncoderLayer.init rng args k = Raise ValueError.
Proof.
  intros Hp. unfold EncoderLayer.init, Attention.init, ibind.
  rewrite (Dropout_init_rejects rng _ k Hp). reflexivity.
Qed.

Lemma DecoderLayer_init_rejects (rng : Rng) (args : Args.t) (k : nat) :
  ~ (0 <= Args.drop_ratio args <= 1)%R ->
  DecoderLayer.init rng args k = Raise ValueError.
Proof.
  intros Hp. unfold DecoderLayer.init, Attention.init, ibind.
  rewrite (Dropout_init_rejects rng _ k Hp). reflexivity.
Qed.

Lemma Encoder_init_built (rng : Rng) (out : Linear.t) (args : Args.t) (V k : nat) :
  size (Linear.weight out) = [V; Args.d_model args] ->
  (0 <= Args.drop_ratio args <= 1)%R ->
  exists e, Encoder.init rng out args k = Ok (e, k + Args.n_layers args * 16 + 1) /\
    encoder_built_as e V (Args.d_model args) (Args.d_hidden args) (Args.n_heads args) /\
    length (Encoder.layers e) = Args.n_layers args /\
    Encoder.out e = out /\ Encoder.d_model e = Args.d_model args.
Proof.
  intros Hw Hp.
  destruct (replicate_init_built
              (fun l => encoder_layer_built_as l (Args.d_model args)
                          (Args.d_hidden args) (Args.n_heads args))
              (EncoderLayer.init rng args) 16
              (fun k => EncoderLayer_init_built rng args k Hp)
              (Args.n_layers args) k) as (ls & Els & Lls & Fls).
  eexists. split.
  - unfold Encoder.init, ibind at 1. rewrite Els.
    unfold ibind at 1. rewrite (Dropout_init_ok rng _ _ Hp). unfold iret.
    replace (S (k + Args.n_layers args * 16)) with (k + Args.n_layers args * 16 + 1)
      by lia.
    reflexivity.
  - cbn. split; [split; assumption|]. repeat split; assumption.
Qed.

Lemma Decoder_init_built (rng : Rng) (out : Linear.t) (args : Args.t)
  (g : list (Tensor R) -> result (Tensor nat))
  (bs : list (Tensor R) -> Z -> R -> result (Tensor nat)) (V k : nat) :
  size (Linear.weight out) = [V; Args.d_model args] ->
  (0 <= Args.drop_ratio args <= 1)%R ->
  exists d, Decoder.init rng out args g bs k
            = Ok (d, k + Args.n_layers args * 26 + 1) /\
    decoder_built_as d V (Args.d_model args) (Args.d_hidden args) (Args.n_heads args) /\
    length (Decoder.layers d) = Args.n_layers args /\
    Decoder.out d = out /\ Decoder.d_model d = Args.d_model args.
Proof.
  intros Hw Hp.
  destruct (replicate_init_built
              (fun l => decoder_layer_built_as l (Args.d_model args)
                          (Args.d_hidden args) (Args.n_heads args))
              (DecoderLayer.init rng args) 26
              (fun k => DecoderLayer_init_built rng args k Hp)
              (Args.n_layers args) k) as (ls & Els & Lls & Fls).
  eexists. split.
  - unfold Decoder.init, ibind at 1. rewrite Els.
    unfold ibind at 1. rewrite (Dropout_init_ok rng _ _ Hp). unfold iret.
    replace (S (k + Args.n_layers args * 26)) with (k + Args.n_layers args * 26 + 1)
      by lia.
    reflexivity.
  - cbn. split; [split; assumption|]. repeat split; assumption.
Qed.

Lemma Encoder_init_rejects (rng : Rng) (out : Linear.t) (args : Args.t) (k : nat) :
  ~ (0 <= Args.drop_ratio args <= 1)%R ->
  Encoder.init rng out args k = Raise ValueError.
Proof.
  intros Hp. unfold Encoder.init.
  destruct (Args.n_layers args) as [|n].
  - cbn [replicate_init]. unfold ibind, iret.
    rewrite (Dropout_init_rejects rng _ k Hp). reflexivity.
  - unfold ibind at 1.
    rewrite (replicate_init_rejects (EncoderLayer.init rng args) ValueError n
               (fun k => EncoderLayer_init_rejects rng args k Hp)).
    reflexivity.
Qed.

Lemma Decoder_init_rejects (rng : Rng) (out : Linear.t) (args : Args.t)
  (g : list (Tensor R) -> result (Tensor nat))
  (bs : list (Tensor R) -> Z -> R -> result (Tensor nat)) (k : nat) :
  ~ (0 <= Args.drop_ratio args <= 1)%R ->
  Decoder.init rng out args g bs k = Raise ValueError.
Proof.
  intros Hp. unfold Decoder.init.
  destruct (Args.n_layers args) as [|n].
  - cbn [replicate_init]. unfold ibind, iret.
    rewrite (Dropout_init_rejects rng _ k Hp). reflexivity.
  - unfold ibind at 1.
    rewrite (replicate_init_rejects (DecoderLayer.init rng args) ValueError n
               (fun k => DecoderLayer_init_rejects rng args k Hp)).
    reflexivity.
Qed.

(** ** Layers, constructors and the number of heads *)

(** X11: the constructors of the layers accept any number of heads,
    and it is the call that needs a number of heads dividing the width:
    an encoder layer and a decoder layer whose extents are those the
    constructors give keep the size [[B; T; D]] of their input when the
    positive number of heads divides [D], and raise an error when it does
    not (the split into heads of the first self-attention fails). *)
Theorem layers_need_divisible_width (rng : Rng) (args : Args.t) :
  (0 <= Args.drop_ratio args <= 1)%R ->
  (forall k, exists el k', EncoderLayer.init rng args k = Ok (el, k') /\
     encoder_layer_built_as el (Args.d_model args) (Args.d_hidden args)
       (Args.n_heads args)) /\
  (forall k, exists dl k', DecoderLayer.init rng args k = Ok (dl, k') /\
     decoder_layer_built_as dl (Args.d_model args) (Args.d_hidden args)
       (Args.n_heads args)) /\
  forall (el : EncoderLayer.t) (dl : DecoderLayer.t) (x enc : Tensor R)
    (B T Tk D h N : nat),
    encoder_layer_built_as el D h N -> decoder_layer_built_as dl D h N ->
    size x = [B; T; D] -> size enc = [B; Tk; D] -> 0 < N ->
    (Nat.divide N D ->
       (exists y, EncoderLayer.forward el x = Ok y /\ size y = [B; T; D]) /\
       (exists y, DecoderLayer.forward dl x enc = Ok y /\ size y = [B; T; D])) /\
    (~ Nat.divide N D ->
       (exists e, EncoderLayer.forward el x = Raise e) /\
       (exists e, DecoderLayer.forward dl x enc = Raise e)).
Proof.
  intros Hp. split; [|split].
  - intros k. destruct (EncoderLayer_init_built rng args k Hp) as (el & Ee & Hb).
    exists el. eexists. split; [exact Ee|exact Hb].
  - intros k. destruct (DecoderLayer_init_built rng args k Hp) as (dl & Ed & Hb).
    exists dl. eexists. split; [exact Ed|exact Hb].
  - intros el dl x enc B T Tk D h N Hel Hdl Hx He HN. split.
    + intros Hdiv. split.
      * exact (EncoderLayer_forward_ok el x B T D h N Hel HN Hdiv Hx).
      * destruct (DecoderLayer_forward_steps dl x enc B T Tk D h N Hdl HN Hdiv Hx He)
          as (x1 & x2 & y & _ & _ & _ & _ & _ & Sy & Ey).
        exists y. split; assumption.
    + intros Hnd. destruct Hel as (Hm & _). destruct Hdl as (Hm' & _).
      unfold EncoderLayer.forward, DecoderLayer.forward.
      rewrite (attention_block_indivisible _ x x x B T D N Hm Hnd Hx Hx Hx).
      rewrite (attention_block_indivisible _ x x x B T D N Hm' Hnd Hx Hx Hx).
      split; eexists; reflexivity.
Qed.

Lemma layers_need_divisible_width_witness :
  (exists el k', EncoderLayer.init rng0 args_ex 0 = Ok (el, k') /\
     encoder_layer_built_as el 8 16 2) /\
  (exists e, EncoderLayer.forward (encoder_layer_ex 3 4 2) (zeros [1; 2; 3]) = Raise e) /\
  (exists e, DecoderLayer.forward (decoder_layer_ex 3 4 2) (zeros [1; 2; 3])
               (zeros [1; 1; 3]) = Raise e).
Proof.
  assert (Hp : (0 <= Args.drop_ratio args_ex <= 1)%R) by (cbn; lra).
  destruct (layers_need_divisible_width rng0 args_ex Hp) as (Hinit & _ & Hfw).
  split; [exact (Hinit 0)|].
  assert (Hel : encoder_layer_built_as (encoder_layer_ex 3 4 2) 3 4 2)
    by (repeat split; reflexivity).
  assert (Hdl : decoder_layer_built_as (decoder_layer_ex 3 4 2) 3 4 2)
    by (repeat split; reflexivity).
  destruct (Hfw (encoder_layer_ex 3 4 2) (decoder_layer_ex 3 4 2)
              (zeros [1; 2; 3]) (zeros [1; 1; 3]) 1 2 1 3 4 2
              Hel Hdl eq_refl eq_refl Nat.lt_0_2) as (_ & Hr).
  apply Hr. intros [z Hz]. lia.
Defined.

(** ** Training mode of [Transformer.forward] *)

Section SoftmaxRows.
Local Open Scope R_scope.

Lemma softmax_finite_row (l : Tensor R) (L : list nat) (V : nat) (I : list nat) :
  size l = L ++ [V] -> (0 < V)%nat ->
  (forall v, 0 < data (softmax (tmap Finite l)) (I ++ [v])) /\
  rsum V (fun v => data (softmax (tmap Finite l)) (I ++ [v])) = 1.
Proof.
  intros Hl HV.
  destruct (softmax_spec (tmap Finite l) L V Hl) as (_ & Ds).
  assert (Hpos : 0 < rsum V (fun j' => xexp (data (tmap Finite l) (I ++ [j'])))).
  { apply (rsum_pos V _ 0%nat HV).
    - cbn. apply exp_pos.
    - intros j _. cbn. left. apply exp_pos. }
  split.
  - intros v. rewrite Ds. apply Rdiv_lt_0_compat; [cbn; apply exp_pos|exact Hpos].
  - rewrite (rsum_ext V _
               (fun v => xexp (data (tmap Finite l) (I ++ [v]))
                         * / rsum V (fun j' => xexp (data (tmap Finite l) (I ++ [j'])))))
      by (intros v _; rewrite Ds; reflexivity).
    rewrite rsum_scal. apply Rinv_r. lra.
Qed.

End SoftmaxRows.

Lemma Transformer_training_ok (self : Transformer.t)
  (src trg : Tensor nat) (beam : Z) (alpha : R) (B Ts T Vs V D h N : nat) :
  encoder_built_as (Transformer.encoder self) Vs D h N ->
  decoder_built_as (Transformer.decoder self) V D h N ->
  Linear.in_features (Decoder.out (Transformer.decoder self)) = D ->
  Linear.out_features (Decoder.out (Transformer.decoder self)) = V ->
  tokens_in src B Ts Vs -> tokens_in trg B T V ->
  0 < Ts -> 0 < T -> 0 < V -> Nat.Even D -> 0 < N -> Nat.divide N D ->
  exists encoding out probs,
    Transformer.forward self src trg false beam alpha true
    = ([Transformer.InvEncoder src; Transformer.InvDecoder trg encoding;
        Transformer.InvOut out],
       Ok (Transformer.OutProbs out probs)) /\
    size out = [B; T; D] /\ size probs = [B; T; V] /\
    forall b t,
      (forall v, (0 < data probs [b; t; v])%R) /\
      rsum V (fun v => data probs [b; t; v]) = 1%R.
Proof.
  intros He Hd Hin Hout Hsrc Htrg HTs HT HV HD HN Hdiv.
  destruct (Encoder_forward_ok _ src B Ts Vs D h N He Hsrc HTs HD HN Hdiv)
    as (encoding & Ee & _ & Fe).
  destruct (Decoder_forward_ok _ trg encoding B T V D h N Hd Htrg
              (encodings_of_sizes B Ts D encoding Fe) HT HD HN Hdiv)
    as (x0 & out & _ & _ & Eo & So).
  destruct (Linear_forward_size _ out [B; T] D So Hin) as (logits & El & Sl).
  rewrite Hout in Sl.
  exists encoding, out, (softmax (tmap Finite logits)).
  split.
  { rewrite (forward_training self src trg beam alpha encoding true Ee).
    rewrite Eo. cbn [bind]. rewrite El. reflexivity. }
  split; [exact So|].
  split.
  { exact (proj1 (softmax_spec (tmap Finite logits) [B; T] V Sl)). }
  intros b t. exact (softmax_finite_row logits [B; T] V [b; t] Sl HV).
Qed.

(** X13: in training mode with [return_probs], a transformer whose two
    stacks have the same even width [D], a multiple of the number of
    heads, runs the encoder, the decoder and the projection, in this
    order, and returns the decoder output of size [[B; T; D]] with a
    tensor of size [[B; T; V]] whose rows are probability distributions
    over the target vocabulary: positive entries that sum to 1. *)
Theorem transformer_training_probs (self : Transformer.t)
  (src trg : Tensor nat) (beam : Z) (alpha : R) (B Ts T Vs V D h N : nat) :
  encoder_built_as (Transformer.encoder self) Vs D h N ->
  decoder_built_as (Transformer.decoder self) V D h N ->
  Linear.in_features (Decoder.out (Transformer.decoder self)) = D ->
  Linear.out_features (Decoder.out (Transformer.decoder self)) = V ->
  tokens_in src B Ts Vs -> tokens_in trg B T V ->
  0 < Ts -> 0 < T -> 0 < V -> Nat.Even D -> 0 < N -> Nat.divide N D ->
  exists encoding out probs,
    Transformer.forward self src trg false beam alpha true
    = ([Transformer.InvEncoder src; Transformer.InvDecoder trg encoding;
        Transformer.InvOut out],
       Ok (Transformer.OutProbs out probs)) /\
    size out = [B; T; D] /\ size probs = [B; T; V] /\
    forall b t,
      (forall v, (0 < data probs [b; t; v])%R) /\
      rsum V (fun v => data probs [b; t; v]) = 1%R.
Proof.
  intros He Hd Hin Hout Hsrc Htrg HTs HT HV HD HN Hdiv.
  exact (Transformer_training_ok self src trg beam alpha B Ts T Vs V D h N
           He Hd Hin Hout Hsrc Htrg HTs HT HV HD HN Hdiv).
Qed.

Lemma transformer_training_probs_witness :
  exists encoding out probs,
    Transformer.forward
      {| Transformer.encoder := encoder1_ex; Transformer.decoder := decoder_ex |}
      tokens_01 tokens_02 false 1 0 true
    = ([Transformer.InvEncoder tokens_01; Transformer.InvDecoder tokens_02 encoding;
        Transformer.InvOut out],
       Ok (Transformer.OutProbs out probs)) /\
    size out = [1; 2; 2] /\ size probs = [1; 2; 3] /\
    forall b t,
      (forall v, (0 < data probs [b; t; v])%R) /\
      rsum 3 (fun v => data probs [b; t; v]) = 1%R.
Proof.
  apply (transformer_training_probs
           {| Transformer.encoder := encoder1_ex; Transformer.decoder := decoder_ex |}
           tokens_01 tokens_02 1 0 1 2 2 3 3 2 4 1).
  - exact encoder1_ex_built.
  - exact decoder_ex_built.
  - reflexivity.
  - reflexivity.
  - exact tokens_01_in.
  - exact tokens_02_in.
  - lia.
  - lia.
  - lia.
  - exists 1. reflexivity.
  - lia.
  - exists 2. reflexivity.
Defined.

Lemma Linear_init_ok (rng : Rng) (inf outf k : nat) :
  exists l, Linear.init rng inf outf k = Ok (l, S (S k)) /\
    Linear.in_features l = inf /\ Linear.out_features l = outf /\
    size (Linear.weight l) = [outf; inf].
Proof.
  unfold Linear.init, fresh_tensor, ibind, iret.
  eexists. split; [reflexivity|]. repeat split; reflexivity.
Qed.

(** The projections [Transformer.__init__] gives to the two fields; a
    shared field has the vocabulary of the source. *)
Lemma Transformer_init_projections (rng : Rng) (shared src_first : bool)
  (Vs Vt d k : nat) :
  exists os ot k1,
    (if shared then
       o <~ Linear.init rng d Vs ;; iret (o, o)
     else if src_first then
       s <~ Linear.init rng d Vs ;; t <~ Linear.init rng d Vt ;; iret (s, t)
     else
       t <~ Linear.init rng d Vt ;; s <~ Linear.init rng d Vs ;; iret (s, t)) k
    = Ok ((os, ot), k1) /\
    size (Linear.weight os) = [Vs; d] /\
    size (Linear.weight ot) = [if shared then Vs else Vt; d] /\
    Linear.in_features ot = d /\
    Linear.out_features ot = (if shared then Vs else Vt) /\
    (shared = true -> os = ot).
Proof.
  destruct shared.
  - destruct (Linear_init_ok rng d Vs k) as (o & Eo & Hi & Ho & Hw).
    exists o, o, (S (S k)). unfold ibind at 1. rewrite Eo. unfold iret.
    repeat split; assumption || reflexivity.
  - destruct src_first.
    + destruct (Linear_init_ok rng d Vs k) as (s & Es & _ & _ & Hws).
      destruct (Linear_init_ok rng d Vt (S (S k))) as (t & Et & Hi & Ho & Hwt).
      exists s, t, (S (S (S (S k)))). unfold ibind at 1. rewrite Es.
      unfold ibind at 1. rewrite Et. unfold iret.
      repeat split; assumption || discriminate.
    + destruct (Linear_init_ok rng d Vt k) as (t & Et & Hi & Ho & Hwt).
      destruct (Linear_init_ok rng d Vs (S (S k))) as (s & Es & _ & _ & Hws).
      exists s, t, (S (S (S (S k)))). unfold ibind at 1. rewrite Et.
      unfold ibind at 1. rewrite Es. unfold iret.
      repeat split; assumption || discriminate.
Qed.

Lemma Transformer_init_rejects (rng : Rng) (shared src_first : bool)
  (Vs Vt : nat) (args : Args.t) (g : list (Tensor R) -> result (Tensor nat))
  (bs : list (Tensor R) -> Z -> R -> result (Tensor nat)) (k : nat) :
  ~ (0 <= Args.drop_ratio args <= 1)%R ->
  Transformer_init rng shared src_first Vs Vt args g bs k = Raise ValueError.
Proof.
  intros Hp.
  destruct (Transformer_init_projections rng shared src_first Vs Vt
              (Args.d_model args) k)
    as (os & ot & k1 & Eouts & _).
  unfold Transformer_init, ibind at 1. rewrite Eouts. cbn [fst snd].
  unfold ibind at 1. rewrite (Encoder_init_rejects rng os args k1 Hp). reflexivity.
Qed.

(** X14: the constructors check nothing but the dropout ratio: outside
    [[0, 1]] those of the two stacks and of the transformer raise a
    [ValueError] (from [nn.Dropout]); inside, the stacks are built with
    [n_layers] layers of the extents given by [d_model], [d_hidden] and
    [n_heads], whatever these numbers are. *)
Theorem stack_constructors_check_drop_ratio (rng : Rng) (out : Linear.t)
  (args : Args.t) (g : list (Tensor R) -> result (Tensor nat))
  (bs : list (Tensor R) -> Z -> R -> result (Tensor nat)) (V k : nat) :
  size (Linear.weight out) = [V; Args.d_model args] ->
  ((0 <= Args.drop_ratio args <= 1)%R ->
     (exists e k', Encoder.init rng out args k = Ok (e, k') /\
        encoder_built_as e V (Args.d_model args) (Args.d_hidden args)
          (Args.n_heads args) /\
        length (Encoder.layers e) = Args.n_layers args) /\
     (exists d k', Decoder.init rng out args g bs k = Ok (d, k') /\
        decoder_built_as d V (Args.d_model args) (Args.d_hidden args)
          (Args.n_heads args) /\
        length (Decoder.layers d) = Args.n_layers args)) /\
  (~ (0 <= Args.drop_ratio args <= 1)%R ->
     Encoder.init rng out args k = Raise ValueError /\
     Decoder.init rng out args g bs k = Raise ValueError /\
     forall shared src_first Vs Vt,
       Transformer_init rng shared src_first Vs Vt args g bs k = Raise ValueError).
Proof.
  intros Hw. split.
  - intros Hp. split.
    + destruct (Encoder_init_built rng out args V k Hw Hp) as (e & Ee & Hb & Hl & _).
      exists e. eexists. split; [exact Ee|]. split; assumption.
    + destruct (Decoder_init_built rng out args g bs V k Hw Hp)
        as (d & Ed & Hb & Hl & _).
      exists d. eexists. split; [exact Ed|]. split; assumption.
  - intros Hp. split; [|split].
    + exact (Encoder_init_rejects rng out args k Hp).
    + exact (Decoder_init_rejects rng out args g bs k Hp).
    + intros shared src_first Vs Vt.
      exact (Transformer_init_rejects rng shared src_first Vs Vt args g bs k Hp).
Qed.

Lemma stack_constructors_check_drop_ratio_witness :
  (exists e k', Encoder.init rng0 (linear0 8 5) args_ex 0 = Ok (e, k') /\
     encoder_built_as e 5 8 16 2 /\ length (Encoder.layers e) = 1) /\
  (exists d k',
     Decoder.init rng0 (linear0 8 5) args_ex (fun _ => Raise RuntimeError)
       (fun _ _ _ => Raise RuntimeError) 0 = Ok (d, k') /\
     decoder_built_as d 5 8 16 2 /\ length (Decoder.layers d) = 1).
Proof.
  apply (proj1 (stack_constructors_check_drop_ratio rng0 (linear0 8 5) args_ex
                  (fun _ => Raise RuntimeError) (fun _ _ _ => Raise RuntimeError)
                  5 0 eq_refl)).
  cbn. lra.
Defined.

Lemma tokens_01_in5 : tokens_in tokens_01 1 2 5.
Proof.
  split; [reflexivity|]. intros b t Hb Ht.
  assert (t = 0 \/ t = 1) as [-> | ->] by lia; cbn; lia.
Qed.

(** X15: a transformer built by the constructor trains: for a dropout ratio
    in [[0, 1]], an even [d_model] and a positive number of heads that
    divides it, [Transformer.__init__] succeeds, the two stacks holding
    the same projection when source and target are the same field, and
    [forward] in training mode with [return_probs] returns an output of
    size [[B; T; d_model]] with rows of probabilities over the target
    vocabulary, whatever order the fields are visited in. *)
Theorem constructed_transformer_trains (rng : Rng) (shared src_first : bool)
  (args : Args.t) (g : list (Tensor R) -> result (Tensor nat))
  (bs : list (Tensor R) -> Z -> R -> result (Tensor nat))
  (src trg : Tensor nat) (beam : Z) (alpha : R) (Vs Vt B Ts T k : nat) :
  (shared = true -> Vt = Vs) ->
  (0 <= Args.drop_ratio args <= 1)%R ->
  Nat.Even (Args.d_model args) ->
  0 < Args.n_heads args -> Nat.divide (Args.n_heads args) (Args.d_model args) ->
  tokens_in src B Ts Vs -> tokens_in trg B T Vt -> 0 < Ts -> 0 < T -> 0 < Vt ->
  exists self k' encoding out probs,
    Transformer_init rng shared src_first Vs Vt args g bs k = Ok (self, k') /\
    (shared = true ->
       Encoder.out (Transformer.encoder self) = Decoder.out (Transformer.decoder self)) /\
    length encoding = Args.n_layers args /\
    Transformer.forward self src trg false beam alpha true
    = ([Transformer.InvEncoder src; Transformer.InvDecoder trg encoding;
        Transformer.InvOut out],
       Ok (Transformer.OutProbs out probs)) /\
    size out = [B; T; Args.d_model args] /\ size probs = [B; T; Vt] /\
    forall b t,
      (forall v, (0 < data probs [b; t; v])%R) /\
      rsum Vt (fun v => data probs [b; t; v]) = 1%R.
Proof.
  intros Hsh Hp HD HN Hdiv Hsrc Htrg HTs HT HV.
  destruct (Transformer_init_projections rng shared src_first Vs Vt
              (Args.d_model args) k)
    as (os & ot & k1 & Eouts & Hws & Hwt & Hti & Hto & Hsame).
  assert (HVt : (if shared then Vs else Vt) = Vt).
  { destruct shared; [symmetry; exact (Hsh eq_refl)|reflexivity]. }
  rewrite HVt in Hwt, Hto.
  destruct (Encoder_init_built rng os args Vs k1 Hws Hp)
    as (e & Ee & Hbe & Hle & Heo & _).
  destruct (Decoder_init_built rng ot args g bs Vt
              (k1 + Args.n_layers args * 16 + 1) Hwt Hp)
    as (d & Ed & Hbd & Hld & Hdo & _).
  set (self := {| Transformer.encoder := e; Transformer.decoder := d |}).
  assert (Hin : Linear.in_features (Decoder.out (Transformer.decoder self))
                = Args.d_model args) by (cbn; rewrite Hdo; exact Hti).
  assert (Hout : Linear.out_features (Decoder.out (Transformer.decoder self)) = Vt)
    by (cbn; rewrite Hdo; exact Hto).
  destruct (Transformer_training_ok self src trg beam alpha B Ts T Vs Vt
              (Args.d_model args) (Args.d_hidden args) (Args.n_heads args)
              Hbe Hbd Hin Hout Hsrc Htrg HTs HT HV HD HN Hdiv)
    as (encoding & out & probs & Efw & So & Sp & Hrows).
  exists self. eexists. exists encoding, out, probs.
  split.
  { unfold Transformer_init, ibind at 1. rewrite Eouts. cbn [fst snd].
    unfold ibind at 1. rewrite Ee. unfold ibind at 1. rewrite Ed. reflexivity. }
  split; [intros Hs; cbn; rewrite Heo, Hdo; exact (Hsame Hs)|].
  split.
  { pose proof (forward_training self src trg beam alpha) as Hft.
    destruct (Encoder_forward_ok e src B Ts Vs _ _ _ Hbe Hsrc HTs HD HN Hdiv)
      as (enc2 & Een & Len & _).
    specialize (Hft enc2 true Een). rewrite Hft in Efw.
    assert (Heq : enc2 = encoding).
    { destruct (Decoder.forward (Transformer.decoder self) trg enc2);
        cbn in Efw; inversion Efw; reflexivity. }
    subst enc2. congruence. }
  split; [exact Efw|]. split; [exact So|]. split; [exact Sp|exact Hrows].
Qed.

Lemma constructed_transformer_trains_witness :
  exists self k' encoding out probs,
    Transformer_init rng0 true true 5 5 args_ex (fun _ => Raise RuntimeError)
      (fun _ _ _ => Raise RuntimeError) 0 = Ok (self, k') /\
    (true = true ->
       Encoder.out (Transformer.encoder self) = Decoder.out (Transformer.decoder self)) /\
    length encoding = Args.n_layers args_ex /\
    Transformer.forward self tokens_01 tokens_01 false 1 0 true
    = ([Transformer.InvEncoder tokens_01; Transformer.InvDecoder tokens_01 encoding;
        Transformer.InvOut out],
       Ok (Transformer.OutProbs out probs)) /\
    size out = [1; 2; Args.d_model args_ex] /\ size probs = [1; 2; 5] /\
    forall b t,
      (forall v, (0 < data probs [b; t; v])%R) /\
      rsum 5 (fun v => data probs [b; t; v]) = 1%R.
Proof.
  apply (constructed_transformer_trains rng0 true true args_ex
           (fun _ => Raise RuntimeError) (fun _ _ _ => Raise RuntimeError)
           tokens_01 tokens_01 1 0 5 5 1 2 2 0).
  - reflexivity.
  - cbn. lra.
  - exists 4. reflexivity.
  - cbn. lia.
  - exists 4. reflexivity.
  - exact tokens_01_in5.
  - exact tokens_01_in5.
  - lia.
  - lia.
  - lia.
Defined.

(** ** Positional encodings at given positions *)

Section ExplicitPositions.
Local Open Scope R_scope.

Lemma positional_encodings_at (x t : Tensor R) (lead : list nat)
  (Tx D B T : nat) :
  size x = lead ++ [Tx; D] -> size t = [B; T] -> (0 < B)%nat -> (0 < T)%nat ->
  exists pe, positional_encodings_like x (Some t) = Ok pe /\
    size pe = [B; T; ((D + 1) / 2 * 2)%nat] /\
    forall b p c, (b < B)%nat -> (p < T)%nat ->
      data pe [b; p; c]
      = (if (c mod 2 =? 0)%nat then sin else cos)
          (data t [b; p] / Rpower 10000 (INR (c / 2 * 2) / INR D)).
Proof.
  intros Hx Ht HB HT.
  destruct (maxsize_trailing x lead Tx D Hx) as [HmT HmD].
  unfold positional_encodings_like. rewrite HmT, HmD. cbn [bind].
  destruct t as [tsz tdat]. cbn [size] in Ht. subst tsz.
  unfold unsqueeze, arange. norm_dims.
  replace (D - 0 + 2 - 1)%nat with (D + 1)%nat by lia.
  shape_step.
  unfold matmul, bmm. shape_step.
  unfold stack_last. cbn [size tmap].
  destruct (list_eq_dec Nat.eq_dec [B; T; ((D + 1) / 2)%nat] [B; T; ((D + 1) / 2)%nat])
    as [_|Hne]; [|contradiction].
  shape_step.
  unfold view_merge_last2. shape_step.
  destruct (Nat.eqb_spec (T * (B * 1)) 0); [nia|].
  shape_step.
  eexists. split; [reflexivity|]. split; [reflexivity|].
  intros b p c Hb Hp. shape_step.
  rewrite (clamp_lt B b Hb). cbn [rsum].
  replace (c / 2 * 2 + 0)%nat with (c / 2 * 2)%nat by lia.
  destruct (c mod 2 =? 0)%nat; f_equal; unfold Rdiv; ring.
Qed.

Lemma positional_encodings_along (x t : Tensor R) (lead : list nat) (T D : nat) :
  size x = lead ++ [T; D] -> size t = [T] -> lead <> [] -> (0 < T)%nat ->
  Nat.Even D ->
  exists pe, positional_encodings_like x (Some t) = Ok pe /\
    size pe = size x /\
    forall I p c, inb I lead -> (p < T)%nat -> (c < D)%nat ->
      data pe (I ++ [p; c])
      = (if (c mod 2 =? 0)%nat then sin else cos)
          (data t [p] / Rpower 10000 (INR (c / 2 * 2) / INR D)).
Proof.
  intros Hx Ht Hlead HT HD.
  destruct (maxsize_trailing x lead T D Hx) as [HmT HmD].
  unfold positional_encodings_like. rewrite HmT, HmD. cbn [bind].
  destruct t as [tsz tdat]. cbn [size] in Ht. subst tsz.
  unfold unsqueeze, arange. norm_dims.
  replace (D - 0 + 2 - 1)%nat with (D + 1)%nat by lia.
  shape_step.
  unfold matmul, bmm. shape_step.
  unfold stack_last. cbn [size tmap].
  destruct (list_eq_dec Nat.eq_dec [T; ((D + 1) / 2)%nat] [T; ((D + 1) / 2)%nat])
    as [_|Hne]; [|contradiction].
  shape_step.
  unfold view_merge_last2. shape_step.
  destruct (Nat.eqb_spec (T * 1) 0); [lia|].
  shape_step. norm_dims. shape_step. rewrite (even_half_double D HD).
  match goal with
  | |- context [expand ?e0 _] => set (e := e0)
  end.
  destruct (expand_over_batch e lead T D eq_refl Hlead) as (r & Er & Sr & Dr).
  rewrite Hx. exists r. split; [exact Er|]. split; [exact Sr|].
  intros I q j HI Hq Hj. rewrite (Dr I q j HI Hq Hj).
  unfold e. shape_step. cbn [rsum].
  replace (j / 2 * 2 + 0)%nat with (j / 2 * 2)%nat by lia.
  destruct (j mod 2 =? 0)%nat; f_equal; unfold Rdiv; ring.
Qed.

End ExplicitPositions.


(** X16: [positional_encodings_like] with explicit positions [t] uses the
    value of [t] where the default uses the index of the position.  A
    vector of one position per step gives a table that is expanded over
    the batch to the size of [x]; a [B x T] tensor of positions gives
    the encodings of size [[B; T; 2 * ceil(D / 2)]] directly, with no
    comparison against the size of [x]. *)
Theorem positional_encodings_explicit (x : Tensor R) (lead : list nat) (Tx D : nat) :
  size x = lead ++ [Tx; D] ->
  (forall t, size t = [Tx] -> lead <> [] -> 0 < Tx -> Nat.Even D ->
     exists pe, positional_encodings_like x (Some t) = Ok pe /\
       size pe = size x /\
       forall I p c, inb I lead -> p < Tx -> c < D ->
         data pe (I ++ [p; c])
         = (if c mod 2 =? 0 then sin else cos)
             (data t [p] / Rpower 10000 (INR (c / 2 * 2) / INR D))%R) /\
  (forall t B T, size t = [B; T] -> 0 < B -> 0 < T ->
     exists pe, positional_encodings_like x (Some t) = Ok pe /\
       size pe = [B; T; (D + 1) / 2 * 2] /\
       forall b p c, b < B -> p < T ->
         data pe [b; p; c]
         = (if c mod 2 =? 0 then sin else cos)
             (data t [b; p] / Rpower 10000 (INR (c / 2 * 2) / INR D))%R).
Proof.
  intros Hx. split.
  - intros t Ht Hlead HT HD.
    exact (positional_encodings_along x t lead Tx D Hx Ht Hlead HT HD).
  - intros t B T Ht HB HT.
    exact (positional_encodings_at x t lead Tx D B T Hx Ht HB HT).
Qed.

Lemma positional_encodings_explicit_witness :
  exists pe, positional_encodings_like (zeros [1; 2; 3]) (Some positions_ex) = Ok pe /\
    size pe = [4; 5; (3 + 1) / 2 * 2] /\
    forall b p c, b < 4 -> p < 5 ->
      data pe [b; p; c]
      = (if c mod 2 =? 0 then sin else cos)
          (data positions_ex [b; p] / Rpower 10000 (INR (c / 2 * 2) / INR 3))%R.
Proof.
  apply (proj2 (positional_encodings_explicit (zeros [1; 2; 3]) [1] 2 3 eq_refl)
           positions_ex 4 5); [reflexivity|lia|lia].
Defined.

(** X17: when the source batch holds a token outside the vocabulary, or the
    width of the model is odd, [Transformer.forward] stops in the
    encoder, in every mode: the decoder and the search are never run. *)
Theorem transformer_stops_at_encoder (self : Transformer.t)
  (src trg : Tensor nat) (decoding return_probs : bool) (beam : Z) (alpha : R)
  (B T V D : nat) :
  size (Linear.weight (Encoder.out (Transformer.encoder self))) = [V; D] ->
  size src = [B; T] ->
  ((exists b t, b < B /\ t < T /\ V <= data src [b; t]) ->
     Transformer.forward self src trg decoding beam alpha return_probs
     = ([Transformer.InvEncoder src], Raise IndexError)) /\
  ((forall b t, b < B -> t < T -> data src [b; t] < V) -> 0 < T -> Nat.Odd D ->
     Transformer.forward self src trg decoding beam alpha return_probs
     = ([Transformer.InvEncoder src], Raise RuntimeError)).
Proof.
  intros Hw Hx. split.
  - intros (b & t & Hb & Ht & Hbad).
    apply forward_encoder_raises. unfold Encoder.forward.
    rewrite (embed_input_out_of_vocabulary _ _ _ B T V D Hw src b t Hx Hb Ht Hbad).
    reflexivity.
  - intros Hv HT HD.
    apply forward_encoder_raises. unfold Encoder.forward.
    rewrite (embed_input_odd_width _ _ _ B T V D Hw src Hx HT HD Hv).
    reflexivity.
Qed.

Lemma transformer_stops_at_encoder_witness :
  Transformer.forward
    {| Transformer.encoder := encoder1_ex; Transformer.decoder := decoder_ex |}
    tokens_03 tokens_01 true 1 0 true
  = ([Transformer.InvEncoder tokens_03], Raise IndexError).
Proof.
  apply (proj1 (transformer_stops_at_encoder
                  {| Transformer.encoder := encoder1_ex;
                     Transformer.decoder := decoder_ex |}
                  tokens_03 tokens_01 true true 1 0 1 2 3 2 eq_refl eq_refl)).
  exists 0, 1. repeat split; cbn; lia.
Defined.
